(** * urlvalues: decoding url.Values into struct fields

    A shallow embedding of the Go package [urlvalues] (files
    [urlvalues.go] and [options.go]) together with the properties of its
    tag parser, its "now" based time parser, its type coercion engine
    [processField], its field flattener [extractFields] and [Unmarshal].

    Go strings are byte sequences: they are modelled by [string], whose
    characters are the 256 values of [ascii].  The functions of the Go
    standard library that the package calls are modelled in the modules
    [Strings] and [Strconv]; the parts of the standard library that work
    on floating point numbers, on time layouts and on the clock are
    operations of the host (class [Host]). *)

From Stdlib Require Import ZArith Ascii String List Bool Lia.
From stdpp Require Import base option list strings gmap.

Set Warnings "-register-all".

Local Open Scope string_scope.
Local Open Scope Z_scope.

(** ** Package [strings] of the Go standard library *)

Module Strings.

(** [strings.HasPrefix(s, prefix)]. *)
Definition HasPrefix (s pre : string) : bool := String.prefix pre s.

(** [s[n:]] for [n <= len(s)]. *)
Fixpoint drop (n : nat) (s : string) : string :=
  match n, s with
  | O, _ => s
  | S n', String _ s' => drop n' s'
  | S _, EmptyString => EmptyString
  end.

(** [strings.Cut(s, sep)]: the text before and after the first
    occurrence of [sep], found by [strings.Index]. *)
Fixpoint Cut (s sep : string) : option (string * string) :=
  if String.prefix sep s then Some (EmptyString, drop (String.length sep) s)
  else match s with
       | EmptyString => None
       | String c s' =>
           match Cut s' sep with
           | Some (a, b) => Some (String c a, b)
           | None => None
           end
       end.

(** The loop of [strings.genSplit] for a non-empty separator:
    [cuts] bounds the number of separators that are consumed
    ([n - 1] in the source). *)
Fixpoint genSplit (cuts : nat) (s sep : string) : list string :=
  match cuts with
  | O => [s]
  | S k =>
      match Cut s sep with
      | None => [s]
      | Some (a, b) => a :: genSplit k b sep
      end
  end.

(** [strings.Split(s, sep)] for [sep <> ""] (every call site of the
    package passes a non-empty separator).  The source computes
    [n = Count(s, sep) + 1] pieces; since the loop stops at the first
    failed search and [Count(s, sep) <= len(s)], the bound [len(s)]
    gives the same pieces. *)
Definition Split (s sep : string) : list string :=
  genSplit (String.length s) s sep.

(** [strings.SplitN(s, sep, n)] for [sep <> ""]: [n = 0] gives no
    piece, [n < 0] is [Split], and [n > 0] gives at most [n] pieces,
    the last one being the unsplit remainder. *)
Definition SplitN (s sep : string) (n : Z) : list string :=
  if n =? 0 then []
  else if n <? 0 then Split s sep
  else genSplit (Nat.min (Z.to_nat n) (S (String.length s)) - 1) s sep.

(** [strings.Join(elems, sep)]. *)
Fixpoint Join (elems : list string) (sep : string) : string :=
  match elems with
  | [] => EmptyString
  | [e] => e
  | e :: rest => e ++ sep ++ Join rest sep
  end.

Definition bytes (l : list N) : string :=
  string_of_list_ascii (List.map ascii_of_N l).

(** The UTF-8 encodings of the code points for which
    [unicode.IsSpace] holds: tab, line feed, vertical tab, form feed,
    carriage return, space, U+0085, U+00A0, U+1680, U+2000 to U+200A,
    U+2028, U+2029, U+202F, U+205F and U+3000. *)
Definition spaceRunes : list string :=
  List.map bytes
    [ [9]; [10]; [11]; [12]; [13]; [32];
      [194; 133]; [194; 160]; [225; 154; 128];
      [226; 128; 128]; [226; 128; 129]; [226; 128; 130];
      [226; 128; 131]; [226; 128; 132]; [226; 128; 133];
      [226; 128; 134]; [226; 128; 135]; [226; 128; 136];
      [226; 128; 137]; [226; 128; 138];
      [226; 128; 168]; [226; 128; 169]; [226; 128; 175];
      [226; 129; 159]; [227; 128; 128] ]%N.

(** The width in bytes of the white space rune that [s] starts with
    ([0] when it starts with none). *)
Definition leadingSpace (runes : list string) (s : string) : nat :=
  match List.find (fun r => String.prefix r s) runes with
  | Some r => String.length r
  | None => O
  end.

(** [strings.TrimLeftFunc(s, unicode.IsSpace)]: [skip] counts the
    remaining bytes of the rune being removed. *)
Fixpoint trimLeft (runes : list string) (skip : nat) (s : string) : string :=
  match s with
  | EmptyString => EmptyString
  | String c s' =>
      match skip with
      | S k => trimLeft runes k s'
      | O =>
          match leadingSpace runes s with
          | O => s
          | S k => trimLeft runes k s'
          end
      end
  end.

Definition rev (s : string) : string :=
  string_of_list_ascii (List.rev (list_ascii_of_string s)).

(** [strings.TrimSpace(s)]: leading white space is removed first,
    then trailing white space, rune by rune from the end. *)
Definition TrimSpace (s : string) : string :=
  rev (trimLeft (List.map rev spaceRunes) O
         (rev (trimLeft spaceRunes O s))).

(** [strings.NewReplacer("+", " +", "-", " -").Replace(s)]: a byte
    replacer, every ["+"] becomes [" +"] and every ["-"] becomes [" -"]. *)
Fixpoint ReplaceSigns (s : string) : string :=
  match s with
  | EmptyString => EmptyString
  | String c s' =>
      if (Ascii.eqb c "+" || Ascii.eqb c "-")%bool
      then String " " (String c (ReplaceSigns s'))
      else String c (ReplaceSigns s')
  end.

End Strings.

(** ** Package [strconv] of the Go standard library *)

Module Strconv.

(** [strconv.IntSize]: the size of [int] (a 64-bit platform). *)
Definition IntSize : Z := 64.

Inductive NumErrKind : Type :=
| ErrSyntax
| ErrRange
| ErrBase (base : Z)
| ErrBitSize (bitSize : Z).

(** [*strconv.NumError]. *)
Record NumError : Type := mkNumError {
  Func : string;
  Num : string;
  Err : NumErrKind
}.

(** [strconv.ParseBool]. *)
Definition ParseBool (str : string) : bool + NumError :=
  if existsb (String.eqb str) ["1"; "t"; "T"; "TRUE"; "true"; "True"] then inl true
  else if existsb (String.eqb str) ["0"; "f"; "F"; "FALSE"; "false"; "False"] then inl false
  else inr (mkNumError "ParseBool" str ErrSyntax).

Definition byte (c : ascii) : Z := Z.of_N (N_of_ascii c).

(** [lower(c)] is [c | ('x' - 'X')]. *)
Definition lower (c : ascii) : Z := Z.lor (byte c) 32.

Definition isDigit (c : ascii) : bool := (48 <=? byte c) && (byte c <=? 57).
Definition isLetter (c : ascii) : bool := (97 <=? lower c) && (lower c <=? 122).

(** The number proper of [underscoreOK]: [saw] is the class of the
    last character seen (['0'] digit, ['_'] underscore, ['!'] other,
    ['^'] start). *)
Fixpoint underscoreScan (hex : bool) (saw : ascii) (s : string) : bool :=
  match s with
  | EmptyString => negb (Ascii.eqb saw "_")
  | String c s' =>
      if (isDigit c || (hex && (97 <=? lower c) && (lower c <=? 102)))%bool
      then underscoreScan hex "0" s'
      else if Ascii.eqb c "_"
      then (if Ascii.eqb saw "0" then underscoreScan hex "_" s' else false)
      else if Ascii.eqb saw "_" then false
      else underscoreScan hex "!" s'
  end.

(** [strconv.underscoreOK]. *)
Definition underscoreOK (s : string) : bool :=
  let s1 := match s with
            | String c s' => if (Ascii.eqb c "-" || Ascii.eqb c "+")%bool then s' else s
            | EmptyString => s
            end in
  match s1 with
  | String c0 (String c1 rest) =>
      if (Ascii.eqb c0 "0" &&
          ((lower c1 =? 98) || (lower c1 =? 111) || (lower c1 =? 120)))%bool
      then underscoreScan (lower c1 =? 120) "0" rest
      else underscoreScan false "^" s1
  | _ => underscoreScan false "^" s1
  end.

Definition maxUint64 : Z := 2 ^ 64 - 1.

(** The digit loop of [strconv.ParseUint]; [n] is a [uint64], its
    wrap-around is written out. The result is the value returned and
    the error kind, if any, and whether an underscore was seen. *)
Fixpoint digits (base0 : bool) (base cutoff maxVal : Z) (n : Z)
    (underscores : bool) (s : string) : Z * option NumErrKind * bool :=
  match s with
  | EmptyString => (n, None, underscores)
  | String c s' =>
      if (Ascii.eqb c "_" && base0)%bool
      then digits base0 base cutoff maxVal n true s'
      else
        let d := if isDigit c then Some (byte c - 48)
                 else if isLetter c then Some (lower c - 97 + 10)
                 else None in
        match d with
        | None => (0, Some ErrSyntax, underscores)
        | Some d =>
            if d >=? base then (0, Some ErrSyntax, underscores)
            else if n >=? cutoff then (maxVal, Some ErrRange, underscores)
            else
              let n' := (n * base) mod 2 ^ 64 in
              let n1 := (n' + d) mod 2 ^ 64 in
              if ((n1 <? n') || (n1 >? maxVal))%bool
              then (maxVal, Some ErrRange, underscores)
              else digits base0 base cutoff maxVal n1 underscores s'
        end
  end.

(** [strconv.ParseUint(s, base, bitSize)]: the value returned and the
    error, if any. *)
Definition ParseUint (s : string) (base bitSize : Z) : Z * option NumError :=
  let fail k := (0, Some (mkNumError "ParseUint" s k)) in
  match s with
  | EmptyString => fail ErrSyntax
  | String c0 rest =>
      let base0 := base =? 0 in
      let prefixed :=
        if ((2 <=? base) && (base <=? 36))%bool then Some (base, s)
        else if base0 then
          if Ascii.eqb c0 "0" then
            match rest with
            | String c1 (String c2 rest2) =>
                if lower c1 =? 98 then Some (2, String c2 rest2)
                else if lower c1 =? 111 then Some (8, String c2 rest2)
                else if lower c1 =? 120 then Some (16, String c2 rest2)
                else Some (8, rest)
            | _ => Some (8, rest)
            end
          else Some (10, s)
        else None in
      match prefixed with
      | None => fail (ErrBase base)
      | Some (b, body) =>
          if ((bitSize <? 0) || (bitSize >? 64))%bool then fail (ErrBitSize bitSize)
          else
            let bits := if bitSize =? 0 then IntSize else bitSize in
            let cutoff := maxUint64 / b + 1 in
            let maxVal := 2 ^ bits - 1 in
            match digits base0 b cutoff maxVal 0 false body with
            | (v, Some k, _) => (v, Some (mkNumError "ParseUint" s k))
            | (v, None, underscores) =>
                if (underscores && negb (underscoreOK s))%bool
                then fail ErrSyntax
                else (v, None)
            end
      end
  end.

Definition isRange (e : NumError) : bool :=
  match Err e with ErrRange => true | _ => false end.

(** [strconv.ParseInt(s, base, bitSize)]. *)
Definition ParseInt (s : string) (base bitSize : Z) : Z * option NumError :=
  match s with
  | EmptyString => (0, Some (mkNumError "ParseInt" s ErrSyntax))
  | String c0 rest =>
      let neg := Ascii.eqb c0 "-" in
      let body := if (Ascii.eqb c0 "+" || neg)%bool then rest else s in
      let (un, err) := ParseUint body base bitSize in
      let early :=
        match err with
        | Some e => if isRange e then None else Some (Err e)
        | None => None
        end in
      match early with
      | Some k => (0, Some (mkNumError "ParseInt" s k))
      | None =>
          let bits := if bitSize =? 0 then IntSize else bitSize in
          let cutoff := 2 ^ (bits - 1) in
          if (negb neg && (un >=? cutoff))%bool
          then (cutoff - 1, Some (mkNumError "ParseInt" s ErrRange))
          else if (neg && (un >? cutoff))%bool
          then (- cutoff, Some (mkNumError "ParseInt" s ErrRange))
          else ((if neg then - un else un), None)
      end
  end.

(** [strconv.Atoi(s)]: [ParseInt(s, 10, 0)] converted to [int], the
    error renamed. *)
Definition Atoi (s : string) : Z * option NumError :=
  match ParseInt s 10 0 with
  | (i, Some e) => (i, Some (mkNumError "Atoi" (Num e) (Err e)))
  | (i, None) => (i, None)
  end.

End Strconv.

(** ** Errors

    The error values that the package builds, one constructor for each
    place of the source that builds one.  [ErrHost] stands for the
    errors of the host's parsers and decoders. *)

Inductive error : Type :=
| ErrInvalidStruct
    (* errors.New("urlvalues: target must be a struct pointer") *)
| ErrNoFields
    (* errors.New("urlvalues: no fields identified in target struct") *)
| ErrParsingTags (fieldName : string) (e : error)
    (* fmt.Errorf("urlvalues: parsing tags for field %s: %w", fieldName, err) *)
| ErrWrapped (e : error)
    (* fmt.Errorf("urlvalues: %w", err) *)
| ErrTagMissingValue (tagProp : string)
    (* fmt.Errorf("tag %q missing a value", tagProp) *)
| ErrInvalidMapItem (pair : string)
    (* fmt.Errorf("invalid map item: %q", pair) *)
| ErrNowFormat
    (* errors.New("invalid \"now\" based format") *)
| ErrInvalidSign (c : ascii)
    (* fmt.Errorf("invalid sign %q", part[0]) *)
| ErrNotInteger (s : string)
    (* fmt.Errorf("%q is not a valid integer", part[1:len(part)-1]) *)
| ErrInvalidIdentifier (c : ascii)
    (* fmt.Errorf("invalid year/month/day identifier %q", part[len(part)-1]) *)
| ErrNum (e : Strconv.NumError)
| ErrHost (msg : string)
| ErrField (fe : FieldError)
| ErrParse (pe : ParseError)
with FieldError : Type :=
| mkFieldError (fieldName typeName value : string) (err : error)
with ParseError : Type :=
| mkParseError (FieldName Key : string) (fe : FieldError).

Definition fe_fieldName (e : FieldError) : string :=
  match e with mkFieldError n _ _ _ => n end.
Definition fe_typeName (e : FieldError) : string :=
  match e with mkFieldError _ t _ _ => t end.
Definition fe_value (e : FieldError) : string :=
  match e with mkFieldError _ _ v _ => v end.
Definition fe_err (e : FieldError) : error :=
  match e with mkFieldError _ _ _ c => c end.
Definition pe_FieldName (e : ParseError) : string :=
  match e with mkParseError n _ _ => n end.
Definition pe_Key (e : ParseError) : string :=
  match e with mkParseError _ k _ => k end.
Definition pe_fe (e : ParseError) : FieldError :=
  match e with mkParseError _ _ f => f end.

(** [Unwrap]: [ParseError] has an [Unwrap] method, [FieldError] has
    none, and [fmt.Errorf] with [%w] wraps its argument. *)
Definition Unwrap (e : error) : option error :=
  match e with
  | ErrParsingTags _ e' => Some e'
  | ErrWrapped e' => Some e'
  | ErrParse pe => Some (ErrField (pe_fe pe))
  | _ => None
  end.

(** [errors.As(err, &parseErr)] for [parseErr : *ParseError]. *)
Fixpoint AsParseError (e : error) : option ParseError :=
  match e with
  | ErrParse pe => Some pe
  | ErrParsingTags _ e' => AsParseError e'
  | ErrWrapped e' => AsParseError e'
  | _ => None
  end.

(** [errors.As(err, &fieldErr)] for [fieldErr : *FieldError]. *)
Fixpoint AsFieldError (e : error) : option FieldError :=
  match e with
  | ErrField fe => Some fe
  | ErrParse pe => Some (pe_fe pe)
  | ErrParsingTags _ e' => AsFieldError e'
  | ErrWrapped e' => AsFieldError e'
  | _ => None
  end.

(** [errors.Is(err, ErrInvalidStruct)]. *)
Fixpoint IsErrInvalidStruct (e : error) : bool :=
  match e with
  | ErrInvalidStruct => true
  | ErrParsingTags _ e' => IsErrInvalidStruct e'
  | ErrWrapped e' => IsErrInvalidStruct e'
  | _ => false
  end.

(** ** Parse options ([options.go]) *)

(** [ParseOptions]: [delim] is a [*string], [None] when not set. *)
Record ParseOptions : Type := mkParseOptions { delim : option string }.

Definition SetParseOptionFunc : Type := ParseOptions -> ParseOptions.

Definition WithDelimiter (s : string) : SetParseOptionFunc :=
  fun _ => {| delim := Some s |}.

Definition Delim (o : ParseOptions) : string :=
  match delim o with
  | Some s => if String.eqb s "" then ";" else s
  | None => ";"
  end.

(** ** Field options and the tag parser *)

Record fieldOptions : Type := mkFieldOptions {
  key : string;
  defaultValue : string;
  layout : string
}.

Definition noOptions : fieldOptions :=
  {| key := ""; defaultValue := ""; layout := "" |}.

(** The body of the loop of [parseTag] for the [i]-th part. *)
Definition parseTagPart (fOpts : fieldOptions) (i : nat) (tagPart : string)
    : fieldOptions * option error :=
  let vals := Strings.SplitN tagPart ":" 2 in
  let tagProp := Strings.TrimSpace (List.nth 0 vals "") in
  match vals with
  | [_] =>
      if Nat.eqb i 0
      then ({| key := tagProp; defaultValue := defaultValue fOpts;
               layout := layout fOpts |}, None)
      else (fOpts, None)
  | [_; v] =>
      let tagPropVal := Strings.TrimSpace v in
      if String.eqb tagPropVal "" then (fOpts, Some (ErrTagMissingValue tagProp))
      else if String.eqb tagProp "default"
      then ({| key := key fOpts; defaultValue := tagPropVal;
               layout := layout fOpts |}, None)
      else if String.eqb tagProp "layout"
      then ({| key := key fOpts; defaultValue := defaultValue fOpts;
               layout := tagPropVal |}, None)
      else (fOpts, None)
  | _ => (fOpts, None)
  end.

Fixpoint parseTagLoop (fOpts : fieldOptions) (i : nat) (tagParts : list string)
    : fieldOptions * option error :=
  match tagParts with
  | [] => (fOpts, None)
  | tagPart :: rest =>
      match parseTagPart fOpts i tagPart with
      | (fOpts', Some e) => (fOpts', Some e)
      | (fOpts', None) => parseTagLoop fOpts' (S i) rest
      end
  end.

(** [parseTag]: the options returned and the error, if any. *)
Definition parseTag (tagStr : string) : fieldOptions * option error :=
  if String.eqb tagStr "" then (noOptions, None)
  else parseTagLoop noOptions 0 (Strings.Split tagStr ",").

(** ** Types and values, as [reflect] shows them *)

(** Package [reflect]: the kinds of types. *)

Module Reflect.

(** [reflect.Kind]. *)
Inductive Kind : Type :=
| Invalid | Bool | Int | Int8 | Int16 | Int32 | Int64
| Uint | Uint8 | Uint16 | Uint32 | Uint64 | Uintptr
| Float32 | Float64 | Complex64 | Complex128
| Array | Chan | Func | Interface | Map | Pointer | Slice | String
| Struct | UnsafePointer.

Definition Kind_eqb (a b : Kind) : bool :=
  match a, b with
  | Invalid, Invalid | Bool, Bool | Int, Int | Int8, Int8 | Int16, Int16
  | Int32, Int32 | Int64, Int64 | Uint, Uint | Uint8, Uint8
  | Uint16, Uint16 | Uint32, Uint32 | Uint64, Uint64 | Uintptr, Uintptr
  | Float32, Float32 | Float64, Float64 | Complex64, Complex64
  | Complex128, Complex128 | Array, Array | Chan, Chan | Func, Func
  | Interface, Interface | Map, Map | Pointer, Pointer | Slice, Slice
  | String, String | Struct, Struct | UnsafePointer, UnsafePointer => true
  | _, _ => false
  end.

End Reflect.

(** The package path and the name of a type ([Type.PkgPath] and
    [Type.Name]); both are empty for an unnamed composite type. *)
Record TypeName : Type := mkTypeName { pkgPath : string; tname : string }.

Definition unnamed : TypeName := {| pkgPath := ""; tname := "" |}.

(** A field of a struct type: its name, the value of its [urlvalue]
    tag ([Tag.Get("urlvalue")]), whether it is exported (so that
    [CanSet] holds for it in an addressable struct), and its type. *)
Record StructFieldOf (T : Type) : Type := mkStructField {
  sfName : string;
  sfTag : string;
  sfExported : bool;
  sfType : T
}.
Arguments mkStructField {T} _ _ _ _.
Arguments sfName {T} _.
Arguments sfTag {T} _.
Arguments sfExported {T} _.
Arguments sfType {T} _.

(** The types of the fields of a destination.  [TBasic n k] is a type
    of a [k] that has no element type here (booleans, numbers, strings,
    and the kinds that [processField] ignores); [TTime] is [time.Time],
    a struct type of package [time] whose fields are not exported. *)
Inductive type : Type :=
| TBasic (n : TypeName) (k : Reflect.Kind)
| TSlice (n : TypeName) (elem : type)
| TMap (n : TypeName) (key elem : type)
| TPtr (n : TypeName) (elem : type)
| TStruct (n : TypeName) (fields : list (StructFieldOf type))
| TTime.

Abbreviation StructField := (StructFieldOf type).

Definition TypeKind (t : type) : Reflect.Kind :=
  match t with
  | TBasic _ k => k
  | TSlice _ _ => Reflect.Slice
  | TMap _ _ _ => Reflect.Map
  | TPtr _ _ => Reflect.Pointer
  | TStruct _ _ => Reflect.Struct
  | TTime => Reflect.Struct
  end.

Definition PkgPath (t : type) : string :=
  match t with
  | TBasic n _ | TSlice n _ | TMap n _ _ | TPtr n _ | TStruct n _ => pkgPath n
  | TTime => "time"
  end.

Definition Name (t : type) : string :=
  match t with
  | TBasic n _ | TSlice n _ | TMap n _ _ | TPtr n _ | TStruct n _ => tname n
  | TTime => "Time"
  end.

(** [Type.Bits] for the sized kinds. *)
Definition Bits (k : Reflect.Kind) : Z :=
  match k with
  | Reflect.Int | Reflect.Uint | Reflect.Uintptr => Strconv.IntSize
  | Reflect.Int8 | Reflect.Uint8 => 8
  | Reflect.Int16 | Reflect.Uint16 => 16
  | Reflect.Int32 | Reflect.Uint32 | Reflect.Float32 => 32
  | Reflect.Int64 | Reflect.Uint64 | Reflect.Float64 | Reflect.Complex64 => 64
  | Reflect.Complex128 => 128
  | _ => 0
  end.

Definition tString : type := TBasic {| pkgPath := ""; tname := "string" |} Reflect.String.
Definition tInt : type := TBasic {| pkgPath := ""; tname := "int" |} Reflect.Int.
Definition tBool : type := TBasic {| pkgPath := ""; tname := "bool" |} Reflect.Bool.
Definition tDuration : type := TBasic {| pkgPath := "time"; tname := "Duration" |} Reflect.Int64.

(** The types of the host: instants ([time.Time]) and floating point
    numbers. *)
Class HostTypes : Type := {
  Time : Type;
  Float : Type
}.

Section Values.
Context `{HostTypes}.

(** The value stored in a variable.  A slice, a map and a pointer
    are [None] when nil; the entries of a map are kept in the order
    of the [SetMapIndex] calls that made them, the last entry of a
    key being the one of the Go map; [VOther] is a value of a kind
    that the package does not decode, with its [IsZero]. *)
Inductive Value : Type :=
| VBool (b : bool)
| VInt (n : Z)
| VUint (n : Z)
| VFloat (f : Float)
| VString (s : string)
| VTime (t : Time)
| VSlice (elems : option (list Value))
| VMap (entries : option (list (Value * Value)))
| VPtr (pointee : option Value)
| VStruct (fields : list Value)
| VOther (zero : bool).

(** A value of interface type [any]: nil, or a type and a value. *)
Inductive any : Type :=
| Nil
| Iface (t : type) (v : Value).

End Values.

(** The standard library functions that the package calls and that are
    not modelled above, the clock, and the decoders of the types of the
    destination. *)
Class Host `{HostTypes} : Type := {
  (** the zero [time.Time], and [IsZero] of [reflect] on a [time.Time] *)
  Time_zero : Time;
  Time_IsZero : Time -> bool;
  (** the zero float, and [IsZero] of [reflect] on a float *)
  Float_zero : Float;
  Float_IsZero : Float -> bool;
  (** what the [n]-th call of [time.Now] returns *)
  Now : nat -> Time;
  (** [Time.AddDate(years, months, days)] *)
  AddDate : Time -> Z -> Z -> Z -> Time;
  (** [time.Parse(layout, value)] *)
  time_Parse : string -> string -> Time + error;
  (** [time.ParseDuration(s)], as an [int64] *)
  time_ParseDuration : string -> Z + error;
  (** [strconv.ParseFloat(s, bitSize)] *)
  strconv_ParseFloat : string -> Z -> Float + error;
  (** [UnmarshalText] when the type of a field, or the pointer to it,
      implements [encoding.TextUnmarshaler]: from the text and the
      content of the field to its new content and the error returned *)
  textUnmarshaler : type -> option (string -> Value -> Value * option error);
  (** the same for [encoding.BinaryUnmarshaler] *)
  binaryUnmarshaler : type -> option (string -> Value -> Value * option error);
  (** [Type.String] *)
  Type_String : type -> string
}.

(** ** The "now" based time parser ([options.go]) *)

(** Layout constants of package [time]. *)
Module TimeLayout.
Definition Layout : string := "01/02 03:04:05PM '06 -0700".
Definition ANSIC : string := "Mon Jan _2 15:04:05 2006".
Definition UnixDate : string := "Mon Jan _2 15:04:05 MST 2006".
Definition RubyDate : string := "Mon Jan 02 15:04:05 -0700 2006".
Definition RFC822 : string := "02 Jan 06 15:04 MST".
Definition RFC822Z : string := "02 Jan 06 15:04 -0700".
Definition RFC850 : string := "Monday, 02-Jan-06 15:04:05 MST".
Definition RFC1123 : string := "Mon, 02 Jan 2006 15:04:05 MST".
Definition RFC1123Z : string := "Mon, 02 Jan 2006 15:04:05 -0700".
Definition RFC3339 : string := "2006-01-02T15:04:05Z07:00".
Definition RFC3339Nano : string := "2006-01-02T15:04:05.999999999Z07:00".
Definition Kitchen : string := "3:04PM".
End TimeLayout.

(** An [int] of the platform: the wrap-around of a result. *)
Definition wrapInt (z : Z) : Z :=
  (z + 2 ^ (Strconv.IntSize - 1)) mod 2 ^ Strconv.IntSize - 2 ^ (Strconv.IntSize - 1).

(** The variables [years], [months] and [days] of [parseTime]. *)
Record ymd : Type := mkYmd { years : Z; months : Z; days : Z }.

(** The body of the loop of [parseTime] over the parts. *)
Definition parsePart (acc : ymd) (part : string) : ymd + error :=
  let n := String.length part in
  if (n <? 3)%nat then inr ErrNowFormat
  else
    match String.get 0 part, String.get (n - 1) part with
    | Some c0, Some cl =>
        let sign := if Ascii.eqb c0 "+" then Some 1
                    else if Ascii.eqb c0 "-" then Some (-1)
                    else None in
        match sign with
        | None => inr (ErrInvalidSign c0)
        | Some sign =>
            let digits := String.substring 1 (n - 2) part in
            match Strconv.Atoi digits with
            | (_, Some _) => inr (ErrNotInteger digits)
            | (v, None) =>
                if Ascii.eqb cl "y"
                then inl {| years := wrapInt (sign * v); months := months acc; days := days acc |}
                else if Ascii.eqb cl "m"
                then inl {| years := years acc; months := wrapInt (sign * v); days := days acc |}
                else if Ascii.eqb cl "d"
                then inl {| years := years acc; months := months acc; days := wrapInt (sign * v) |}
                else inr (ErrInvalidIdentifier cl)
            end
        end
    | _, _ => inr ErrNowFormat
    end.

Fixpoint parseParts (acc : ymd) (parts : list string) : ymd + error :=
  match parts with
  | [] => inl acc
  | part :: rest =>
      match parsePart acc part with
      | inl acc' => parseParts acc' rest
      | inr e => inr e
      end
  end.

(** The named layouts of [parseTime]. *)
Definition resolveLayout (layout : string) : string :=
  if (String.eqb layout "" || String.eqb layout "Layout")%bool then TimeLayout.Layout
  else if String.eqb layout "ANSIC" then TimeLayout.ANSIC
  else if String.eqb layout "UnixDate" then TimeLayout.UnixDate
  else if String.eqb layout "RubyDate" then TimeLayout.RubyDate
  else if String.eqb layout "RFC822" then TimeLayout.RFC822
  else if String.eqb layout "RFC822Z" then TimeLayout.RFC822Z
  else if String.eqb layout "RFC850" then TimeLayout.RFC850
  else if String.eqb layout "RFC1123" then TimeLayout.RFC1123
  else if String.eqb layout "RFC1123Z" then TimeLayout.RFC1123Z
  else if String.eqb layout "RFC3339" then TimeLayout.RFC3339
  else if String.eqb layout "RFC3339Nano" then TimeLayout.RFC3339Nano
  else if String.eqb layout "Kitchen" then TimeLayout.Kitchen
  else layout.

Section ParseTime.
Context `{Host}.

(** [parseTime(layout, value)] when [time.Now()] returns [now]. *)
Definition parseTime (now : Time) (layout value : string) : Time + error :=
  if String.eqb value "now" then inl now
  else if Strings.HasPrefix value "now" then
    let value := Strings.TrimSpace (Strings.drop 3 value) in
    let value := Strings.TrimSpace (Strings.ReplaceSigns value) in
    let parts := Strings.Split value " " in
    match parseParts {| years := 0; months := 0; days := 0 |} parts with
    | inr e => inr e
    | inl r => inl (AddDate now (years r) (months r) (days r))
    end
  else time_Parse (resolveLayout layout) value.

End ParseTime.

(** ** The type coercion engine, the field flattener and [Unmarshal]
    ([urlvalues.go]) *)

Definition isIntKind (k : Reflect.Kind) : bool :=
  match k with Reflect.Int | Reflect.Int8 | Reflect.Int16 | Reflect.Int32 | Reflect.Int64 => true | _ => false end.

Definition isUintKind (k : Reflect.Kind) : bool :=
  match k with Reflect.Uint | Reflect.Uint8 | Reflect.Uint16 | Reflect.Uint32 | Reflect.Uint64 => true | _ => false end.

Definition isFloatKind (k : Reflect.Kind) : bool :=
  match k with Reflect.Float32 | Reflect.Float64 => true | _ => false end.

(** A step from a variable to a part of it: to the [i]-th field of a
    struct, or to what a pointer points to. *)
Inductive step : Type :=
| SField (i : nat)
| SDeref.

(** [field]: a field of the target struct.  The [reflect.Value] of the
    source is a handle on a variable: its place in the target ([fpath])
    and its type ([ftype]). *)
Record field : Type := mkField {
  name : string;
  fpath : list step;
  ftype : type;
  options : fieldOptions
}.

(** [url.Values]. *)
Abbreviation Values := (gmap string (list string)).

Section Engine.
Context `{Host}.

(** The zero value of a type ([reflect.New(typ).Elem()]). *)
Fixpoint Zero (t : type) : Value :=
  match t with
  | TBasic _ k =>
      if Reflect.Kind_eqb k Reflect.Bool then VBool false
      else if isIntKind k then VInt 0
      else if (isUintKind k || Reflect.Kind_eqb k Reflect.Uintptr)%bool then VUint 0
      else if isFloatKind k then VFloat Float_zero
      else if Reflect.Kind_eqb k Reflect.String then VString ""
      else VOther true
  | TSlice _ _ => VSlice None
  | TMap _ _ _ => VMap None
  | TPtr _ _ => VPtr None
  | TStruct _ fs => VStruct (List.map (fun sf => Zero (sfType sf)) fs)
  | TTime => VTime Time_zero
  end.

(** [Value.IsZero]. *)
Fixpoint IsZero (v : Value) : bool :=
  match v with
  | VBool b => negb b
  | VInt n => n =? 0
  | VUint n => n =? 0
  | VFloat f => Float_IsZero f
  | VString s => String.eqb s ""
  | VTime t => Time_IsZero t
  | VSlice elems => match elems with None => true | Some _ => false end
  | VMap entries => match entries with None => true | Some _ => false end
  | VPtr pointee => match pointee with None => true | Some _ => false end
  | VStruct fs => forallb IsZero fs
  | VOther z => z
  end.

(** What a call of [processField] leaves: the content of the field,
    the error returned, and the number of calls of [time.Now] so far. *)
Record outcome : Type := mkOutcome {
  o_field : Value;
  o_err : option error;
  o_tick : nat
}.

(** The cases of [processField] for the kinds without element type. *)
Definition processBasic (typ : type) (k : Reflect.Kind) (value : string) (field : Value)
    : Value * option error :=
  if Reflect.Kind_eqb k Reflect.String then (VString value, None)
  else if isIntKind k then
    let r :=
      if (Reflect.Kind_eqb k Reflect.Int64 && String.eqb (PkgPath typ) "time"
          && String.eqb (Name typ) "Duration")%bool
      then match time_ParseDuration value with
           | inl d => (d, None)
           | inr e => (0, Some e)
           end
      else match Strconv.ParseInt value 0 (Bits k) with
           | (v, Some e) => (v, Some (ErrNum e))
           | (v, None) => (v, None)
           end in
    match r with
    | (_, Some e) => (field, Some e)
    | (val, None) => (VInt val, None)
    end
  else if isUintKind k then
    match Strconv.ParseUint value 0 (Bits k) with
    | (_, Some e) => (field, Some (ErrNum e))
    | (val, None) => (VUint val, None)
    end
  else if Reflect.Kind_eqb k Reflect.Bool then
    match Strconv.ParseBool value with
    | inr e => (field, Some (ErrNum e))
    | inl val => (VBool val, None)
    end
  else if isFloatKind k then
    match strconv_ParseFloat value (Bits k) with
    | inr e => (field, Some e)
    | inl val => (VFloat val, None)
    end
  else (field, None).

(** The loop of the [reflect.Slice] case: [elem val tick] decodes
    [val] into a new element. *)
Fixpoint sliceLoop (elem : string -> nat -> outcome) (vals : list string)
    (tick : nat) : list Value * option error * nat :=
  match vals with
  | [] => ([], None, tick)
  | val :: rest =>
      let o := elem val tick in
      match o_err o with
      | Some e => ([], Some e, o_tick o)
      | None =>
          match sliceLoop elem rest (o_tick o) with
          | (sl, err, tick') => (o_field o :: sl, err, tick')
          end
      end
  end.

(** The loop of the [reflect.Map] case: [mp] is the map made so far. *)
Fixpoint mapLoop (keyOf elemOf : string -> nat -> outcome) (pairs : list string)
    (mp : list (Value * Value)) (tick : nat)
    : list (Value * Value) * option error * nat :=
  match pairs with
  | [] => (mp, None, tick)
  | pair_ :: rest =>
      match Strings.Split pair_ ":" with
      | [k0; v0] =>
          let k := keyOf k0 tick in
          match o_err k with
          | Some e => (mp, Some e, o_tick k)
          | None =>
              let v := elemOf v0 (o_tick k) in
              match o_err v with
              | Some e => (mp, Some e, o_tick v)
              | None => mapLoop keyOf elemOf rest (mp ++ [(o_field k, o_field v)])%list (o_tick v)
              end
          end
      | _ => (mp, Some (ErrInvalidMapItem pair_), tick)
      end
  end.

(** [processField]: [field] is the content of the variable that the
    [reflect.Value] of the source designates, [typ] its type, and
    [tick] the number of calls of [time.Now] so far. *)
Fixpoint processField (settingDefault : bool) (value : string) (typ : type)
    (field : Value) (fOpts : fieldOptions) (pOpts : ParseOptions) (tick : nat)
    {struct typ} : outcome :=
  if (String.eqb (PkgPath typ) "time" && String.eqb (Name typ) "Time")%bool then
    match parseTime (Now tick) (layout fOpts) value with
    | inr e => mkOutcome field (Some e) (S tick)
    | inl tim => mkOutcome (VTime tim) None (S tick)
    end
  else
  match textUnmarshaler typ with
  | Some t => let (f, e) := t value field in mkOutcome f e tick
  | None =>
  match binaryUnmarshaler typ with
  | Some b => let (f, e) := b value field in mkOutcome f e tick
  | None =>
    (* Dereference pointer. *)
    let typ' := match typ with TPtr _ e => e | _ => typ end in
    let field' :=
      match typ with
      | TPtr _ e => match field with VPtr (Some p) => p | _ => Zero e end
      | _ => field
      end in
    let set (v : Value) : Value :=
      match typ with TPtr _ _ => VPtr (Some v) | _ => v end in
    if (settingDefault && negb (IsZero field'))%bool
    then mkOutcome (set field') None tick
    else
      match typ' with
      | TBasic _ k =>
          let (f, e) := processBasic typ' k value field' in
          mkOutcome (set f) e tick
      | TSlice _ et =>
          let vals := Strings.Split value (Delim pOpts) in
          match sliceLoop (fun val t => processField false val et (Zero et) fOpts pOpts t)
                  vals tick with
          | (_, Some e, tick') => mkOutcome (set field') (Some e) tick'
          | (sl, None, tick') => mkOutcome (set (VSlice (Some sl))) None tick'
          end
      | TMap _ kt et =>
          if negb (Nat.eqb (String.length (Strings.TrimSpace value)) 0) then
            let pairs := Strings.Split value (Delim pOpts) in
            match mapLoop (fun s t => processField false s kt (Zero kt) fOpts pOpts t)
                    (fun s t => processField false s et (Zero et) fOpts pOpts t)
                    pairs [] tick with
            | (_, Some e, tick') => mkOutcome (set field') (Some e) tick'
            | (mp, None, tick') => mkOutcome (set (VMap (Some mp))) None tick'
            end
          else mkOutcome (set (VMap (Some []))) None tick
      | _ => mkOutcome (set field') None tick
      end
  end
  end.

(** The loop of [extractFields] over the fields of a struct whose place
    in the target is [path]: [fs] are the fields from the [i]-th on and
    [fvals] their contents.  [drill] is what the source does with one
    field once its tag is parsed.  The result is the new contents of the
    fields (a nil pointer to a struct is set) and the fields found. *)
Fixpoint fieldsLoop
    (drill : type -> Value -> list step -> string -> fieldOptions ->
             Value * (list field + error))
    (path : list step) (i : nat) (fs : list StructField) (fvals : list Value)
    : list Value * (list field + error) :=
  match fs, fvals with
  | strctField :: fs', f :: fvals' =>
      let fieldTags := sfTag strctField in
      if (negb (sfExported strctField) || String.eqb fieldTags "-")%bool then
        match fieldsLoop drill path (S i) fs' fvals' with
        | (vs, r) => (f :: vs, r)
        end
      else
        let fieldName := sfName strctField in
        match parseTag fieldTags with
        | (_, Some e) => (f :: fvals', inr (ErrParsingTags fieldName e))
        | (fieldOpts, None) =>
            match drill (sfType strctField) f (path ++ [SField i])%list fieldName fieldOpts with
            | (f', inr e) => (f' :: fvals', inr e)
            | (f', inl found) =>
                match fieldsLoop drill path (S i) fs' fvals' with
                | (vs, inl more) => (f' :: vs, inl (found ++ more)%list)
                | (vs, inr e) => (f' :: vs, inr e)
                end
            end
        end
  | _, _ => (fvals, inl [])
  end.

(** The end of the body of the loop of [extractFields] for one field:
    the loop that drills down through pointers, then the [switch].  A
    pointer that is not nil is followed; a nil pointer to a struct is
    set to a new struct and followed; a nil pointer to anything else
    ends the loop.  A struct without decoder is flattened by the
    recursive call of [extractFields] on its address, which is the loop
    over its fields (the checks of the call hold for such an address);
    [time.Time] has an [UnmarshalText] method and is a field. *)
Fixpoint drillField (t : type) (f : Value) (path : list step) (fieldName : string)
    (fieldOpts : fieldOptions) {struct t} : Value * (list field + error) :=
  let leaf := (f, inl [mkField fieldName path t fieldOpts]) in
  match t with
  | TPtr _ e =>
      match f with
      | VPtr (Some p) =>
          match drillField e p (path ++ [SDeref])%list fieldName fieldOpts with
          | (p', r) => (VPtr (Some p'), r)
          end
      | _ =>
          if negb (Reflect.Kind_eqb (TypeKind e) Reflect.Struct) then leaf
          else
            match drillField e (Zero e) (path ++ [SDeref])%list fieldName fieldOpts with
            | (p', r) => (VPtr (Some p'), r)
            end
      end
  | TStruct _ fs =>
      match textUnmarshaler t, binaryUnmarshaler t, f with
      | None, None, VStruct fvals =>
          match fieldsLoop drillField path 0 fs fvals with
          | (fvals', inl innerFields) => (VStruct fvals', inl innerFields)
          | (fvals', inr e) => (VStruct fvals', inr (ErrWrapped e))
          end
      | _, _, _ => leaf
      end
  | _ => leaf
  end.

(** [extractFields]: the target with its nil pointers to structs set,
    and the fields or the error.  The fields of [time.Time] are not
    exported, none of them can be set. *)
Definition extractFields (target : any) : any * (list field + error) :=
  match target with
  | Nil => (target, inr ErrInvalidStruct)
  | Iface t v =>
      if negb (Reflect.Kind_eqb (TypeKind t) Reflect.Pointer) then (target, inr ErrInvalidStruct)
      else
        match t, v with
        | TPtr _ e, VPtr (Some strct) =>
            if negb (Reflect.Kind_eqb (TypeKind e) Reflect.Struct) then (target, inr ErrInvalidStruct)
            else
              match e, strct with
              | TStruct _ fs, VStruct fvals =>
                  match fieldsLoop drillField [] 0 fs fvals with
                  | (fvals', r) => (Iface t (VPtr (Some (VStruct fvals'))), r)
                  end
              | _, _ => (target, inl [])
              end
        | _, _ => (target, inr ErrInvalidStruct)
        end
  end.

(** The variable at the end of a path. *)
Fixpoint getAt (path : list step) (v : Value) : option Value :=
  match path with
  | [] => Some v
  | SField i :: rest =>
      match v with
      | VStruct fs => match fs !! i with Some f => getAt rest f | None => None end
      | _ => None
      end
  | SDeref :: rest =>
      match v with
      | VPtr (Some p) => getAt rest p
      | _ => None
      end
  end.

(** The assignment to the variable at the end of a path. *)
Fixpoint setAt (path : list step) (new : Value) (v : Value) : Value :=
  match path with
  | [] => new
  | SField i :: rest =>
      match v with
      | VStruct fs =>
          match fs !! i with
          | Some f => VStruct (<[i := setAt rest new f]> fs)
          | None => v
          end
      | _ => v
      end
  | SDeref :: rest =>
      match v with
      | VPtr (Some p) => VPtr (Some (setAt rest new p))
      | _ => v
      end
  end.

(** [processField] on the variable that a field designates in the
    struct [strct]. *)
Definition processFieldAt (settingDefault : bool) (value : string) (fld : field)
    (pOpts : ParseOptions) (strct : Value) (tick : nat) : Value * option error * nat :=
  match getAt (fpath fld) strct with
  | Some cur =>
      let o := processField settingDefault value (ftype fld) cur (options fld) pOpts tick in
      (setAt (fpath fld) (o_field o) strct, o_err o, o_tick o)
  | None => (strct, None, tick)
  end.

(** The value that [Unmarshal] decodes for a key with the values
    [values] ([len(values) > 0]). *)
Definition joinValues (values : list string) (pOpts : ParseOptions) : string :=
  if (1 <? length values)%nat then Strings.Join values (Delim pOpts)
  else List.nth 0 values "".

(** The key of a field into the data. *)
Definition keyOf (fld : field) : string :=
  if String.eqb (key (options fld)) "" then name fld else key (options fld).

(** The first half of the body of the loop of [Unmarshal]: set any
    default value into the struct for this field.  [strct] is the
    struct that the target points to. *)
Definition applyDefault (pOpts : ParseOptions) (fld : field)
    (strct : Value) (tick : nat) : Value * option error * nat :=
  if negb (String.eqb (defaultValue (options fld)) "")
  then
    match processFieldAt true (defaultValue (options fld)) fld pOpts strct tick with
    | (s, Some err, t) =>
        (s, Some (ErrField (mkFieldError (name fld) (Type_String (ftype fld))
                              (defaultValue (options fld)) err)), t)
    | (s, None, t) => (s, None, t)
    end
  else (strct, None, tick).

(** The second half: the values of the key of the field in [data],
    if any, are decoded into the field. *)
Definition applyInput (data : Values) (pOpts : ParseOptions) (fld : field)
    (strct : Value) (tick : nat) : Value * option error * nat :=
  let key := keyOf fld in
  match data !! key with
  | None => (strct, None, tick)
  | Some values =>
      if Nat.eqb (length values) 0 then (strct, None, tick)
      else
        let value := joinValues values pOpts in
        match processFieldAt false value fld pOpts strct tick with
        | (s, Some err, t) =>
            (s, Some (ErrParse (mkParseError (name fld) key
                        (mkFieldError (name fld) (Type_String (ftype fld)) value err))), t)
        | (s, None, t) => (s, None, t)
        end
  end.

(** The body of the loop of [Unmarshal] for one field. *)
Definition unmarshalField (data : Values) (pOpts : ParseOptions) (fld : field)
    (strct : Value) (tick : nat) : Value * option error * nat :=
  match applyDefault pOpts fld strct tick with
  | (strct1, Some e, tick1) => (strct1, Some e, tick1)
  | (strct1, None, tick1) => applyInput data pOpts fld strct1 tick1
  end.

Fixpoint unmarshalLoop (data : Values) (pOpts : ParseOptions) (fields : list field)
    (strct : Value) (tick : nat) : Value * option error * nat :=
  match fields with
  | [] => (strct, None, tick)
  | fld :: rest =>
      match unmarshalField data pOpts fld strct tick with
      | (strct', Some e, tick') => (strct', Some e, tick')
      | (strct', None, tick') => unmarshalLoop data pOpts rest strct' tick'
      end
  end.

(** What a target points to, and the target once it points to [s]. *)
Definition pointee (target : any) : Value :=
  match target with
  | Iface _ (VPtr (Some s)) => s
  | _ => VStruct []
  end.

Definition withPointee (target : any) (s : Value) : any :=
  match target with
  | Iface t (VPtr (Some _)) => Iface t (VPtr (Some s))
  | _ => target
  end.

(** [Unmarshal(data, v, setParseOpts...)]: the target after the call,
    the error returned, and the number of calls of [time.Now]. *)
Definition Unmarshal (data : Values) (v : any) (setParseOpts : list SetParseOptionFunc)
    (tick : nat) : any * option error * nat :=
  let pOpts := List.fold_left (fun o f => f o) setParseOpts {| delim := None |} in
  match extractFields v with
  | (v', inr err) => (v', Some err, tick)
  | (v', inl fields) =>
      if Nat.eqb (length fields) 0 then (v', Some ErrNoFields, tick)
      else
        match unmarshalLoop data pOpts fields (pointee v') tick with
        | (s, err, tick') => (withPointee v' s, err, tick')
        end
  end.

End Engine.

(** ** A host for the examples

    A small host on which the definitions above can be run: instants
    are days of the proleptic Gregorian calendar with the nanoseconds of
    the day, floats are integers.  Its parsers accept a part of what
    Go's accept (one time layout, durations and floats written as
    integers); the examples below stay within that part. *)

Module ExampleHost.

Record instant : Type := mkInstant { day : Z; nanos : Z }.

(** The day number of a date of the civil calendar (day 0 is
    1970-01-01), for any month and day, which are normalised as
    [time.Date] does. *)
Definition daysFromCivil (y m d : Z) : Z :=
  let y := y + (m - 1) / 12 in
  let m := (m - 1) mod 12 + 1 in
  let y' := if m <=? 2 then y - 1 else y in
  let era := y' / 400 in
  let yoe := y' - era * 400 in
  let doy := (153 * (if 2 <? m then m - 3 else m + 9) + 2) / 5 in
  let doe := yoe * 365 + yoe / 4 - yoe / 100 + doy in
  era * 146097 + doe - 719468 + (d - 1).

(** The date (year, month, day) of a day number. *)
Definition civilFromDays (z : Z) : Z * Z * Z :=
  let z := z + 719468 in
  let era := z / 146097 in
  let doe := z - era * 146097 in
  let yoe := (doe - doe / 1460 + doe / 36524 - doe / 146096) / 365 in
  let doy := doe - (365 * yoe + yoe / 4 - yoe / 100) in
  let mp := (5 * doy + 2) / 153 in
  let d := doy - (153 * mp + 2) / 5 + 1 in
  let m := if mp <? 10 then mp + 3 else mp - 9 in
  ((yoe + era * 400 + (if m <=? 2 then 1 else 0)), m, d).

Definition addDate (t : instant) (years months days : Z) : instant :=
  match civilFromDays (day t) with
  | (y, m, d) => {| day := daysFromCivil (y + years) (m + months) (d + days);
                    nanos := nanos t |}
  end.

#[export] Instance types : HostTypes := {| Time := instant; Float := Z |}.

(** Decimal digits only. *)
Definition decimal (s : string) : option Z :=
  match s with
  | EmptyString => None
  | _ =>
      if forallb Strconv.isDigit (list_ascii_of_string s)
      then match Strconv.ParseUint s 10 64 with
           | (n, None) => Some n
           | _ => None
           end
      else None
  end.

(** The layout [2006-01-02] only. *)
Definition parse (layout value : string) : instant + error :=
  if String.eqb layout "2006-01-02" then
    match Strings.Split value "-" with
    | [y; m; d] =>
        match decimal y, decimal m, decimal d with
        | Some y, Some m, Some d =>
            if ((String.length value =? 10)%nat && (1 <=? m) && (m <=? 12)
                && (1 <=? d) && (d <=? 28))%bool
            then inl {| day := daysFromCivil y m d; nanos := 0 |}
            else inr (ErrHost "parsing time: out of range")
        | _, _, _ => inr (ErrHost "parsing time: cannot parse")
        end
    | _ => inr (ErrHost "parsing time: cannot parse")
    end
  else inr (ErrHost "parsing time: layout not supported by this host").

(** A number of seconds, minutes or hours. *)
Definition parseDuration (s : string) : Z + error :=
  let n := String.length s in
  match decimal (String.substring 0 (n - 1) s), String.get (n - 1) s with
  | Some v, Some u =>
      if Ascii.eqb u "s" then inl (v * 1000000000)
      else if Ascii.eqb u "m" then inl (v * 60000000000)
      else if Ascii.eqb u "h" then inl (v * 3600000000000)
      else inr (ErrHost "time: unknown unit in duration")
  | _, _ => inr (ErrHost "time: invalid duration")
  end.

Definition parseFloat (s : string) (bitSize : Z) : Z + error :=
  match decimal s with
  | Some v => inl v
  | None => inr (ErrNum (Strconv.mkNumError "ParseFloat" s Strconv.ErrSyntax))
  end.

(** [TestTextUnmarshaler] of the tests of the package: a string type
    whose [UnmarshalText] stores the text after [text_]. *)
Definition tTestTextUnmarshaler : type :=
  TBasic {| pkgPath := "github.com/nahojer/urlvalues_test";
            tname := "TestTextUnmarshaler" |} Reflect.String.

Definition textDecoder (t : type) : option (string -> Value -> Value * option error) :=
  if (String.eqb (Name t) "TestTextUnmarshaler" && Reflect.Kind_eqb (TypeKind t) Reflect.String)%bool
  then Some (fun text _ => (VString ("text_" ++ text), None))
  else None.

Fixpoint typeString (t : type) : string :=
  match t with
  | TBasic n _ => tname n
  | TSlice n e => if String.eqb (tname n) "" then "[]" ++ typeString e else tname n
  | TMap n k e =>
      if String.eqb (tname n) "" then "map[" ++ typeString k ++ "]" ++ typeString e
      else tname n
  | TPtr n e => if String.eqb (tname n) "" then "*" ++ typeString e else tname n
  | TStruct n _ => if String.eqb (tname n) "" then "struct {...}" else tname n
  | TTime => "time.Time"
  end.

(** The clock: the [n]-th call of [time.Now] is [n] nanoseconds after
    noon of 2023-01-31. *)
Definition now (n : nat) : instant :=
  {| day := daysFromCivil 2023 1 31; nanos := 43200000000000 + Z.of_nat n |}.

Definition isZeroInstant (t : instant) : bool :=
  ((day t =? daysFromCivil 1 1 1) && (nanos t =? 0))%bool.

#[export] Instance host : Host := {|
  Time_zero := {| day := daysFromCivil 1 1 1; nanos := 0 |};
  Time_IsZero := isZeroInstant;
  Float_zero := 0;
  Float_IsZero := fun f => f =? 0;
  Now := now;
  AddDate := addDate;
  time_Parse := parse;
  time_ParseDuration := parseDuration;
  strconv_ParseFloat := parseFloat;
  textUnmarshaler := textDecoder;
  binaryUnmarshaler := fun _ => None;
  Type_String := typeString
|}.

End ExampleHost.


Local Open Scope list_scope.

(** ** Vocabulary of the properties *)

(** The target is a pointer that is not nil to a struct. *)
Definition isStructPointer `{HostTypes} (v : any) : bool :=
  match v with
  | Iface (TPtr _ e) (VPtr (Some _)) => Reflect.Kind_eqb (TypeKind e) Reflect.Struct
  | _ => false
  end.

(** The parse options that [Unmarshal] builds. *)
Definition optionsOf (setParseOpts : list SetParseOptionFunc) : ParseOptions :=
  List.fold_left (fun o f => f o) setParseOpts {| delim := None |}.

(** The byte [c] occurs in [s], and the number of its occurrences. *)
Fixpoint hasByte (c : ascii) (s : string) : bool :=
  match s with
  | EmptyString => false
  | String a s' => (Ascii.eqb a c || hasByte c s')%bool
  end.

Fixpoint countByte (c : ascii) (s : string) : nat :=
  match s with
  | EmptyString => O
  | String a s' => ((if Ascii.eqb a c then 1 else 0) + countByte c s')%nat
  end.


(** A segment of a tag as the documentation of [Unmarshal] describes
    it: a name, or a name and the value after the first colon. *)
Definition segmentOf (tagPart : string) : string * option string :=
  match Strings.SplitN tagPart ":" 2 with
  | [n; v] => (n, Some v)
  | l => (List.nth 0 l "", None)
  end.

Definition trimSegment (seg : string * option string) : string * option string :=
  (Strings.TrimSpace (fst seg), option_map Strings.TrimSpace (snd seg)).

(** The meaning of the segments of a tag once they are trimmed,
    following the specification of the tag parser: the first segment
    is the key when it has no colon; a segment [name:value] sets the
    option [default] or [layout] and is ignored for another name; an
    empty value is an error.  Nothing is trimmed here. *)
Fixpoint tagMeaning (fOpts : fieldOptions) (i : nat)
    (segs : list (string * option string)) : fieldOptions * option error :=
  match segs with
  | [] => (fOpts, None)
  | (n, None) :: rest =>
      tagMeaning (if Nat.eqb i 0
                  then {| key := n; defaultValue := defaultValue fOpts;
                          layout := layout fOpts |}
                  else fOpts) (S i) rest
  | (n, Some v) :: rest =>
      if String.eqb v "" then (fOpts, Some (ErrTagMissingValue n))
      else if String.eqb n "default"
      then tagMeaning {| key := key fOpts; defaultValue := v; layout := layout fOpts |}
             (S i) rest
      else if String.eqb n "layout"
      then tagMeaning {| key := key fOpts; defaultValue := defaultValue fOpts; layout := v |}
             (S i) rest
      else tagMeaning fOpts (S i) rest
  end.


(** [processField] reaches the cases of the builtin types for [typ]:
    [typ] is not [time.Time] and has no decoder. *)
Definition builtin `{Host} (typ : type) : bool :=
  (negb (String.eqb (PkgPath typ) "time" && String.eqb (Name typ) "Time")
   && match textUnmarshaler typ, binaryUnmarshaler typ with
      | None, None => true
      | _, _ => false
      end)%bool.

(** The variable that [processField] tests with [IsZero]: the field,
    or what it points to when it is a pointer ([None] when the pointer
    is nil: a new variable is then made). *)
Definition dereferenced `{HostTypes} (typ : type) (field : Value) : option Value :=
  match typ with
  | TPtr _ _ => match field with VPtr pointee => pointee | _ => None end
  | _ => Some field
  end.


(** A token of a "now" based expression: a sign, digits and an
    identifier.  It is valid, by the grammar [[+-]<digits><y|m|d>], when
    there is at least one digit and the identifier is [y], [m] or [d]. *)
Record nowToken : Type := mkNowToken {
  tkNeg : bool;
  tkDigits : string;
  tkUnit : ascii
}.

Definition renderToken (t : nowToken) : string :=
  String (if tkNeg t then "-" else "+")%char (tkDigits t +:+ String (tkUnit t) "").

Fixpoint renderTokens (toks : list nowToken) : string :=
  match toks with
  | [] => ""
  | t :: rest => renderToken t +:+ renderTokens rest
  end.

Definition allDigits (s : string) : bool :=
  forallb Strconv.isDigit (list_ascii_of_string s).

Definition validToken (t : nowToken) : bool :=
  (negb (String.eqb (tkDigits t) "") && allDigits (tkDigits t)
   && (Ascii.eqb (tkUnit t) "y" || Ascii.eqb (tkUnit t) "m" || Ascii.eqb (tkUnit t) "d"))%bool.

(** The number that decimal digits write, after [acc]. *)
Fixpoint decimalValue (acc : Z) (s : string) : Z :=
  match s with
  | EmptyString => acc
  | String c s' => decimalValue (acc * 10 + (Strconv.byte c - 48)) s'
  end.

(** The signed value of a token, and the signed value of the last
    token of an identifier ([0] when there is none). *)
Definition tokenDelta (t : nowToken) : Z :=
  (if tkNeg t then -1 else 1) * decimalValue 0 (tkDigits t).

Definition lastDelta (u : ascii) (toks : list nowToken) : Z :=
  match List.find (fun t => Ascii.eqb (tkUnit t) u) (List.rev toks) with
  | Some t => tokenDelta t
  | None => 0
  end.

(** The numbers of the tokens fit in an [int]. *)
Definition fitsInt (t : nowToken) : bool :=
  decimalValue 0 (tkDigits t) <? 2 ^ (Strconv.IntSize - 1).


(** The byte [c] is the first byte of one of the runes. *)
Definition startsRune (runes : list string) (c : ascii) : bool :=
  existsb (fun r => match r with
                    | String a _ => Ascii.eqb a c
                    | EmptyString => true
                    end) runes.

(** The assignment that a token makes to [years], [months] or [days]. *)
Definition assignToken (acc : ymd) (t : nowToken) : ymd :=
  if Ascii.eqb (tkUnit t) "y"
  then {| years := tokenDelta t; months := months acc; days := days acc |}
  else if Ascii.eqb (tkUnit t) "m"
  then {| years := years acc; months := tokenDelta t; days := days acc |}
  else {| years := years acc; months := months acc; days := tokenDelta t |}.


(** A value of a type.  The values of the kinds that the package does
    not decode are [VOther]. *)
Definition basicTyped `{HostTypes} (k : Reflect.Kind) (v : Value) : bool :=
  match v with
  | VBool _ => Reflect.Kind_eqb k Reflect.Bool
  | VInt _ => isIntKind k
  | VUint _ => (isUintKind k || Reflect.Kind_eqb k Reflect.Uintptr)%bool
  | VFloat _ => isFloatKind k
  | VString _ => Reflect.Kind_eqb k Reflect.String
  | VOther _ =>
      negb (Reflect.Kind_eqb k Reflect.Bool || isIntKind k || isUintKind k
            || Reflect.Kind_eqb k Reflect.Uintptr || isFloatKind k
            || Reflect.Kind_eqb k Reflect.String)
  | _ => false
  end.

Fixpoint hasType `{HostTypes} (t : type) (v : Value) {struct t} : bool :=
  match t, v with
  | TBasic _ k, _ => basicTyped k v
  | TSlice _ e, VSlice None => true
  | TSlice _ e, VSlice (Some l) => forallb (hasType e) l
  | TMap _ k e, VMap None => true
  | TMap _ k e, VMap (Some l) =>
      forallb (fun kv => hasType k (fst kv) && hasType e (snd kv))%bool l
  | TPtr _ e, VPtr None => true
  | TPtr _ e, VPtr (Some p) => hasType e p
  | TStruct _ fs, VStruct vs =>
      (fix fieldsTyped (fs : list StructField) (vs : list Value) : bool :=
         match fs, vs with
         | [], [] => true
         | sf :: fs', f :: vs' => (hasType (sfType sf) f && fieldsTyped fs' vs')%bool
         | _, _ => false
         end) fs vs
  | TTime, VTime _ => true
  | _, _ => false
  end.

(** The values of the fields of a struct have the types of the fields. *)
Fixpoint fieldsTyped `{HostTypes} (fs : list StructField) (vs : list Value) : bool :=
  match fs, vs with
  | [], [] => true
  | sf :: fs', f :: vs' => (hasType (sfType sf) f && fieldsTyped fs' vs')%bool
  | _, _ => false
  end.

(** Two paths part at fields of different indices of one struct: the
    variables at their ends have no part in common. *)
Inductive diverge : list step -> list step -> Prop :=
| diverge_here i j p q : i <> j -> diverge (SField i :: p) (SField j :: q)
| diverge_next s p q : diverge p q -> diverge (s :: p) (s :: q).

(** The fields of a list are apart from one another. *)
Definition independent (found : list field) : Prop :=
  forall a b, In a found -> In b found -> a = b \/ diverge (fpath a) (fpath b).

(** Nothing is decoded into a field: it has no default value and the
    data have no value for its key. *)
Definition untouched (data : Values) (fld : field) : Prop :=
  defaultValue (options fld) = "" /\
  (data !! keyOf fld = None \/ data !! keyOf fld = Some []).


(** What the flattener leaves in a field that is a pointer: the
    pointer is nil and does not point to a struct. *)
Definition leafOK `{HostTypes} (t : type) (cur : Value) : Prop :=
  forall n e, t = TPtr n e -> cur = VPtr None /\ TypeKind e <> Reflect.Struct.

(** Each field found is a variable of [f], at the path after [path]. *)
Definition reaches `{HostTypes} (path : list step) (f : Value) (found : list field) : Prop :=
  forall fld, In fld found ->
    exists rel cur,
      fpath fld = path ++ rel /\ getAt rel f = Some cur /\ leafOK (ftype fld) cur.


(** The white space bytes of ASCII, and the strings made of them. *)
Definition isAsciiSpace (c : ascii) : bool :=
  existsb (Ascii.eqb c) (List.map ascii_of_N [9; 10; 11; 12; 13; 32]%N).

Definition blank (w : string) : bool :=
  forallb isAsciiSpace (list_ascii_of_string w).

(** No rune is empty, and no byte of a rune after the first is a white
    space byte of ASCII. *)
Definition tailsNotBlank (runes : list string) : bool :=
  forallb (fun r => match r with
                    | String _ t =>
                        forallb (fun b => negb (isAsciiSpace b)) (list_ascii_of_string t)
                    | EmptyString => false
                    end) runes.

(** A segment of a tag with white space around its name and around
    its value: the segment as it is written, and without the white
    space. *)
Record paddedSegment : Type := mkPaddedSegment {
  segName : string;
  segValue : option string;
  nameLeft : string;
  nameRight : string;
  valueLeft : string;
  valueRight : string
}.

Definition renderPadded (g : paddedSegment) : string :=
  match segValue g with
  | None => nameLeft g +:+ (segName g +:+ nameRight g)
  | Some v =>
      (nameLeft g +:+ (segName g +:+ nameRight g))
      +:+ String ":" (valueLeft g +:+ (v +:+ valueRight g))
  end.

Definition renderPlain (g : paddedSegment) : string :=
  match segValue g with
  | None => segName g
  | Some v => segName g +:+ String ":" v
  end.

(** The name has no comma and no colon, the value has no comma, and
    what is around them is white space. *)
Definition okSegment (g : paddedSegment) : bool :=
  (negb (hasByte "," (segName g)) && negb (hasByte ":" (segName g))
   && match segValue g with Some v => negb (hasByte "," v) | None => true end
   && blank (nameLeft g) && blank (nameRight g)
   && blank (valueLeft g) && blank (valueRight g))%bool.


(** ** Inputs of the examples *)

Module Examples.
Import ExampleHost.

Definition exported (n tag : string) (t : type) : StructField :=
  mkStructField n tag true t.

Definition target (fs : list StructField) (fvals : list Value) : any :=
  Iface (TPtr unnamed (TStruct unnamed fs)) (VPtr (Some (VStruct fvals))).

(** [struct { Value int `urlvalue:",default:notAnInt"` }], as in the
    tests of the package. *)
Definition badDefault : StructField := exported "Value" ",default:notAnInt" tInt.
Definition badDefaultField : field :=
  mkField "Value" [SField O] tInt {| key := ""; defaultValue := "notAnInt"; layout := "" |}.

(** [struct { Value int }] and the data [{"Value": {"notAnInt"}}]. *)
Definition plainInt : StructField := exported "Value" "" tInt.
Definition plainIntField : field := mkField "Value" [SField O] tInt noOptions.
Definition badInput : Values := {[ "Value" := ["notAnInt"] ]}.

Definition notAnInt (fn : string) : error :=
  ErrNum (Strconv.mkNumError fn "notAnInt" Strconv.ErrSyntax).

(** [struct { Slice []string `urlvalue:"items"` }] and two values for
    its key. *)
Definition tStrings : type := TSlice unnamed tString.
Definition itemsField : field :=
  mkField "Slice" [SField O] tStrings {| key := "items"; defaultValue := ""; layout := "" |}.
Definition twoItems : Values := {[ "items" := ["item1"; "item2"] ]}.


(** [struct { Ptr *string; Int int `urlvalue:"aInt,default:42"` }]. *)
Definition withPointer : list StructField :=
  [exported "Ptr" "" (TPtr unnamed tString); exported "Int" "aInt,default:42" tInt].
Definition ptrField : field := mkField "Ptr" [SField O] (TPtr unnamed tString) noOptions.
Definition intField : field :=
  mkField "Int" [SField 1%nat] tInt {| key := "aInt"; defaultValue := "42"; layout := "" |}.
Definition sixInt : Values := {[ "aInt" := ["6"] ]}.

(** An instant that is not the zero instant: 1970-01-01. *)
Definition epoch : instant := {| day := 0; nanos := 0 |}.

(** The tokens of [-1y+2m-10d], and a token whose number does not fit
    in an [int]. *)
Definition someTokens : list nowToken :=
  [mkNowToken true "1" "y"; mkNowToken false "2" "m"; mkNowToken true "10" "d"].
Definition hugeToken : nowToken := mkNowToken false "99999999999999999999" "y".

End Examples.

(** ** Vocabulary of further properties *)

(** The values of a key that [Unmarshal] decodes: none when the key is
    absent or has an empty list of values. *)
Definition valuesOf (data : Values) (k : string) : option (list string) :=
  match data !! k with
  | Some (v :: vs) => Some (v :: vs)
  | _ => None
  end.


(** The errors of the flattener for a tag that [parseTag] rejects: the
    error of [parseTag] with the name of the field, wrapped once for
    each struct that the field is nested in. *)
Inductive tagError : error -> Prop :=
| tagError_field fieldName tagProp :
    tagError (ErrParsingTags fieldName (ErrTagMissingValue tagProp))
| tagError_nested e : tagError e -> tagError (ErrWrapped e).


(** The variable that [processField] decodes into: its type, its
    content (the zero value of a new variable when the pointer is
    nil), and the field once this variable holds [v]. *)
Definition pointedType (typ : type) : type :=
  match typ with TPtr _ e => e | _ => typ end.

Definition pointedValue `{Host} (typ : type) (field : Value) : Value :=
  match typ with
  | TPtr _ e => match field with VPtr (Some p) => p | _ => Zero e end
  | _ => field
  end.

Definition asField `{HostTypes} (typ : type) (v : Value) : Value :=
  match typ with TPtr _ _ => VPtr (Some v) | _ => v end.

(** The kinds that the [switch] of [processField] has a case for, and
    the types that [processField] decodes into, after one pointer. *)
Definition supportedKind (k : Reflect.Kind) : bool :=
  (Reflect.Kind_eqb k Reflect.String || isIntKind k || isUintKind k
   || Reflect.Kind_eqb k Reflect.Bool || isFloatKind k)%bool.

Definition decodable (typ : type) : bool :=
  match pointedType typ with
  | TBasic _ k => supportedKind k
  | TSlice _ _ | TMap _ _ _ => true
  | _ => false
  end.



(** The key, the default value and the layout have no comma. *)
Definition commaFree (fOpts : fieldOptions) : bool :=
  (negb (hasByte "," (key fOpts)) && negb (hasByte "," (defaultValue fOpts))
   && negb (hasByte "," (layout fOpts)))%bool.


(** A field taken alone: its variable is the whole of what is
    decoded into. *)
Definition alone (fld : field) : field :=
  {| name := name fld; fpath := []; ftype := ftype fld; options := options fld |}.

(** The variables of the fields of a list are apart, each one from the
    ones after it. *)
Definition apart (found : list field) : Prop :=
  ForallOrdPairs (fun a b => diverge (fpath a) (fpath b)) found.




(** ** Inputs of the further examples *)

Module FurtherExamples.
Import ExampleHost Examples.

(** The data of [twoItems] with a key that no field has, and a key
    with an empty list of values. *)
Definition twoItemsAndMore : Values :=
  <[ "other" := ["x"] ]> (<[ "Slice" := [] ]> twoItems).

(** [struct { Slice []string `urlvalue:"items"` }]. *)
Definition slicesTarget : any :=
  target [exported "Slice" "items" tStrings] [VSlice None].


(** [struct { A int; B int; C int }] and data whose value for [B] is
    not an integer. *)
Definition threeInts : list StructField :=
  [exported "A" "" tInt; exported "B" "" tInt; exported "C" "" tInt].
Definition fieldA : field := mkField "A" [SField 0%nat] tInt noOptions.
Definition fieldB : field := mkField "B" [SField 1%nat] tInt noOptions.
Definition fieldC : field := mkField "C" [SField 2%nat] tInt noOptions.
Definition badB : Values :=
  {[ "A" := ["1"]; "B" := ["x"]; "C" := ["3"] ]}.
Definition notAnIntX : error :=
  ErrNum (Strconv.mkNumError "ParseInt" "x" Strconv.ErrSyntax).


(** [struct { Inner *struct { Value int } }]. *)
Definition tInner : type := TStruct unnamed [plainInt].
Definition withInner : list StructField :=
  [exported "Inner" "" (TPtr unnamed tInner)].

(** The tokens [+1y] and [+2m]. *)
Definition plusOneYear : nowToken := mkNowToken false "1" "y".
Definition plusTwoMonths : nowToken := mkNowToken false "2" "m".

End FurtherExamples.


(** * Properties *)

Section Orchestrator.
Context `{Host}.

Lemma getAt_setAt path new v cur :
  getAt path v = Some cur -> getAt path (setAt path new v) = Some new.
Proof.
  revert v. induction path as [|[i|] rest IH]; intros v Hget; simpl in *.
  - reflexivity.
  - destruct v; try discriminate.
    destruct (fields !! i) as [f|] eqn:Hf; [|discriminate].
    simpl. rewrite list_lookup_insert_eq by (eapply lookup_lt_Some; eauto).
    eauto.
  - destruct v as [| | | | | | | |[p|]| |]; try discriminate.
    simpl. eauto.
Qed.

Lemma unmarshalLoop_app data pOpts fs1 fs2 strct tick strct1 tick1 :
  unmarshalLoop data pOpts fs1 strct tick = (strct1, None, tick1) ->
  unmarshalLoop data pOpts (fs1 ++ fs2) strct tick =
  unmarshalLoop data pOpts fs2 strct1 tick1.
Proof.
  revert strct tick. induction fs1 as [|f fs1 IH]; intros strct tick Hloop; simpl in *.
  - congruence.
  - destruct (unmarshalField data pOpts f strct tick) as [[s [e|]] t]; [discriminate|].
    eauto.
Qed.

Lemma Unmarshal_loop data v setParseOpts tick v' fld fields :
  extractFields v = (v', inl (fld :: fields)) ->
  snd (fst (Unmarshal data v setParseOpts tick)) =
  snd (fst (unmarshalLoop data (optionsOf setParseOpts) (fld :: fields) (pointee v') tick)).
Proof.
  intros Hx. unfold Unmarshal. rewrite Hx. cbn [length Nat.eqb].
  fold (optionsOf setParseOpts).
  destruct (unmarshalLoop _ _ _ _ _) as [[s e] t]. reflexivity.
Qed.

Lemma Unmarshal_loop_app data v setParseOpts tick v' fs1 fld fs2 strct1 tick1 :
  extractFields v = (v', inl (fs1 ++ fld :: fs2)) ->
  unmarshalLoop data (optionsOf setParseOpts) fs1 (pointee v') tick = (strct1, None, tick1) ->
  snd (fst (Unmarshal data v setParseOpts tick)) =
  snd (fst (unmarshalLoop data (optionsOf setParseOpts) (fld :: fs2) strct1 tick1)).
Proof.
  intros Hx Hloop.
  destruct (fs1 ++ fld :: fs2) as [|f0 fs0] eqn:Hfs.
  { destruct fs1; discriminate. }
  rewrite (Unmarshal_loop _ _ _ _ _ _ _ Hx), <- Hfs.
  by rewrite (unmarshalLoop_app _ _ _ _ _ _ _ _ Hloop).
Qed.

(** C1. When the fields before [fld] are decoded without error, a
    failure of [processField] on the default value of [fld] makes
    [Unmarshal] return a [FieldError] in which [errors.As] finds no
    [ParseError]; a failure on the values of its key in the data makes
    it return a [ParseError] that has the key and wraps the
    [FieldError]. *)
Theorem Unmarshal_two_tier_errors
    data v setParseOpts tick v' fs1 fld fs2 strct1 tick1 cur :
  let pOpts := optionsOf setParseOpts in
  let dflt := defaultValue (options fld) in
  let d := processField true dflt (ftype fld) cur (options fld) pOpts tick1 in
  extractFields v = (v', inl (fs1 ++ fld :: fs2)) ->
  unmarshalLoop data pOpts fs1 (pointee v') tick = (strct1, None, tick1) ->
  getAt (fpath fld) strct1 = Some cur ->
  (forall e, dflt <> "" -> o_err d = Some e ->
     exists err,
       snd (fst (Unmarshal data v setParseOpts tick)) = Some err /\
       err = ErrField (mkFieldError (name fld) (Type_String (ftype fld)) dflt e) /\
       AsParseError err = None /\
       AsFieldError err = Some (mkFieldError (name fld) (Type_String (ftype fld)) dflt e))
  /\
  (forall values cur2 tick2 e,
     (dflt = "" /\ cur2 = cur /\ tick2 = tick1 \/
      dflt <> "" /\ o_err d = None /\ cur2 = o_field d /\ tick2 = o_tick d) ->
     data !! keyOf fld = Some values -> values <> [] ->
     o_err (processField false (joinValues values pOpts) (ftype fld) cur2
              (options fld) pOpts tick2) = Some e ->
     exists err pe,
       snd (fst (Unmarshal data v setParseOpts tick)) = Some err /\
       AsParseError err = Some pe /\
       pe_Key pe = keyOf fld /\
       pe_FieldName pe = name fld /\
       AsFieldError err = Some (pe_fe pe) /\
       pe_fe pe = mkFieldError (name fld) (Type_String (ftype fld))
                    (joinValues values pOpts) e).
Proof.
  intros pOpts dflt d Hx Hloop Hcur. split.
  - intros e Hd He.
    exists (ErrField (mkFieldError (name fld) (Type_String (ftype fld)) dflt e)).
    split; [|repeat split].
    rewrite (Unmarshal_loop_app _ _ _ _ _ _ _ _ _ _ Hx Hloop).
    fold pOpts. cbn [unmarshalLoop]. unfold unmarshalField, applyDefault.
    fold dflt. apply String.eqb_neq in Hd. rewrite Hd. cbn [negb].
    unfold processFieldAt. rewrite Hcur. fold d. rewrite He. reflexivity.
  - intros values cur2 tick2 e Hdflt Hdata Hne He.
    set (pe := mkParseError (name fld) (keyOf fld)
                 (mkFieldError (name fld) (Type_String (ftype fld))
                    (joinValues values pOpts) e)).
    exists (ErrParse pe), pe.
    split; [|repeat split]. subst pe.
    rewrite (Unmarshal_loop_app _ _ _ _ _ _ _ _ _ _ Hx Hloop).
    fold pOpts. cbn [unmarshalLoop]. unfold unmarshalField, applyDefault.
    fold dflt.
    assert (Hin : forall s t, getAt (fpath fld) s = Some cur2 -> t = tick2 ->
              snd (fst (match applyInput data pOpts fld s t with
                        | (s', Some e', t') => (s', Some e', t')
                        | (s', None, t') => unmarshalLoop data pOpts fs2 s' t'
                        end)) =
              Some (ErrParse (mkParseError (name fld) (keyOf fld)
                      (mkFieldError (name fld) (Type_String (ftype fld))
                         (joinValues values pOpts) e)))).
    { intros s t Hs ->. unfold applyInput. rewrite Hdata.
      destruct values as [|v0 vs]; [congruence|]. cbn [length Nat.eqb].
      unfold processFieldAt. rewrite Hs, He. reflexivity. }
    destruct Hdflt as [(Hd & -> & ->)|(Hd & Hok & -> & ->)].
    + rewrite Hd. cbn [String.eqb negb]. apply Hin; auto.
    + apply String.eqb_neq in Hd. rewrite Hd. cbn [negb].
      unfold processFieldAt. rewrite Hcur. fold d. rewrite Hok.
      apply Hin; [|reflexivity]. eapply getAt_setAt; eauto.
Qed.


Lemma fieldsLoop_all_skipped drill path i fs fvals :
  Forall (fun sf : StructField => sfExported sf = false \/ sfTag sf = "-") fs ->
  fieldsLoop drill path i fs fvals = (fvals, inl []).
Proof.
  intros Hall. revert i fvals.
  induction Hall as [|sf fs Hsf _ IH]; intros i fvals.
  - destruct fvals; reflexivity.
  - destruct fvals as [|f fvals]; [reflexivity|]. cbn [fieldsLoop].
    assert (Hskip : (negb (sfExported sf) || String.eqb (sfTag sf) "-")%bool = true).
    { destruct Hsf as [-> | ->]; [reflexivity|].
      rewrite String.eqb_refl. apply orb_true_r. }
    rewrite Hskip, IH. reflexivity.
Qed.

(** C6. Whatever the data, [Unmarshal] returns [ErrInvalidStruct] when
    the target is not a pointer to a struct (it is nil, not a pointer,
    a nil pointer, or a pointer to something else); and when the target
    is a pointer to a struct in which no field is found (for instance
    when each field is unexported or has the tag [-]) it returns
    another error, the one for no fields. *)
Theorem Unmarshal_invalid_target data v setParseOpts tick :
  (isStructPointer v = false ->
     Unmarshal data v setParseOpts tick = (v, Some ErrInvalidStruct, tick))
  /\ (isStructPointer v = true -> forall v',
        extractFields v = (v', inl []) ->
        Unmarshal data v setParseOpts tick = (v', Some ErrNoFields, tick))
  /\ (forall n sn fs fvals,
        v = Iface (TPtr n (TStruct sn fs)) (VPtr (Some (VStruct fvals))) ->
        Forall (fun sf : StructField => sfExported sf = false \/ sfTag sf = "-") fs ->
        Unmarshal data v setParseOpts tick = (v, Some ErrNoFields, tick))
  /\ IsErrInvalidStruct ErrNoFields = false
  /\ IsErrInvalidStruct ErrInvalidStruct = true.
Proof.
  repeat split.
  - intros Hv. unfold Unmarshal.
    assert (Hx : extractFields v = (v, inr ErrInvalidStruct)).
    { destruct v as [|t val]; [reflexivity|]. unfold extractFields.
      destruct (negb (Reflect.Kind_eqb (TypeKind t) Reflect.Pointer)); [reflexivity|].
      destruct t; try reflexivity.
      destruct val as [| | | | | | | |[s|]| |]; try reflexivity.
      cbn [isStructPointer] in Hv. rewrite Hv. reflexivity. }
    rewrite Hx. reflexivity.
  - intros _ v' Hx. unfold Unmarshal. rewrite Hx. reflexivity.
  - intros n sn fs fvals -> Hall. unfold Unmarshal, extractFields.
    cbn [TypeKind Reflect.Kind_eqb negb].
    rewrite fieldsLoop_all_skipped by assumption. reflexivity.
Qed.

End Orchestrator.

(** ** Facts on the functions of package [strings] *)

Section StringsFacts.

Lemma append_nil_l s : ("" +:+ s) = s.
Proof. reflexivity. Qed.

Lemma append_cons c a b : (String c a +:+ b) = String c (a +:+ b).
Proof. reflexivity. Qed.

Lemma append_nil_r s : (s +:+ "") = s.
Proof. induction s as [|c s IH]; [reflexivity|]. rewrite append_cons. congruence. Qed.

Lemma append_assoc a b c : ((a +:+ b) +:+ c) = (a +:+ (b +:+ c)).
Proof.
  induction a as [|x a IH]; [reflexivity|]. rewrite !append_cons. congruence.
Qed.

Lemma prefix_char c a s :
  String.prefix (String c "") (String a s) = Ascii.eqb a c.
Proof.
  cbn. destruct (ascii_dec c a) as [->|Hne].
  - rewrite Ascii.eqb_refl. destruct s; reflexivity.
  - symmetry. apply Ascii.eqb_neq. congruence.
Qed.

Lemma Cut_char_spec c s :
  match Strings.Cut s (String c "") with
  | Some (a, b) => s = (a +:+ String c b) /\ hasByte c a = false
  | None => hasByte c s = false
  end.
Proof.
  induction s as [|x s IH].
  - reflexivity.
  - cbn [Strings.Cut]. rewrite prefix_char. cbn [hasByte].
    destruct (Ascii.eqb x c) eqn:Hx.
    + apply Ascii.eqb_eq in Hx as ->. cbn [Strings.drop String.length hasByte]. auto.
    + destruct (Strings.Cut s (String c "")) as [[a b]|].
      * destruct IH as [-> Ha]. rewrite append_cons. cbn [hasByte].
        rewrite Hx, Ha. auto.
      * exact IH.
Qed.

Lemma Cut_char_none c s :
  hasByte c s = false -> Strings.Cut s (String c "") = None.
Proof.
  induction s as [|x s IH]; [reflexivity|].
  cbn [hasByte Strings.Cut]. rewrite prefix_char.
  intros [Hx Hs]%orb_false_elim. rewrite Hx, IH by assumption. reflexivity.
Qed.

Lemma Cut_char_some c a b :
  hasByte c a = false ->
  Strings.Cut (a +:+ String c b) (String c "") = Some (a, b).
Proof.
  induction a as [|x a IH].
  - intros _. rewrite append_nil_l. cbn [Strings.Cut].
    rewrite prefix_char, Ascii.eqb_refl. reflexivity.
  - rewrite append_cons. cbn [hasByte Strings.Cut]. rewrite prefix_char.
    intros [Hx Ha]%orb_false_elim. rewrite Hx, IH by assumption. reflexivity.
Qed.

Lemma length_app_string a b :
  String.length (a +:+ b) = (String.length a + String.length b)%nat.
Proof.
  induction a as [|x a IH]; [reflexivity|]. rewrite append_cons. cbn. congruence.
Qed.

Lemma length_Join segs c :
  (length segs <= S (String.length (Strings.Join segs (String c ""))))%nat.
Proof.
  induction segs as [|s [|s2 rest] IH]; cbn [length Strings.Join] in *; try lia.
  rewrite !length_app_string. cbn [String.length]. lia.
Qed.

Lemma genSplit_Join c segs cuts :
  segs <> [] ->
  Forall (fun s => hasByte c s = false) segs ->
  (length segs <= S cuts)%nat ->
  Strings.genSplit cuts (Strings.Join segs (String c "")) (String c "") = segs.
Proof.
  intros Hne Hall. revert cuts.
  induction Hall as [|s rest Hs Hrest IH]; [congruence|].
  intros cuts Hlen. destruct rest as [|s2 rest].
  - cbn [Strings.Join]. destruct cuts; cbn [Strings.genSplit]; [reflexivity|].
    by rewrite Cut_char_none.
  - destruct cuts as [|cuts]; [cbn in Hlen; lia|].
    change (Strings.Join (s :: s2 :: rest) (String c ""))
      with (s +:+ String c (Strings.Join (s2 :: rest) (String c ""))).
    cbn [Strings.genSplit]. rewrite Cut_char_some by assumption.
    rewrite IH; [reflexivity|congruence|cbn in *; lia].
Qed.

(** Splitting what was joined gives the pieces back, when the separator
    (one byte) is in none of them. *)
Lemma Split_Join c segs :
  segs <> [] ->
  Forall (fun s => hasByte c s = false) segs ->
  Strings.Split (Strings.Join segs (String c "")) (String c "") = segs.
Proof.
  intros Hne Hall. unfold Strings.Split.
  apply genSplit_Join; auto. pose proof (length_Join segs c). lia.
Qed.

Lemma countByte_append c a b :
  countByte c (a +:+ b) = (countByte c a + countByte c b)%nat.
Proof.
  induction a as [|x a IH]; [reflexivity|].
  rewrite append_cons. cbn [countByte]. lia.
Qed.

Lemma countByte_none c s : hasByte c s = false -> countByte c s = O.
Proof.
  induction s as [|x s IH]; [reflexivity|]. cbn [hasByte countByte].
  intros [-> Hs]%orb_false_elim. rewrite IH by assumption. reflexivity.
Qed.

Lemma length_genSplit c cuts s :
  (String.length s <= cuts)%nat ->
  length (Strings.genSplit cuts s (String c "")) = S (countByte c s).
Proof.
  revert s. induction cuts as [|cuts IH]; intros s Hlen.
  - destruct s; [reflexivity|cbn in Hlen; lia].
  - cbn [Strings.genSplit]. pose proof (Cut_char_spec c s) as Hcut.
    destruct (Strings.Cut s (String c "")) as [[a b]|].
    + destruct Hcut as [-> Ha]. cbn [length]. rewrite IH.
      * rewrite countByte_append, (countByte_none _ _ Ha). cbn [countByte].
        rewrite Ascii.eqb_refl. lia.
      * rewrite length_app_string in Hlen. cbn [String.length] in Hlen. lia.
    + cbn [length]. by rewrite countByte_none.
Qed.

(** [Split] on a byte gives one piece more than the occurrences of the
    byte. *)
Lemma length_Split c s :
  length (Strings.Split s (String c "")) = S (countByte c s).
Proof. apply length_genSplit. lia. Qed.

Lemma SplitN_2_none c s :
  hasByte c s = false -> Strings.SplitN s (String c "") 2 = [s].
Proof.
  intros Hs. unfold Strings.SplitN. cbn [Z.eqb Z.ltb Z.compare].
  destruct (Nat.min _ _ - 1)%nat; cbn [Strings.genSplit]; [reflexivity|].
  by rewrite Cut_char_none.
Qed.

Lemma SplitN_2_some c a b :
  hasByte c a = false ->
  Strings.SplitN (a +:+ String c b) (String c "") 2 = [a; b].
Proof.
  intros Ha. unfold Strings.SplitN. cbn [Z.eqb Z.ltb Z.compare].
  rewrite length_app_string. cbn [String.length].
  replace (Nat.min (Z.to_nat 2) (S (String.length a + S (String.length b))) - 1)%nat
    with 1%nat by lia.
  cbn [Strings.genSplit]. by rewrite Cut_char_some.
Qed.

(** [SplitN(s, sep, 2)] gives one or two pieces. *)
Lemma SplitN_2_cases s sep :
  (exists a, Strings.SplitN s sep 2 = [a]) \/
  (exists a b, Strings.SplitN s sep 2 = [a; b]).
Proof.
  unfold Strings.SplitN. cbn [Z.eqb Z.ltb Z.compare].
  destruct (Nat.min _ _ - 1)%nat as [|[|n]] eqn:Hn.
  - left. eexists. reflexivity.
  - cbn [Strings.genSplit]. destruct (Strings.Cut s sep) as [[a b]|]; eauto.
  - lia.
Qed.

End StringsFacts.


(** ** The type coercion engine *)

Section Coercion.
Context `{Host}.

Lemma builtin_inv typ :
  builtin typ = true ->
  (String.eqb (PkgPath typ) "time" && String.eqb (Name typ) "Time")%bool = false /\
  textUnmarshaler typ = None /\ binaryUnmarshaler typ = None.
Proof.
  unfold builtin. intros [Ht Hd]%andb_prop.
  apply negb_true_iff in Ht.
  destruct (textUnmarshaler typ), (binaryUnmarshaler typ); try discriminate. auto.
Qed.

(** What [processField] does for a builtin type that is not a pointer,
    when it is not a default value that meets a field that is set. *)
Lemma processField_builtin settingDefault value typ field fOpts pOpts tick :
  builtin typ = true ->
  (forall n e, typ <> TPtr n e) ->
  processField settingDefault value typ field fOpts pOpts tick =
  if (settingDefault && negb (IsZero field))%bool then mkOutcome field None tick
  else
    match typ with
    | TBasic _ k =>
        let (f, e) := processBasic typ k value field in mkOutcome f e tick
    | TSlice _ et =>
        match sliceLoop (fun val t => processField false val et (Zero et) fOpts pOpts t)
                (Strings.Split value (Delim pOpts)) tick with
        | (_, Some e, tick') => mkOutcome field (Some e) tick'
        | (sl, None, tick') => mkOutcome (VSlice (Some sl)) None tick'
        end
    | TMap _ kt et =>
        if negb (Nat.eqb (String.length (Strings.TrimSpace value)) 0) then
          match mapLoop (fun s t => processField false s kt (Zero kt) fOpts pOpts t)
                  (fun s t => processField false s et (Zero et) fOpts pOpts t)
                  (Strings.Split value (Delim pOpts)) [] tick with
          | (_, Some e, tick') => mkOutcome field (Some e) tick'
          | (mp, None, tick') => mkOutcome (VMap (Some mp)) None tick'
          end
        else mkOutcome (VMap (Some [])) None tick
    | _ => mkOutcome field None tick
    end.
Proof.
  intros (Ht & Htext & Hbin)%builtin_inv Hptr.
  destruct typ as [n k|n e|n kt e|n e|n fs|];
    try (cbn [processField]; cbn [PkgPath Name] in Ht |- *;
         rewrite Ht, Htext, Hbin; reflexivity).
  by destruct (Hptr n e).
Qed.


Lemma processField_string value n field fOpts pOpts tick :
  builtin (TBasic n Reflect.String) = true ->
  processField false value (TBasic n Reflect.String) field fOpts pOpts tick =
  mkOutcome (VString value) None tick.
Proof.
  intros Hb. rewrite processField_builtin by (assumption || (intros; discriminate)). reflexivity.
Qed.

Lemma sliceLoop_strings n fOpts pOpts vals tick :
  builtin (TBasic n Reflect.String) = true ->
  sliceLoop (fun val t => processField false val (TBasic n Reflect.String)
                            (Zero (TBasic n Reflect.String)) fOpts pOpts t) vals tick =
  (List.map VString vals, None, tick).
Proof.
  intros Hb. induction vals as [|val rest IH]; [reflexivity|].
  cbn [sliceLoop List.map]. rewrite processField_string by assumption.
  cbn [o_err o_tick o_field]. rewrite IH. reflexivity.
Qed.







(** C2, as the code has it.  For a field whose type is not
    [time.Time] and has no decoder, a default value leaves the field as
    it is, and gives no error, when the field holds a value that is not
    zero; for a pointer, when what it points to is not zero. *)
Theorem processField_default_keeps value typ field fOpts pOpts tick cur :
  builtin typ = true ->
  dereferenced typ field = Some cur ->
  IsZero cur = false ->
  processField true value typ field fOpts pOpts tick = mkOutcome field None tick.
Proof.
  intros Hb Hcur Hnz.
  assert (Hcases : (forall n e, typ <> TPtr n e) \/ exists n e, typ = TPtr n e).
  { destruct typ; eauto; left; intros; discriminate. }
  destruct Hcases as [Hptr|(n & e & ->)].
  - rewrite processField_builtin by assumption.
    assert (field = cur) as -> by (destruct typ; cbn in Hcur; congruence).
    rewrite Hnz. reflexivity.
  - apply builtin_inv in Hb as (Ht & Htext & Hbin).
    cbn [dereferenced] in Hcur.
    destruct field as [| | | | | | | |pt| |]; try discriminate. subst pt.
    cbn [processField]. cbn [PkgPath Name] in Ht |- *.
    rewrite Ht, Htext, Hbin, Hnz. reflexivity.
Qed.

End Coercion.

(** ** The "now" based time parser *)

Section Numbers.

Lemma isDigit_range c :
  Strconv.isDigit c = true -> 0 <= Strconv.byte c - 48 <= 9.
Proof. unfold Strconv.isDigit. lia. Qed.

Lemma decimalValue_ge s : forall acc,
  allDigits s = true -> 0 <= acc -> acc <= decimalValue acc s.
Proof.
  induction s as [|c s IH]; intros acc Hd Hacc; cbn [decimalValue]; [lia|].
  unfold allDigits in Hd. cbn in Hd. apply andb_prop in Hd as [Hc Hs].
  apply isDigit_range in Hc. specialize (IH (acc * 10 + (Strconv.byte c - 48)) Hs). lia.
Qed.

Lemma digits_decimal s : forall n,
  allDigits s = true -> 0 <= n -> decimalValue n s < 2 ^ 63 ->
  Strconv.digits false 10 (Strconv.maxUint64 / 10 + 1) (2 ^ 64 - 1) n false s =
  (decimalValue n s, None, false).
Proof.
  change (Strconv.maxUint64 / 10 + 1) with 1844674407370955162.
  change (2 ^ 64 - 1) with 18446744073709551615.
  change (2 ^ 63) with 9223372036854775808.
  induction s as [|c s IH]; intros n Hd Hn Hv; cbn [Strconv.digits decimalValue] in *.
  - reflexivity.
  - unfold allDigits in Hd. cbn in Hd. apply andb_prop in Hd as [Hc Hs].
    rewrite andb_false_r, Hc.
    pose proof (isDigit_range c Hc) as Hr.
    pose proof (decimalValue_ge s (n * 10 + (Strconv.byte c - 48)) Hs ltac:(lia)) as Hge.
    change (2 ^ 64) with 18446744073709551616.
    rewrite (Z.mod_small (n * 10)) by lia.
    rewrite (Z.mod_small (n * 10 + _)) by lia.
    replace (Strconv.byte c - 48 >=? 10) with false by lia.
    replace (n >=? 1844674407370955162) with false by lia.
    replace (n * 10 + (Strconv.byte c - 48) <? n * 10) with false by lia.
    replace (n * 10 + (Strconv.byte c - 48) >? 18446744073709551615) with false by lia.
    cbn [orb]. apply IH; auto; lia.
Qed.

(** [Atoi] on decimal digits that write a number below [2^63]. *)
Lemma Atoi_digits s :
  s <> "" -> allDigits s = true -> decimalValue 0 s < 2 ^ 63 ->
  Strconv.Atoi s = (decimalValue 0 s, None).
Proof.
  intros Hne Hd Hv. destruct s as [|c0 rest]; [congruence|].
  assert (Hc0 : Strconv.isDigit c0 = true).
  { unfold allDigits in Hd. cbn in Hd. by apply andb_prop in Hd as [? _]. }
  assert (Hplus : Ascii.eqb c0 "+" = false).
  { apply Ascii.eqb_neq. intros ->. discriminate. }
  assert (Hminus : Ascii.eqb c0 "-" = false).
  { apply Ascii.eqb_neq. intros ->. discriminate. }
  pose proof (decimalValue_ge _ 0 Hd ltac:(lia)) as Hge.
  unfold Strconv.Atoi, Strconv.ParseInt. rewrite Hplus, Hminus. cbn [orb].
  unfold Strconv.ParseUint.
  change ((2 <=? 10) && (10 <=? 36))%bool with true.
  change ((0 <? 0) || (0 >? 64))%bool with false.
  change (0 =? 0) with true. change (10 =? 0) with false.
  cbv beta iota. unfold Strconv.IntSize.
  rewrite digits_decimal by (assumption || lia).
  cbn [andb negb Strconv.isRange].
  change (2 ^ (64 - 1)) with 9223372036854775808.
  change (2 ^ 63) with 9223372036854775808 in Hv.
  replace (decimalValue 0 (String c0 rest) >=? 9223372036854775808) with false by lia.
  reflexivity.
Qed.

Lemma wrapInt_small z : - 2 ^ 63 <= z < 2 ^ 63 -> wrapInt z = z.
Proof.
  unfold wrapInt, Strconv.IntSize.
  change (2 ^ (64 - 1)) with 9223372036854775808.
  change (2 ^ 64) with 18446744073709551616.
  change (2 ^ 63) with 9223372036854775808.
  intros Hz. rewrite Z.mod_small by lia. lia.
Qed.

End Numbers.

Section TrimFacts.

Lemma list_ascii_append a b :
  list_ascii_of_string (a +:+ b) = list_ascii_of_string a ++ list_ascii_of_string b.
Proof.
  induction a as [|c a IH]; [reflexivity|]. rewrite append_cons. cbn. by rewrite IH.
Qed.

Lemma string_of_list_app l1 l2 :
  string_of_list_ascii (l1 ++ l2) = (string_of_list_ascii l1 +:+ string_of_list_ascii l2).
Proof.
  induction l1 as [|c l1 IH]; [reflexivity|]. cbn. rewrite append_cons. by rewrite IH.
Qed.

Lemma rev_append a b :
  Strings.rev (a +:+ b) = (Strings.rev b +:+ Strings.rev a).
Proof.
  unfold Strings.rev. by rewrite list_ascii_append, rev_app_distr, string_of_list_app.
Qed.

Lemma rev_snoc pre c : Strings.rev (pre +:+ String c "") = String c (Strings.rev pre).
Proof. rewrite rev_append. reflexivity. Qed.

Lemma rev_involutive s : Strings.rev (Strings.rev s) = s.
Proof.
  unfold Strings.rev.
  by rewrite list_ascii_of_string_of_list_ascii, List.rev_involutive,
    string_of_list_ascii_of_string.
Qed.

Lemma find_prefix_none runes c s :
  startsRune runes c = false ->
  List.find (fun r => String.prefix r (String c s)) runes = None.
Proof.
  induction runes as [|r runes IH]; [reflexivity|].
  cbn [startsRune existsb List.find]. intros [Hr Hrest]%orb_false_elim.
  destruct r as [|a r]; [discriminate|]. cbn [String.prefix].
  destruct (ascii_dec a c) as [->|_].
  - by rewrite Ascii.eqb_refl in Hr.
  - by apply IH.
Qed.

(** Nothing is trimmed from a string whose first byte starts no rune. *)
Lemma trimLeft_stop runes c s :
  startsRune runes c = false ->
  Strings.trimLeft runes 0 (String c s) = String c s.
Proof.
  intros Hc. cbn [Strings.trimLeft]. unfold Strings.leadingSpace.
  by rewrite find_prefix_none.
Qed.

Lemma trimLeft_space s :
  Strings.trimLeft Strings.spaceRunes 0 (String " " s) =
  Strings.trimLeft Strings.spaceRunes 0 s.
Proof.
  cbn [Strings.trimLeft].
  assert (Hl : Strings.leadingSpace Strings.spaceRunes (String " " s) = 1%nat).
  { destruct s; reflexivity. }
  rewrite Hl. reflexivity.
Qed.

(** [TrimSpace] leaves a string that neither starts nor ends with a
    byte of a white space rune. *)
Lemma TrimSpace_id c0 post cl pre :
  startsRune Strings.spaceRunes c0 = false ->
  startsRune (List.map Strings.rev Strings.spaceRunes) cl = false ->
  String c0 post = (pre +:+ String cl "") ->
  Strings.TrimSpace (String c0 post) = String c0 post.
Proof.
  intros H0 Hl Heq. unfold Strings.TrimSpace.
  rewrite trimLeft_stop by assumption.
  rewrite Heq, rev_snoc, trimLeft_stop by assumption.
  by rewrite <- rev_snoc, rev_involutive.
Qed.

Lemma TrimSpace_space_id c0 post cl pre :
  startsRune Strings.spaceRunes c0 = false ->
  startsRune (List.map Strings.rev Strings.spaceRunes) cl = false ->
  String c0 post = (pre +:+ String cl "") ->
  Strings.TrimSpace (String " " (String c0 post)) = String c0 post.
Proof.
  intros H0 Hl Heq. unfold Strings.TrimSpace.
  rewrite trimLeft_space, trimLeft_stop by assumption.
  rewrite Heq, rev_snoc, trimLeft_stop by assumption.
  by rewrite <- rev_snoc, rev_involutive.
Qed.

Lemma ReplaceSigns_append a b :
  Strings.ReplaceSigns (a +:+ b) = (Strings.ReplaceSigns a +:+ Strings.ReplaceSigns b).
Proof.
  induction a as [|c a IH]; [reflexivity|]. rewrite append_cons.
  cbn [Strings.ReplaceSigns]. destruct (_ || _)%bool; rewrite ?append_cons, IH; reflexivity.
Qed.

Lemma ReplaceSigns_id s :
  hasByte "+" s = false -> hasByte "-" s = false -> Strings.ReplaceSigns s = s.
Proof.
  induction s as [|c s IH]; [reflexivity|]. cbn [hasByte Strings.ReplaceSigns].
  intros [Hp Hps]%orb_false_elim [Hm Hms]%orb_false_elim.
  rewrite Hp, Hm, IH by assumption. reflexivity.
Qed.

Lemma hasByte_append c a b :
  hasByte c (a +:+ b) = (hasByte c a || hasByte c b)%bool.
Proof.
  induction a as [|x a IH]; [reflexivity|]. rewrite append_cons. cbn [hasByte].
  by rewrite IH, orb_assoc.
Qed.

Lemma hasByte_digits c s :
  Strconv.isDigit c = false -> allDigits s = true -> hasByte c s = false.
Proof.
  intros Hc. induction s as [|x s IH]; [reflexivity|].
  unfold allDigits. cbn. intros [Hx Hs]%andb_prop. rewrite (IH Hs), orb_false_r.
  apply Ascii.eqb_neq. intros ->. congruence.
Qed.

Lemma get_last pre c : String.get (String.length pre) (pre +:+ String c "") = Some c.
Proof. induction pre as [|x pre IH]; [reflexivity|]. rewrite append_cons. exact IH. Qed.

Lemma substring_prefix a b :
  String.substring 0 (String.length a) (a +:+ b) = a.
Proof.
  induction a as [|x a IH]; [destruct b; reflexivity|].
  rewrite append_cons. cbn. by rewrite IH.
Qed.

Lemma isAsciiSpace_cases c :
  isAsciiSpace c = true ->
  In c (List.map ascii_of_N [9; 10; 11; 12; 13; 32]%N).
Proof.
  unfold isAsciiSpace. intros (x & Hin & Heq)%existsb_exists.
  apply Ascii.eqb_eq in Heq. by subst.
Qed.

Lemma leadingSpace_blank c s :
  isAsciiSpace c = true ->
  Strings.leadingSpace Strings.spaceRunes (String c s) = 1%nat /\
  Strings.leadingSpace (List.map Strings.rev Strings.spaceRunes) (String c s) = 1%nat.
Proof.
  intros Hc%isAsciiSpace_cases. cbn [List.map In] in Hc.
  destruct Hc as [<-|[<-|[<-|[<-|[<-|[<-|[]]]]]]]; destruct s; split; reflexivity.
Qed.

Lemma blank_cons c w :
  blank (String c w) = true -> isAsciiSpace c = true /\ blank w = true.
Proof. unfold blank. cbn. apply andb_prop. Qed.

(** Leading white space of ASCII is trimmed, from the left and, in
    the reversed string, from the right. *)
Lemma trimLeft_blank runes w s :
  runes = Strings.spaceRunes \/ runes = List.map Strings.rev Strings.spaceRunes ->
  blank w = true ->
  Strings.trimLeft runes 0 (w +:+ s) = Strings.trimLeft runes 0 s.
Proof.
  intros Hr. induction w as [|c w IH]; [reflexivity|].
  intros [Hc Hw]%blank_cons. rewrite append_cons. cbn [Strings.trimLeft].
  destruct (leadingSpace_blank c (w +:+ s) Hc) as [H1 H2].
  destruct Hr as [-> | ->]; rewrite ?H1, ?H2; auto.
Qed.

Lemma prefix_nil s : String.prefix "" s = true.
Proof. destruct s; reflexivity. Qed.

Lemma prefix_length r x :
  String.prefix r x = true -> (String.length r <= String.length x)%nat.
Proof.
  revert x. induction r as [|a r IH]; intros [|b x]; cbn; try lia; try discriminate.
  destruct (ascii_dec a b); [|discriminate]. intros Hp%IH. lia.
Qed.

Lemma prefix_tail_append t w : forall x,
  forallb (fun b => negb (isAsciiSpace b)) (list_ascii_of_string t) = true ->
  blank w = true ->
  String.prefix t (x +:+ w) = String.prefix t x.
Proof.
  induction t as [|a t IH]; intros x Ht Hw.
  - by rewrite !prefix_nil.
  - cbn [list_ascii_of_string forallb] in Ht. apply andb_prop in Ht as [Ha Ht].
    destruct x as [|b x].
    + rewrite append_nil_l. destruct w as [|c w]; [reflexivity|].
      apply blank_cons in Hw as [Hc _]. cbn [String.prefix].
      destruct (ascii_dec a c) as [Heq|_]; [|reflexivity].
      subst. rewrite Hc in Ha. discriminate.
    + rewrite append_cons. cbn [String.prefix].
      destruct (ascii_dec a b); [|reflexivity]. by apply IH.
Qed.

Lemma leadingSpace_append runes c s w :
  tailsNotBlank runes = true ->
  blank w = true ->
  Strings.leadingSpace runes (String c s +:+ w) = Strings.leadingSpace runes (String c s).
Proof.
  intros Hr Hw. unfold Strings.leadingSpace. rewrite append_cons.
  induction runes as [|r runes IH]; [reflexivity|].
  cbn [tailsNotBlank forallb] in Hr. apply andb_prop in Hr as [Hhead Hrest].
  cbn [List.find]. destruct r as [|a t]; [discriminate|].
  cbn [String.prefix]. destruct (ascii_dec a c) as [_|_]; [|by apply IH].
  rewrite prefix_tail_append by assumption.
  destruct (String.prefix t s); [reflexivity|by apply IH].
Qed.

Lemma leadingSpace_length runes x :
  (Strings.leadingSpace runes x <= String.length x)%nat.
Proof.
  unfold Strings.leadingSpace.
  destruct (List.find _ runes) as [r|] eqn:Hfind; [|lia].
  apply find_some in Hfind as [_ Hp]. by apply prefix_length.
Qed.

(** Trailing white space of ASCII does not change what is trimmed
    from the left. *)
Lemma trimLeft_append runes w : forall s k,
  runes = Strings.spaceRunes \/ runes = List.map Strings.rev Strings.spaceRunes ->
  blank w = true ->
  (k <= String.length s)%nat ->
  Strings.trimLeft runes k (s +:+ w) =
  match Strings.trimLeft runes k s with
  | EmptyString => EmptyString
  | u => u +:+ w
  end.
Proof.
  intros s k Hr Hw.
  assert (Htails : tailsNotBlank runes = true) by (destruct Hr as [-> | ->]; reflexivity).
  revert k. induction s as [|c s IH]; intros k Hk.
  - cbn in Hk. replace k with O by lia. rewrite append_nil_l.
    rewrite <- (append_nil_r w), trimLeft_blank by assumption. reflexivity.
  - destruct k as [|k].
    + pose proof (leadingSpace_append runes c s w Htails Hw) as Hlead.
      pose proof (leadingSpace_length runes (String c s)) as Hlen.
      rewrite append_cons in Hlead |- *. cbn [Strings.trimLeft]. rewrite Hlead.
      destruct (Strings.leadingSpace runes (String c s)) as [|k]; [reflexivity|].
      apply IH. cbn in Hlen. lia.
    + rewrite append_cons. cbn [Strings.trimLeft]. apply IH. cbn in Hk. lia.
Qed.

Lemma blank_rev w : blank w = true -> blank (Strings.rev w) = true.
Proof.
  unfold blank, Strings.rev. rewrite list_ascii_of_string_of_list_ascii.
  rewrite !forallb_forall. intros Hw x Hx%in_rev. auto.
Qed.

(** [TrimSpace] does not see the white space of ASCII around a
    string. *)
Lemma TrimSpace_pad l s r :
  blank l = true -> blank r = true ->
  Strings.TrimSpace (l +:+ (s +:+ r)) = Strings.TrimSpace s.
Proof.
  intros Hl Hr. unfold Strings.TrimSpace.
  rewrite trimLeft_blank by auto.
  rewrite trimLeft_append by (auto; lia).
  destruct (Strings.trimLeft Strings.spaceRunes 0 s) as [|c u]; [reflexivity|].
  rewrite rev_append, trimLeft_blank by auto using blank_rev. reflexivity.
Qed.


End TrimFacts.

(** ** The tag parser *)

Section TagParser.

Lemma parseTagLoop_meaning fOpts i tagParts :
  parseTagLoop fOpts i tagParts =
  tagMeaning fOpts i (List.map (fun p => trimSegment (segmentOf p)) tagParts).
Proof.
  revert fOpts i. induction tagParts as [|p rest IH]; intros fOpts i.
  - reflexivity.
  - cbn [parseTagLoop List.map]. unfold parseTagPart, segmentOf, trimSegment.
    destruct (SplitN_2_cases p ":") as [[a ->]|[a [b ->]]]; cbn [List.nth fst snd option_map tagMeaning].
    + destruct (Nat.eqb i 0); apply IH.
    + destruct (String.eqb (Strings.TrimSpace b) ""); [reflexivity|].
      destruct (String.eqb (Strings.TrimSpace a) "default"); [apply IH|].
      destruct (String.eqb (Strings.TrimSpace a) "layout"); apply IH.
Qed.

Lemma parseTagLoop_error fOpts i tagParts e :
  snd (parseTagLoop fOpts i tagParts) = Some e ->
  exists tagProp, e = ErrTagMissingValue tagProp.
Proof.
  revert fOpts i. induction tagParts as [|p rest IH]; intros fOpts i.
  - discriminate.
  - cbn [parseTagLoop]. unfold parseTagPart.
    destruct (SplitN_2_cases p ":") as [[a ->]|[a [b ->]]].
    + destruct (Nat.eqb i 0); apply IH.
    + destruct (String.eqb (Strings.TrimSpace b) "").
      { cbn. intros [= <-]. eauto. }
      destruct (String.eqb (Strings.TrimSpace (List.nth 0 [a; b] "")) "default"); [apply IH|].
      destruct (String.eqb (Strings.TrimSpace (List.nth 0 [a; b] "")) "layout"); apply IH.
Qed.

Lemma parseTagLoop_fails fOpts i pre p post :
  (forall fOpts' i', snd (parseTagPart fOpts' i' p) <> None) ->
  snd (parseTagLoop fOpts i (pre ++ p :: post)) <> None.
Proof.
  intros Hp. revert fOpts i. induction pre as [|q pre IH]; intros fOpts i.
  - cbn [app parseTagLoop]. specialize (Hp fOpts i).
    destruct (parseTagPart fOpts i p) as [f [e|]]; [discriminate|]. by destruct Hp.
  - cbn [app parseTagLoop].
    destruct (parseTagPart fOpts i q) as [f [e|]]; [discriminate|]. apply IH.
Qed.

Lemma Join_not_empty pre name val post :
  Strings.Join (pre ++ (name +:+ String ":" val) :: post) "," <> "".
Proof.
  assert (Hseg : forall rest, name +:+ String ":" rest <> "").
  { intros rest. destruct name; discriminate. }
  assert (Hj : forall post', Strings.Join ((name +:+ String ":" val) :: post') "," <> "").
  { intros [|q post']; cbn [Strings.Join]; [apply Hseg|].
    change ((name +:+ String ":" val) ++ "," ++ Strings.Join (q :: post') ",")%string
      with ((name +:+ String ":" val) +:+ ("," +:+ Strings.Join (q :: post') ",")).
    rewrite append_assoc, append_cons. apply Hseg. }
  induction pre as [|q [|q2 pre] IH]; cbn [app].
  - apply Hj.
  - cbn [Strings.Join]. fold (Strings.Join ((name +:+ String ":" val) :: post) ",").
    destruct q; discriminate.
  - change (Strings.Join (q :: (q2 :: pre) ++ (name +:+ String ":" val) :: post) ",")
      with (q +:+ ("," +:+ Strings.Join ((q2 :: pre) ++ (name +:+ String ":" val) :: post) ",")).
    destruct q; discriminate.
Qed.

(** C8. A tag with a segment [name:value] whose value is empty once
    trimmed fails with the error of a missing value, whatever the name
    of the segment and whatever the other segments; the empty tag gives
    the empty options and no error. *)
Theorem parseTag_missing_value pre name val post :
  let segs := pre ++ (name +:+ String ":" val) :: post in
  Forall (fun s => hasByte "," s = false) segs ->
  hasByte ":" name = false ->
  Strings.TrimSpace val = "" ->
  (exists tagProp,
     snd (parseTag (Strings.Join segs ",")) = Some (ErrTagMissingValue tagProp))
  /\ (pre = [] ->
      snd (parseTag (Strings.Join segs ",")) =
      Some (ErrTagMissingValue (Strings.TrimSpace name)))
  /\ parseTag "" = (noOptions, None).
Proof.
  intros segs Hcomma Hname Hval.
  assert (Hparse : parseTag (Strings.Join segs ",") = parseTagLoop noOptions 0 segs).
  { unfold parseTag.
    destruct (String.eqb_spec (Strings.Join segs ",") "") as [Heq|_].
    - by apply Join_not_empty in Heq.
    - rewrite Split_Join; [reflexivity| |assumption].
      subst segs. destruct pre; discriminate. }
  assert (Hpart : forall fOpts i,
            parseTagPart fOpts i (name +:+ String ":" val) =
            (fOpts, Some (ErrTagMissingValue (Strings.TrimSpace name)))).
  { intros fOpts i. unfold parseTagPart.
    rewrite SplitN_2_some by assumption. cbn [List.nth]. by rewrite Hval. }
  rewrite Hparse. repeat split.
  - destruct (snd (parseTagLoop noOptions 0 segs)) as [e|] eqn:He.
    + apply parseTagLoop_error in He as [tagProp ->]. eauto.
    + exfalso. revert He. apply parseTagLoop_fails.
      intros fOpts' i'. by rewrite Hpart.
  - intros ->. subst segs. cbn [app parseTagLoop]. by rewrite Hpart.
Qed.

Lemma parseTag_loop tagStr :
  parseTag tagStr = parseTagLoop noOptions 0 (Strings.Split tagStr ",").
Proof.
  unfold parseTag. destruct (String.eqb_spec tagStr "") as [->|_]; reflexivity.
Qed.

Lemma hasByte_blank c w :
  isAsciiSpace c = false -> blank w = true -> hasByte c w = false.
Proof.
  intros Hc. induction w as [|x w IH]; [reflexivity|].
  intros [Hx Hw]%blank_cons. cbn [hasByte]. rewrite (IH Hw), orb_false_r.
  apply Ascii.eqb_neq. intros ->. congruence.
Qed.

Lemma okSegment_inv g :
  okSegment g = true ->
  hasByte "," (segName g) = false /\ hasByte ":" (segName g) = false /\
  (forall v, segValue g = Some v -> hasByte "," v = false) /\
  blank (nameLeft g) = true /\ blank (nameRight g) = true /\
  blank (valueLeft g) = true /\ blank (valueRight g) = true.
Proof.
  unfold okSegment. intros H. repeat apply andb_prop in H as [H ?].
  apply negb_true_iff in H. split_and!; try assumption.
  - by apply negb_true_iff.
  - intros v Hv. rewrite Hv in *. by apply negb_true_iff.
Qed.

Lemma renderPadded_no_comma g :
  okSegment g = true -> hasByte "," (renderPadded g) = false.
Proof.
  intros (Hn & _ & Hv & Hl & Hr & Hvl & Hvr)%okSegment_inv. unfold renderPadded.
  destruct (segValue g) as [v|];
    rewrite ?hasByte_append; cbn [hasByte]; rewrite ?hasByte_append;
    rewrite ?(hasByte_blank "," _ eq_refl Hl), ?(hasByte_blank "," _ eq_refl Hr),
      ?(hasByte_blank "," _ eq_refl Hvl), ?(hasByte_blank "," _ eq_refl Hvr), ?Hn,
      ?(Hv v eq_refl); reflexivity.
Qed.

Lemma renderPlain_no_comma g :
  okSegment g = true -> hasByte "," (renderPlain g) = false.
Proof.
  intros (Hn & _ & Hv & _)%okSegment_inv. unfold renderPlain.
  destruct (segValue g) as [v|]; [|assumption].
  rewrite hasByte_append. cbn [hasByte]. rewrite Hn, (Hv v eq_refl). reflexivity.
Qed.

(** A segment has the same trimmed name and value with and without
    the white space around them. *)
Lemma trimSegment_padded g :
  okSegment g = true ->
  trimSegment (segmentOf (renderPadded g)) = trimSegment (segmentOf (renderPlain g)).
Proof.
  intros (_ & Hn & _ & Hl & Hr & Hvl & Hvr)%okSegment_inv.
  assert (Hname : hasByte ":" (nameLeft g +:+ (segName g +:+ nameRight g)) = false).
  { rewrite !hasByte_append, Hn, (hasByte_blank ":" _ eq_refl Hl),
      (hasByte_blank ":" _ eq_refl Hr). reflexivity. }
  unfold renderPadded, renderPlain, segmentOf, trimSegment.
  destruct (segValue g) as [v|].
  - rewrite !SplitN_2_some by assumption. cbn [fst snd option_map].
    by rewrite !TrimSpace_pad.
  - rewrite !SplitN_2_none by assumption. cbn [List.nth fst snd option_map].
    by rewrite TrimSpace_pad.
Qed.

(** C10. [parseTag] gives a tag the meaning of its segments once the
    name and the value of each are trimmed.  So two tags whose segments
    are the same up to the white space around names and values are
    parsed alike; a tag written with white space of ASCII around the
    names and the values of its segments is parsed as the tag without
    it; and [ myKey , default: 42] gives the key [myKey] and the
    default value [42]. *)
Theorem parseTag_trims :
  (forall tagStr,
     parseTag tagStr =
     tagMeaning noOptions 0
       (List.map (fun p => trimSegment (segmentOf p)) (Strings.Split tagStr ",")))
  /\ (forall t1 t2,
        List.map (fun p => trimSegment (segmentOf p)) (Strings.Split t1 ",") =
        List.map (fun p => trimSegment (segmentOf p)) (Strings.Split t2 ",") ->
        parseTag t1 = parseTag t2)
  /\ (forall segs, segs <> [] -> forallb okSegment segs = true ->
        parseTag (Strings.Join (List.map renderPadded segs) ",") =
        parseTag (Strings.Join (List.map renderPlain segs) ","))
  /\ parseTag " myKey , default: 42" =
     ({| key := "myKey"; defaultValue := "42"; layout := "" |}, None).
Proof.
  assert (Hmeaning : forall tagStr,
            parseTag tagStr =
            tagMeaning noOptions 0
              (List.map (fun p => trimSegment (segmentOf p)) (Strings.Split tagStr ","))).
  { intros tagStr. rewrite parseTag_loop. apply parseTagLoop_meaning. }
  split_and!.
  - exact Hmeaning.
  - intros t1 t2 Heq. rewrite !Hmeaning. by rewrite Heq.
  - intros segs Hne Hok. rewrite !Hmeaning.
    assert (Hall : Forall (fun g => okSegment g = true) segs).
    { clear Hne. induction segs as [|g segs IH]; [constructor|].
      cbn [forallb] in Hok. apply andb_prop in Hok as [Hg Hs]. constructor; auto. }
    rewrite !Split_Join.
    + rewrite !List.map_map. f_equal.
      clear Hne Hok. induction Hall as [|g segs Hg _ IH]; [reflexivity|].
      cbn [List.map]. by rewrite trimSegment_padded, IH.
    + destruct segs; [congruence|discriminate].
    + apply Forall_map. eapply Forall_impl; [exact Hall|].
      intros g Hg. by apply renderPlain_no_comma.
    + destruct segs; [congruence|discriminate].
    + apply Forall_map. eapply Forall_impl; [exact Hall|].
      intros g Hg. by apply renderPadded_no_comma.
  - reflexivity.
Qed.

End TagParser.

Section NowParser.
Context `{Host}.

Lemma forallb_Forall {A} (f : A -> bool) l :
  forallb f l = true -> Forall (fun x => f x = true) l.
Proof.
  induction l as [|x l IH]; cbn [forallb]; [constructor|].
  intros [Hx Hl]%andb_prop. constructor; auto.
Qed.

Lemma validToken_inv t :
  validToken t = true ->
  tkDigits t <> "" /\ allDigits (tkDigits t) = true /\
  (tkUnit t = "y" \/ tkUnit t = "m" \/ tkUnit t = "d")%char.
Proof.
  unfold validToken. intros [[Hne Hd]%andb_prop Hu]%andb_prop.
  split; [|split; [assumption|]].
  - intros Heq. rewrite Heq in Hne. discriminate.
  - apply orb_prop in Hu as [[Hu|Hu]%orb_prop|Hu]; apply Ascii.eqb_eq in Hu; auto.
Qed.

Lemma tokenDelta_range t :
  validToken t = true -> fitsInt t = true -> - 2 ^ 63 <= tokenDelta t < 2 ^ 63.
Proof.
  intros (_ & Hd & _)%validToken_inv Hfit. unfold fitsInt, Strconv.IntSize in Hfit.
  change (2 ^ (64 - 1)) with (2 ^ 63) in Hfit.
  pose proof (decimalValue_ge _ 0 Hd ltac:(lia)).
  unfold tokenDelta. destruct (tkNeg t); lia.
Qed.

(** The body of the loop of [parseTime] on a valid token whose number
    fits in an [int]. *)
Lemma parsePart_token acc t :
  validToken t = true -> fitsInt t = true ->
  parsePart acc (renderToken t) = inl (assignToken acc t).
Proof.
  intros Hv Hfit. pose proof (tokenDelta_range t Hv Hfit) as Hrange.
  pose proof Hv as (Hne & Hd & Hu)%validToken_inv.
  destruct t as [neg ds u]. cbn [tkNeg tkDigits tkUnit] in *.
  unfold parsePart, renderToken. cbn [tkNeg tkDigits tkUnit String.length String.get].
  rewrite length_app_string. cbn [String.length].
  assert (Hlen : (1 <= String.length ds)%nat).
  { destruct ds; [congruence|cbn; lia]. }
  replace (S (String.length ds + 1) <? 3)%nat with false
    by (symmetry; apply Nat.ltb_ge; lia).
  replace (S (String.length ds + 1) - 1)%nat with (S (String.length ds)) by lia.
  replace (S (String.length ds + 1) - 2)%nat with (String.length ds) by lia.
  cbn [String.get]. rewrite get_last.
  assert (Hsub : String.substring 1 (String.length ds)
                   (String (if neg then "-" else "+")%char (ds +:+ String u "")) = ds).
  { destruct (String.length ds) eqn:Hl; [lia|]. cbn [String.substring].
    rewrite <- Hl. apply substring_prefix. }
  rewrite Hsub, Atoi_digits; try assumption.
  2:{ unfold fitsInt, Strconv.IntSize in Hfit. cbn [tkDigits] in Hfit.
      change (2 ^ (64 - 1)) with (2 ^ 63) in Hfit. lia. }
  unfold tokenDelta in Hrange. cbn [tkNeg tkDigits] in Hrange.
  unfold assignToken, tokenDelta. cbn [tkNeg tkDigits tkUnit].
  destruct neg; cbn [Ascii.eqb Bool.eqb]; rewrite wrapInt_small by exact Hrange;
    destruct Hu as [->|[->| ->]]; reflexivity.
Qed.

Lemma parseParts_tokens toks : forall acc,
  Forall (fun t => validToken t = true) toks ->
  Forall (fun t => fitsInt t = true) toks ->
  parseParts acc (List.map renderToken toks) = inl (List.fold_left assignToken toks acc).
Proof.
  induction toks as [|t toks IH]; intros acc Hv Hf; [reflexivity|].
  inversion Hv; inversion Hf; subst. cbn [List.map parseParts List.fold_left].
  rewrite parsePart_token by assumption. by apply IH.
Qed.

Lemma find_append {A} (f : A -> bool) l1 l2 :
  List.find f (l1 ++ l2) =
  match List.find f l1 with Some x => Some x | None => List.find f l2 end.
Proof.
  induction l1 as [|x l1 IH]; [reflexivity|]. cbn [app List.find].
  destruct (f x); auto.
Qed.

Lemma fold_assign_proj (proj : ymd -> Z) (u : ascii) :
  (forall acc t, validToken t = true ->
     proj (assignToken acc t) =
     (if Ascii.eqb (tkUnit t) u then tokenDelta t else proj acc)) ->
  forall toks acc,
    Forall (fun t => validToken t = true) toks ->
    proj (List.fold_left assignToken toks acc) =
    match List.find (fun t => Ascii.eqb (tkUnit t) u) (List.rev toks) with
    | Some t => tokenDelta t
    | None => proj acc
    end.
Proof.
  intros Hproj. induction toks as [|t toks IH]; intros acc Hv; [reflexivity|].
  inversion Hv as [|? ? Ht Hts]; subst.
  cbn [List.fold_left List.rev]. rewrite (IH _ Hts), find_append.
  destruct (List.find _ (List.rev toks)); [reflexivity|].
  cbn [List.find]. rewrite (Hproj _ _ Ht).
  destruct (Ascii.eqb (tkUnit t) u); reflexivity.
Qed.

(** Each of [years], [months] and [days] ends with the value of the
    last token of its identifier. *)
Lemma fold_assign_last toks :
  Forall (fun t => validToken t = true) toks ->
  let r := List.fold_left assignToken toks {| years := 0; months := 0; days := 0 |} in
  years r = lastDelta "y" toks /\
  months r = lastDelta "m" toks /\
  days r = lastDelta "d" toks.
Proof.
  intros Hv. cbn zeta. unfold lastDelta. repeat split.
  - rewrite (fold_assign_proj years "y"); [reflexivity| |assumption].
    intros acc t (_ & _ & Hu)%validToken_inv.
    unfold assignToken; destruct Hu as [->|[->| ->]]; reflexivity.
  - rewrite (fold_assign_proj months "m"); [reflexivity| |assumption].
    intros acc t (_ & _ & Hu)%validToken_inv.
    unfold assignToken; destruct Hu as [->|[->| ->]]; reflexivity.
  - rewrite (fold_assign_proj days "d"); [reflexivity| |assumption].
    intros acc t (_ & _ & Hu)%validToken_inv.
    unfold assignToken; destruct Hu as [->|[->| ->]]; reflexivity.
Qed.

Lemma renderToken_no_space t :
  validToken t = true -> hasByte " " (renderToken t) = false.
Proof.
  intros (_ & Hd & Hu)%validToken_inv. unfold renderToken. cbn [hasByte].
  rewrite hasByte_append, (hasByte_digits " " (tkDigits t) eq_refl Hd). cbn [hasByte].
  destruct (tkNeg t), Hu as [->|[->| ->]]; reflexivity.
Qed.

Lemma ReplaceSigns_token t :
  validToken t = true ->
  Strings.ReplaceSigns (renderToken t) = String " " (renderToken t).
Proof.
  intros (_ & Hd & Hu)%validToken_inv. unfold renderToken.
  assert (Hrest : Strings.ReplaceSigns (tkDigits t +:+ String (tkUnit t) "") =
                  (tkDigits t +:+ String (tkUnit t) "")).
  { apply ReplaceSigns_id; rewrite hasByte_append.
    - rewrite (hasByte_digits "+" (tkDigits t) eq_refl Hd). cbn [hasByte].
      destruct Hu as [->|[->| ->]]; reflexivity.
    - rewrite (hasByte_digits "-" (tkDigits t) eq_refl Hd). cbn [hasByte].
      destruct Hu as [->|[->| ->]]; reflexivity. }
  destruct (tkNeg t); cbn [Strings.ReplaceSigns Ascii.eqb Bool.eqb orb];
    rewrite Hrest; reflexivity.
Qed.

Lemma ReplaceSigns_tokens toks :
  toks <> [] ->
  Forall (fun t => validToken t = true) toks ->
  Strings.ReplaceSigns (renderTokens toks) =
  String " " (Strings.Join (List.map renderToken toks) " ").
Proof.
  intros Hne Hv. induction Hv as [|t toks Ht Hts IH]; [congruence|].
  cbn [renderTokens]. rewrite ReplaceSigns_append, ReplaceSigns_token by assumption.
  destruct toks as [|t2 toks].
  - cbn [renderTokens Strings.ReplaceSigns List.map Strings.Join].
    by rewrite append_nil_r.
  - rewrite IH by congruence. reflexivity.
Qed.

Lemma renderToken_ends t :
  validToken t = true ->
  exists pre u, renderToken t = (pre +:+ String u "") /\
    startsRune (List.map Strings.rev Strings.spaceRunes) u = false.
Proof.
  intros (_ & _ & Hu)%validToken_inv.
  exists (String (if tkNeg t then "-" else "+")%char (tkDigits t)), (tkUnit t).
  split; [reflexivity|]. destruct Hu as [->|[->| ->]]; reflexivity.
Qed.

Lemma renderTokens_ends toks :
  toks <> [] ->
  Forall (fun t => validToken t = true) toks ->
  exists pre u, renderTokens toks = (pre +:+ String u "") /\
    startsRune (List.map Strings.rev Strings.spaceRunes) u = false.
Proof.
  intros Hne Hv. induction Hv as [|t toks Ht Hts IH]; [congruence|].
  cbn [renderTokens]. destruct toks as [|t2 toks].
  - cbn [renderTokens]. rewrite append_nil_r. by apply renderToken_ends.
  - destruct IH as (pre & u & -> & Hu); [congruence|].
    exists (renderToken t +:+ pre), u. by rewrite append_assoc.
Qed.

Lemma Join_tokens_ends toks :
  toks <> [] ->
  Forall (fun t => validToken t = true) toks ->
  exists pre u, Strings.Join (List.map renderToken toks) " " = (pre +:+ String u "") /\
    startsRune (List.map Strings.rev Strings.spaceRunes) u = false.
Proof.
  intros Hne Hv. induction Hv as [|t toks Ht Hts IH]; [congruence|].
  destruct toks as [|t2 toks].
  - cbn [List.map Strings.Join]. by apply renderToken_ends.
  - destruct IH as (pre & u & Heq & Hu); [congruence|].
    exists (renderToken t +:+ (" " +:+ pre)), u. split; [|assumption].
    change (Strings.Join (List.map renderToken (t :: t2 :: toks)) " ")
      with (renderToken t +:+ (" " +:+ Strings.Join (List.map renderToken (t2 :: toks)) " ")).
    by rewrite Heq, !append_assoc.
Qed.

(** C3, as the code has it.  For ["now"] followed by valid tokens
    whose numbers fit in an [int], [parseTime] returns [now] itself when
    there is no token, and otherwise [now.AddDate] of the values of the
    last [y] token, the last [m] token and the last [d] token ([0] for
    an identifier without token): [now+1y+2y] adds two years. *)
Theorem parseTime_now_tokens now layout toks :
  forallb validToken toks = true ->
  forallb fitsInt toks = true ->
  parseTime now layout ("now" +:+ renderTokens toks) =
    inl (match toks with
         | [] => now
         | _ => AddDate now (lastDelta "y" toks) (lastDelta "m" toks) (lastDelta "d" toks)
         end)
  /\ parseTime now layout "now+1y+2y" = inl (AddDate now 2 0 0).
Proof.
  assert (Hgen : forall toks, forallb validToken toks = true ->
            forallb fitsInt toks = true ->
            parseTime now layout ("now" +:+ renderTokens toks) =
            inl (match toks with
                 | [] => now
                 | _ => AddDate now (lastDelta "y" toks) (lastDelta "m" toks)
                          (lastDelta "d" toks)
                 end)).
  { clear toks. intros toks Hv%forallb_Forall Hf%forallb_Forall.
    destruct toks as [|t0 rest]; [reflexivity|].
    set (toks := t0 :: rest) in *.
    assert (Hne : toks <> []) by discriminate.
    destruct (renderTokens_ends toks Hne Hv) as (pre & u & Hbody & Hu).
    destruct (Join_tokens_ends toks Hne Hv) as (pre' & u' & Hjoin & Hu').
    assert (Hstart : exists sign post post',
              renderTokens toks = String sign post /\
              Strings.Join (List.map renderToken toks) " " = String sign post' /\
              startsRune Strings.spaceRunes sign = false).
    { exists (if tkNeg t0 then "-" else "+")%char. subst toks.
      destruct rest as [|t1 rest]; do 2 eexists;
        (split; [reflexivity|split; [reflexivity|by destruct (tkNeg t0)]]). }
    destruct Hstart as (sign & post & post' & Hb0 & Hj0 & Hsign).
    unfold parseTime.
    change ("now" +:+ renderTokens toks)
      with (String "n" (String "o" (String "w" (renderTokens toks)))).
    rewrite Hb0.
    change (String.eqb (String "n" (String "o" (String "w" (String sign post)))) "now")
      with false.
    change (Strings.HasPrefix (String "n" (String "o" (String "w" (String sign post)))) "now")
      with true.
    cbv iota. cbn [Strings.drop].
    rewrite Hb0 in Hbody.
    rewrite (TrimSpace_id sign post u pre Hsign Hu Hbody).
    rewrite <- Hb0, ReplaceSigns_tokens by assumption.
    rewrite Hj0 in Hjoin |- *.
    rewrite (TrimSpace_space_id sign post' u' pre' Hsign Hu' Hjoin).
    rewrite <- Hj0, Split_Join.
    2:{ subst toks. discriminate. }
    2:{ apply Forall_map. eapply Forall_impl; [exact Hv|].
        intros t Ht. by apply renderToken_no_space. }
    rewrite parseParts_tokens by assumption.
    destruct (fold_assign_last toks Hv) as (Hy & Hm & Hd). cbn zeta in Hy, Hm, Hd.
    rewrite Hy, Hm, Hd. reflexivity. }
  intros Hv Hf. split; [by apply Hgen|].
  exact (Hgen [mkNowToken false "1" "y"; mkNowToken false "2" "y"] eq_refl eq_refl).
Qed.


End NowParser.

(** ** Fields and paths *)

Section Paths.
Context `{Host}.

Lemma diverge_sym p q : diverge p q -> diverge q p.
Proof. induction 1; constructor; auto. Qed.

Lemma diverge_app r p q : diverge p q -> diverge (r ++ p) (r ++ q).
Proof. intros Hd. induction r as [|s r IH]; [assumption|]. by constructor. Qed.

(** An assignment at the end of a path leaves the variables apart
    from it as they are. *)
Lemma getAt_setAt_diverge p q new v :
  diverge p q -> getAt q (setAt p new v) = getAt q v.
Proof.
  intros Hd. revert v. induction Hd as [i j p q Hij|s p q Hd IH]; intros v.
  - cbn [setAt getAt]. destruct v as [| | | | | | | | |fs|]; try reflexivity.
    destruct (fs !! i) as [f|]; [|reflexivity].
    by rewrite list_lookup_insert_ne.
  - destruct s as [i|]; cbn [setAt getAt].
    + destruct v as [| | | | | | | | |fs|]; try reflexivity.
      destruct (fs !! i) as [f|] eqn:Hf; [|by rewrite Hf].
      rewrite list_lookup_insert_eq by (eapply lookup_lt_Some; eauto).
      apply IH.
    + destruct v as [| | | | | | | |[pt|]| |]; try reflexivity. apply IH.
Qed.

Lemma processFieldAt_frame settingDefault value fld pOpts strct tick p :
  diverge (fpath fld) p ->
  getAt p (fst (fst (processFieldAt settingDefault value fld pOpts strct tick))) =
  getAt p strct.
Proof.
  intros Hd. unfold processFieldAt. destruct (getAt (fpath fld) strct); [|reflexivity].
  cbn [fst]. by apply getAt_setAt_diverge.
Qed.

Lemma unmarshalField_frame data pOpts fld strct tick p :
  diverge (fpath fld) p ->
  getAt p (fst (fst (unmarshalField data pOpts fld strct tick))) = getAt p strct.
Proof.
  intros Hd. unfold unmarshalField, applyDefault, applyInput.
  destruct (negb (String.eqb (defaultValue (options fld)) "")).
  - pose proof (processFieldAt_frame true (defaultValue (options fld)) fld pOpts strct tick p Hd)
      as Hdef.
    destruct (processFieldAt true _ fld pOpts strct tick) as [[s1 [e1|]] t1];
      cbn [fst] in Hdef; [exact Hdef|].
    destruct (data !! keyOf fld) as [values|]; [|exact Hdef].
    destruct (Nat.eqb (length values) 0); [exact Hdef|].
    pose proof (processFieldAt_frame false (joinValues values pOpts) fld pOpts s1 t1 p Hd)
      as Hin.
    destruct (processFieldAt false _ fld pOpts s1 t1) as [[s2 [e2|]] t2];
      cbn [fst] in Hin |- *; congruence.
  - destruct (data !! keyOf fld) as [values|]; [|reflexivity].
    destruct (Nat.eqb (length values) 0); [reflexivity|].
    pose proof (processFieldAt_frame false (joinValues values pOpts) fld pOpts strct tick p Hd)
      as Hin.
    destruct (processFieldAt false _ fld pOpts strct tick) as [[s2 [e2|]] t2];
      cbn [fst] in Hin |- *; congruence.
Qed.

Lemma unmarshalField_untouched data pOpts fld strct tick :
  untouched data fld ->
  unmarshalField data pOpts fld strct tick = (strct, None, tick).
Proof.
  intros [Hdef Hkey]. unfold unmarshalField, applyDefault, applyInput.
  rewrite Hdef. cbn [String.eqb negb]. by destruct Hkey as [-> | ->].
Qed.

(** The loop of [Unmarshal] leaves a variable as it is when each field
    is apart from it or has nothing decoded into it. *)
Lemma unmarshalLoop_frame data pOpts fields p : forall strct tick,
  Forall (fun fld => untouched data fld \/ diverge (fpath fld) p) fields ->
  getAt p (fst (fst (unmarshalLoop data pOpts fields strct tick))) = getAt p strct.
Proof.
  induction fields as [|fld fields IH]; intros strct tick Hall; [reflexivity|].
  inversion Hall as [|? ? Hfld Hrest]; subst. cbn [unmarshalLoop].
  assert (Hstep : getAt p (fst (fst (unmarshalField data pOpts fld strct tick))) =
                  getAt p strct).
  { destruct Hfld as [Hu|Hd].
    - by rewrite unmarshalField_untouched.
    - by apply unmarshalField_frame. }
  destruct (unmarshalField data pOpts fld strct tick) as [[s [e|]] t];
    cbn [fst] in Hstep |- *; [assumption|].
  rewrite IH by assumption. assumption.
Qed.

Lemma type_nested_ind (P : type -> Prop) :
  (forall n k, P (TBasic n k)) ->
  (forall n e, P e -> P (TSlice n e)) ->
  (forall n k e, P k -> P e -> P (TMap n k e)) ->
  (forall n e, P e -> P (TPtr n e)) ->
  (forall n fs, Forall (fun sf => P (sfType sf)) fs -> P (TStruct n fs)) ->
  P TTime ->
  forall t, P t.
Proof.
  intros Hb Hs Hm Hp Hst Ht. fix IH 1. intros [n k|n e|n k e|n e|n fs|].
  - apply Hb.
  - apply Hs, IH.
  - apply Hm; apply IH.
  - apply Hp, IH.
  - apply Hst. induction fs as [|sf fs IHfs]; constructor; [apply IH|exact IHfs].
  - apply Ht.
Qed.

Lemma hasType_struct n fs vs :
  hasType (TStruct n fs) (VStruct vs) = fieldsTyped fs vs.
Proof.
  revert vs. induction fs as [|sf fs IH]; intros [|f vs]; try reflexivity.
  cbn [hasType fieldsTyped] in *. by rewrite IH.
Qed.

(** The zero value of a type is a value of the type. *)
Lemma hasType_Zero t : hasType t (Zero t) = true.
Proof.
  induction t as [n k|n e _|n k e _ _|n e _|n fs IH|] using type_nested_ind;
    try reflexivity.
  - destruct k; reflexivity.
  - cbn [Zero]. rewrite hasType_struct.
    induction IH as [|sf fs Hsf _ IHfs]; [reflexivity|].
    cbn [List.map fieldsTyped]. by rewrite Hsf, IHfs.
Qed.

Lemma reaches_leaf name path t opts f :
  (forall n e, t = TPtr n e -> f = VPtr None /\ TypeKind e <> Reflect.Struct) ->
  reaches path f [mkField name path t opts] /\ independent [mkField name path t opts].
Proof.
  intros Hleaf. split.
  - intros fld [<-|[]]. exists [], f. cbn [fpath ftype]. by rewrite app_nil_r.
  - intros a b [<-|[]] [<-|[]]. by left.
Qed.

(** The fields that the loop over the fields of a struct finds are
    variables of the struct, apart from one another. *)
Lemma fieldsLoop_reaches fs :
  Forall (fun sf : StructField =>
            forall f path name opts f' found,
              hasType (sfType sf) f = true ->
              drillField (sfType sf) f path name opts = (f', inl found) ->
              reaches path f' found /\ independent found) fs ->
  forall path i fvals fvals' found,
    fieldsTyped fs fvals = true ->
    fieldsLoop drillField path i fs fvals = (fvals', inl found) ->
    (forall fld, In fld found ->
       exists k rel fk cur,
         fpath fld = path ++ SField (i + k) :: rel /\ fvals' !! k = Some fk /\
         getAt rel fk = Some cur /\ leafOK (ftype fld) cur)
    /\ independent found.
Proof.
  induction 1 as [|sf fs Hsf _ IH]; intros path i fvals fvals' found Hty Hloop.
  - destruct fvals; cbn in Hloop; injection Hloop as <- <-;
      (split; [intros fld []|intros a b []]).
  - destruct fvals as [|f fvals]; [discriminate|].
    cbn [fieldsTyped] in Hty. apply andb_prop in Hty as [Hf Hfs].
    cbn [fieldsLoop] in Hloop.
    destruct (negb (sfExported sf) || String.eqb (sfTag sf) "-")%bool.
    + destruct (fieldsLoop drillField path (S i) fs fvals) as [vs r] eqn:Hrest.
      injection Hloop as <- ->.
      destruct (IH _ _ _ _ _ Hfs Hrest) as [Hreach Hind]. split; [|assumption].
      intros fld Hin. destruct (Hreach fld Hin) as (k & rel & fk & cur & Hp & Hk & Hg & Hl).
      exists (S k), rel, fk, cur. split_and!; try assumption.
      rewrite Hp. do 3 f_equal. lia.
    + destruct (parseTag (sfTag sf)) as [fieldOpts [e|]]; [discriminate|].
      destruct (drillField (sfType sf) f (path ++ [SField i]) (sfName sf) fieldOpts)
        as [f1 [found1|e]] eqn:Hdrill; [|discriminate].
      destruct (fieldsLoop drillField path (S i) fs fvals) as [vs [more|e]] eqn:Hrest;
        [|discriminate].
      injection Hloop as <- <-.
      destruct (Hsf _ _ _ _ _ _ Hf Hdrill) as [Hreach1 Hind1].
      destruct (IH _ _ _ _ _ Hfs Hrest) as [Hreach2 Hind2].
      assert (Hfirst : forall fld, In fld found1 ->
                exists rel cur, fpath fld = path ++ SField (i + 0) :: rel /\
                  getAt rel f1 = Some cur /\ leafOK (ftype fld) cur).
      { intros fld Hin. destruct (Hreach1 fld Hin) as (rel & cur & Hp & Hg & Hl).
        exists rel, cur. split_and!; try assumption.
        rewrite Hp, <- app_assoc, Nat.add_0_r. reflexivity. }
      assert (Hlater : forall fld, In fld more ->
                exists k rel fk cur, fpath fld = path ++ SField (i + S k) :: rel /\
                  vs !! k = Some fk /\ getAt rel fk = Some cur /\ leafOK (ftype fld) cur).
      { intros fld Hin. destruct (Hreach2 fld Hin) as (k & rel & fk & cur & Hp & Hk & Hg & Hl).
        exists k, rel, fk, cur. split_and!; try assumption.
        rewrite Hp. do 3 f_equal. lia. }
      assert (Hcross : forall a b, In a found1 -> In b more ->
                diverge (fpath a) (fpath b)).
      { intros a b Ha Hb.
        destruct (Hfirst a Ha) as (rel & cur & -> & _).
        destruct (Hlater b Hb) as (k & rel' & fk & cur' & -> & _).
        apply diverge_app. constructor. lia. }
      split.
      * intros fld [Hin|Hin]%in_app_or.
        -- destruct (Hfirst fld Hin) as (rel & cur & Hp & Hg & Hl).
           exists O, rel, f1, cur. auto.
        -- destruct (Hlater fld Hin) as (k & rel & fk & cur & Hp & Hk & Hg & Hl).
           exists (S k), rel, fk, cur. auto.
      * intros a b [Ha|Ha]%in_app_or [Hb|Hb]%in_app_or; auto.
        right. apply diverge_sym. auto.
Qed.

(** The fields that the flattener finds from a field of the target. *)
Lemma drillField_reaches t :
  forall f path name opts f' found,
    hasType t f = true ->
    drillField t f path name opts = (f', inl found) ->
    reaches path f' found /\ independent found.
Proof.
  induction t as [n k|n e _|n k e _ _|n e IH|n fs IH|] using type_nested_ind;
    intros f path name opts f' found Hty Hdrill;
    try (cbn [drillField] in Hdrill; injection Hdrill as <- <-;
         apply reaches_leaf; intros; discriminate).
  - (* pointer *)
    cbn [drillField] in Hdrill.
    assert (Hinner : forall p, hasType e p = true ->
              forall p' r, drillField e p (path ++ [SDeref]) name opts = (p', r) ->
              (VPtr (Some p'), r) = (f', inl found) ->
              reaches path f' found /\ independent found).
    { intros p Hp p' r Hd [= <- ->].
      destruct (IH _ _ _ _ _ _ Hp Hd) as [Hreach Hind]. split; [|assumption].
      intros fld Hin. destruct (Hreach fld Hin) as (rel & cur & Hpath & Hg & Hl).
      exists (SDeref :: rel), cur. split_and!; try assumption.
      rewrite Hpath, <- app_assoc. reflexivity. }
    destruct f as [| | | | | | | |[p|]| |]; try discriminate.
    + cbn [hasType] in Hty.
      destruct (drillField e p (path ++ [SDeref]) name opts) as [p' r] eqn:Hd.
      eapply Hinner; eauto.
    + destruct (Reflect.Kind_eqb (TypeKind e) Reflect.Struct) eqn:Hk; cbn [negb] in Hdrill.
      * destruct (drillField e (Zero e) (path ++ [SDeref]) name opts) as [p' r] eqn:Hd.
        eapply (Hinner (Zero e)); eauto using hasType_Zero.
      * injection Hdrill as <- <-. apply reaches_leaf.
        intros n' e' [= _ <-]. split; [reflexivity|].
        intros Heq. rewrite Heq in Hk. discriminate.
  - (* struct *)
    cbn [drillField] in Hdrill.
    destruct (textUnmarshaler (TStruct n fs));
      [injection Hdrill as <- <-; apply reaches_leaf; intros; discriminate|].
    destruct (binaryUnmarshaler (TStruct n fs));
      [injection Hdrill as <- <-; apply reaches_leaf; intros; discriminate|].
    destruct f as [| | | | | | | | |fvals|]; try discriminate.
    rewrite hasType_struct in Hty.
    destruct (fieldsLoop drillField path 0 fs fvals) as [fvals' [inner|e]] eqn:Hloop;
      [|discriminate].
    injection Hdrill as <- <-.
    destruct (fieldsLoop_reaches fs IH _ _ _ _ _ Hty Hloop) as [Hreach Hind].
    split; [|assumption].
    intros fld Hin. destruct (Hreach fld Hin) as (k & rel & fk & cur & Hpath & Hk & Hg & Hl).
    exists (SField k :: rel), cur. split_and!; try assumption.
    cbn [getAt]. by rewrite Hk.
Qed.





End Paths.

(** * Further properties *)

(** ** Parse options, and the round trip of slices *)

Section OptionsAndSlices.
Context `{Host}.

Lemma optionsOf_snoc setParseOpts f :
  optionsOf (setParseOpts ++ [f]) = f (optionsOf setParseOpts).
Proof. unfold optionsOf. by rewrite fold_left_app. Qed.

(** X1. The delimiter is never empty, and the last [WithDelimiter] of
    a call decides it: its string, or [;] when that string is empty. *)
Theorem Delim_last_option setParseOpts s :
  (forall o, Delim o <> "")
  /\ Delim (optionsOf (setParseOpts ++ [WithDelimiter s])) =
     (if String.eqb s "" then ";" else s).
Proof.
  split.
  - intros [[d|]]; unfold Delim; cbn [delim]; [|discriminate].
    destruct (String.eqb_spec d ""); [discriminate|assumption].
  - rewrite optionsOf_snoc. reflexivity.
Qed.

Lemma prefix_drop sep s :
  String.prefix sep s = true -> s = (sep +:+ Strings.drop (String.length sep) s).
Proof.
  revert s. induction sep as [|a sep IH]; intros s Hp; [reflexivity|].
  destruct s as [|b s]; [discriminate|]. cbn [String.prefix] in Hp.
  destruct (ascii_dec a b) as [->|]; [|discriminate].
  rewrite append_cons. cbn [String.length Strings.drop]. f_equal. by apply IH.
Qed.

(** [Cut] gives the text before and after an occurrence of the
    separator. *)
Lemma Cut_append s sep a b :
  Strings.Cut s sep = Some (a, b) -> s = (a +:+ (sep +:+ b)).
Proof.
  revert a b. induction s as [|c s IH]; intros a b; cbn [Strings.Cut].
  - destruct (String.prefix sep "") eqn:Hp; [|discriminate].
    intros [= <- <-]. by apply prefix_drop.
  - destruct (String.prefix sep (String c s)) eqn:Hp.
    + intros [= <- <-]. by apply prefix_drop.
    + destruct (Strings.Cut s sep) as [[a' b']|]; [|discriminate].
      intros [= <- <-]. rewrite append_cons. f_equal. by apply IH.
Qed.

(** Joining the pieces of a split gives the string back. *)
Lemma Join_genSplit sep cuts : forall s,
  Strings.Join (Strings.genSplit cuts s sep) sep = s.
Proof.
  induction cuts as [|cuts IH]; intros s; [reflexivity|].
  cbn [Strings.genSplit]. destruct (Strings.Cut s sep) as [[a b]|] eqn:Hcut; [|reflexivity].
  apply Cut_append in Hcut as ->. specialize (IH b).
  destruct (Strings.genSplit cuts b sep) as [|p ps] eqn:Hg.
  - destruct cuts; cbn in Hg; [discriminate|].
    destruct (Strings.Cut b sep) as [[? ?]|]; discriminate.
  - change (Strings.Join (a :: p :: ps) sep) with (a +:+ (sep +:+ Strings.Join (p :: ps) sep)).
    by rewrite IH.
Qed.

(** X2. A slice of strings loses nothing of the string it is decoded
    from: joining its elements with the delimiter gives the string
    back.  The decoding never fails. *)
Theorem processField_strings_join settingDefault value n en field fOpts pOpts tick :
  let typ := TSlice n (TBasic en Reflect.String) in
  let o := processField settingDefault value typ field fOpts pOpts tick in
  builtin typ = true ->
  builtin (TBasic en Reflect.String) = true ->
  (settingDefault && negb (IsZero field))%bool = false ->
  exists elems,
    o = mkOutcome (VSlice (Some (List.map VString elems))) None tick /\
    elems <> [] /\
    Strings.Join elems (Delim pOpts) = value.
Proof.
  intros typ o Hb Heb Hdef. exists (Strings.Split value (Delim pOpts)).
  split; [|split].
  - subst o typ. rewrite processField_builtin by (assumption || (intros; discriminate)).
    rewrite Hdef, sliceLoop_strings by assumption. reflexivity.
  - unfold Strings.Split. destruct (String.length value); cbn [Strings.genSplit]; [discriminate|].
    destruct (Strings.Cut value (Delim pOpts)) as [[? ?]|]; discriminate.
  - apply Join_genSplit.
Qed.

Lemma joinValues_Split pOpts c values :
  Delim pOpts = String c "" ->
  values <> [] ->
  Forall (fun v => hasByte c v = false) values ->
  Strings.Split (joinValues values pOpts) (Delim pOpts) = values.
Proof.
  intros Hd Hne Hall. unfold joinValues. rewrite Hd.
  destruct values as [|v [|v2 vs]]; [congruence| |].
  - cbn [length Nat.ltb Nat.leb List.nth]. apply (Split_Join c [v]); auto.
  - cbn [length Nat.ltb Nat.leb]. by apply Split_Join.
Qed.

(** X3. When the delimiter is one byte that occurs in none of the
    values of a key, a field that is a slice of strings gets the
    values of the key, one element for each, in order. *)
Theorem applyInput_strings_values data pOpts fld strct tick values cur c n en :
  ftype fld = TSlice n (TBasic en Reflect.String) ->
  builtin (ftype fld) = true ->
  builtin (TBasic en Reflect.String) = true ->
  Delim pOpts = String c "" ->
  data !! keyOf fld = Some values ->
  values <> [] ->
  Forall (fun v => hasByte c v = false) values ->
  getAt (fpath fld) strct = Some cur ->
  applyInput data pOpts fld strct tick =
  (setAt (fpath fld) (VSlice (Some (List.map VString values))) strct, None, tick).
Proof.
  intros Hty Hb Heb Hd Hdata Hne Hall Hcur. unfold applyInput. rewrite Hdata.
  destruct values as [|v0 vs] eqn:Hvs; [congruence|]. cbn [length Nat.eqb].
  rewrite <- Hvs in *. unfold processFieldAt. rewrite Hcur.
  rewrite Hty in Hb |- *.
  rewrite processField_builtin by (assumption || (intros; discriminate)).
  cbn [andb]. rewrite (joinValues_Split pOpts c values Hd Hne Hall).
  rewrite sliceLoop_strings by assumption. reflexivity.
Qed.

End OptionsAndSlices.


(** ** What [Unmarshal] reads of the data, and the errors it returns *)

Section DataAndErrors.
Context `{Host}.

Lemma applyInput_valuesOf data1 data2 pOpts fld strct tick :
  valuesOf data1 (keyOf fld) = valuesOf data2 (keyOf fld) ->
  applyInput data1 pOpts fld strct tick = applyInput data2 pOpts fld strct tick.
Proof.
  unfold valuesOf, applyInput.
  destruct (data1 !! keyOf fld) as [[|v1 vs1]|], (data2 !! keyOf fld) as [[|v2 vs2]|];
    try reflexivity; try discriminate.
  intros [= -> ->]. reflexivity.
Qed.

Lemma unmarshalLoop_valuesOf data1 data2 pOpts fields : forall strct tick,
  (forall fld, In fld fields ->
     valuesOf data1 (keyOf fld) = valuesOf data2 (keyOf fld)) ->
  unmarshalLoop data1 pOpts fields strct tick = unmarshalLoop data2 pOpts fields strct tick.
Proof.
  induction fields as [|fld fields IH]; intros strct tick Hsame; [reflexivity|].
  cbn [unmarshalLoop]. unfold unmarshalField.
  destruct (applyDefault pOpts fld strct tick) as [[s1 [e1|]] t1].
  - reflexivity.
  - rewrite (applyInput_valuesOf data1 data2) by (apply Hsame; by left).
    destruct (applyInput data2 pOpts fld s1 t1) as [[s2 [e2|]] t2]; [reflexivity|].
    apply IH. intros fld' Hin. apply Hsame. by right.
Qed.

(** X4. [Unmarshal] reads the data only at the keys of the fields it
    finds, and an empty list of values is as no value: two sets of
    data that have the same non-empty lists of values for these keys
    give the same target and the same error.  Keys that belong to no
    field are ignored. *)
Theorem Unmarshal_relevant_keys data1 data2 v setParseOpts tick :
  match snd (extractFields v) with
  | inl fields =>
      Forall (fun fld => valuesOf data1 (keyOf fld) = valuesOf data2 (keyOf fld)) fields
  | inr _ => True
  end ->
  Unmarshal data1 v setParseOpts tick = Unmarshal data2 v setParseOpts tick.
Proof.
  intros Hsame. unfold Unmarshal.
  destruct (extractFields v) as [v' [fields|e]] eqn:Hx; [|reflexivity].
  cbn [snd] in Hsame.
  destruct (Nat.eqb (length fields) 0); [reflexivity|].
  rewrite (unmarshalLoop_valuesOf data1 data2); [reflexivity|].
  intros fld Hin. rewrite Forall_forall in Hsame. by apply Hsame, list_elem_of_In.
Qed.

Lemma withPointee_pointee (v : any) : withPointee v (pointee v) = v.
Proof.
  destruct v as [|t val]; [reflexivity|].
  destruct val as [| | | | | | | |[s|]| |]; reflexivity.
Qed.

Lemma unmarshalLoop_untouched data pOpts fields strct tick :
  Forall (untouched data) fields ->
  unmarshalLoop data pOpts fields strct tick = (strct, None, tick).
Proof.
  induction 1 as [|fld fields Hfld _ IH]; [reflexivity|].
  cbn [unmarshalLoop]. by rewrite unmarshalField_untouched.
Qed.

(** X5. When no field found has a default value or a value in the
    data, [Unmarshal] returns no error and leaves the target as the
    flattener left it: only the nil pointers to structs are set. *)
Theorem Unmarshal_nothing_to_decode data v setParseOpts tick v' fields :
  extractFields v = (v', inl fields) ->
  fields <> [] ->
  Forall (untouched data) fields ->
  Unmarshal data v setParseOpts tick = (v', None, tick).
Proof.
  intros Hx Hne Hun. unfold Unmarshal. rewrite Hx.
  destruct fields as [|fld fields0] eqn:Hf; [congruence|]. cbn [length Nat.eqb].
  rewrite unmarshalLoop_untouched by assumption.
  by rewrite withPointee_pointee.
Qed.

Lemma parseTag_error tagStr e :
  snd (parseTag tagStr) = Some e -> exists tagProp, e = ErrTagMissingValue tagProp.
Proof.
  unfold parseTag. destruct (String.eqb tagStr ""); [discriminate|].
  apply parseTagLoop_error.
Qed.

Lemma fieldsLoop_tagError fs :
  Forall (fun sf : StructField =>
            forall f path name opts f' e,
              drillField (sfType sf) f path name opts = (f', inr e) -> tagError e) fs ->
  forall path i fvals fvals' e,
    fieldsLoop drillField path i fs fvals = (fvals', inr e) -> tagError e.
Proof.
  induction 1 as [|sf fs Hsf _ IH]; intros path i fvals fvals' e Hloop.
  - destruct fvals; discriminate.
  - destruct fvals as [|f fvals]; [discriminate|]. cbn [fieldsLoop] in Hloop.
    destruct (negb (sfExported sf) || String.eqb (sfTag sf) "-")%bool.
    + destruct (fieldsLoop drillField path (S i) fs fvals) as [vs r] eqn:Hrest.
      injection Hloop as <- ->. eauto.
    + destruct (parseTag (sfTag sf)) as [fieldOpts [pe|]] eqn:Htag.
      * injection Hloop as <- <-.
        destruct (parseTag_error (sfTag sf) pe) as [tagProp ->]; [by rewrite Htag|].
        constructor.
      * destruct (drillField (sfType sf) f (path ++ [SField i]) (sfName sf) fieldOpts)
          as [f1 [found1|de]] eqn:Hdrill.
        -- destruct (fieldsLoop drillField path (S i) fs fvals) as [vs [more|re]] eqn:Hrest;
             [discriminate|].
           injection Hloop as <- <-. eauto.
        -- injection Hloop as <- <-. eauto.
Qed.

Lemma drillField_tagError t :
  forall f path name opts f' e,
    drillField t f path name opts = (f', inr e) -> tagError e.
Proof.
  induction t as [n k|n e0 _|n k e0 _ _|n e0 IH|n fs IH|] using type_nested_ind;
    intros f path name opts f' e Hdrill; try discriminate.
  - cbn [drillField] in Hdrill.
    destruct f as [| | | | | | | |[p|]| |];
      try (destruct (negb (Reflect.Kind_eqb (TypeKind e0) Reflect.Struct));
           [discriminate|];
           destruct (drillField e0 (Zero e0) (path ++ [SDeref]) name opts) as [p' r] eqn:Hd;
           injection Hdrill as <- ->; eauto).
    destruct (drillField e0 p (path ++ [SDeref]) name opts) as [p' r] eqn:Hd.
    injection Hdrill as <- ->. eauto.
  - cbn [drillField] in Hdrill.
    destruct (textUnmarshaler (TStruct n fs)); [discriminate|].
    destruct (binaryUnmarshaler (TStruct n fs)); [discriminate|].
    destruct f as [| | | | | | | | |fvals|]; try discriminate.
    destruct (fieldsLoop drillField path 0 fs fvals) as [fvals' [inner|le]] eqn:Hloop;
      [discriminate|].
    injection Hdrill as <- <-. constructor.
    eapply fieldsLoop_tagError; eauto.
Qed.

Lemma extractFields_error v v' e :
  extractFields v = (v', inr e) -> e = ErrInvalidStruct \/ tagError e.
Proof.
  unfold extractFields. destruct v as [|t val]; [intros [= <- <-]; by left|].
  destruct (negb (Reflect.Kind_eqb (TypeKind t) Reflect.Pointer));
    [intros [= <- <-]; by left|].
  destruct t as [| | |tn te| |]; try (intros [= <- <-]; by left).
  destruct val as [| | | | | | | |[strct|]| |]; try (intros [= <- <-]; by left).
  destruct (negb (Reflect.Kind_eqb (TypeKind te) Reflect.Struct));
    [intros [= <- <-]; by left|].
  destruct te as [| | | |sn fs|]; try discriminate.
  destruct strct as [| | | | | | | | |fvals|]; try discriminate.
  destruct (fieldsLoop drillField [] 0 fs fvals) as [fvals' r] eqn:Hloop.
  intros [= <- ->]. right.
  eapply (fieldsLoop_tagError fs); [|exact Hloop].
  apply Forall_forall. intros sf _. apply drillField_tagError.
Qed.

Lemma unmarshalLoop_error data pOpts fields : forall strct tick strct' e tick',
  unmarshalLoop data pOpts fields strct tick = (strct', Some e, tick') ->
  exists fld cause,
    In fld fields /\
    (defaultValue (options fld) <> "" /\
     e = ErrField (mkFieldError (name fld) (Type_String (ftype fld))
                     (defaultValue (options fld)) cause)
     \/
     exists values,
       data !! keyOf fld = Some values /\ values <> [] /\
       e = ErrParse (mkParseError (name fld) (keyOf fld)
                       (mkFieldError (name fld) (Type_String (ftype fld))
                          (joinValues values pOpts) cause))).
Proof.
  induction fields as [|fld fields IH]; intros strct tick strct' e tick' Hloop;
    [discriminate|].
  cbn [unmarshalLoop] in Hloop.
  destruct (unmarshalField data pOpts fld strct tick) as [[s [e0|]] t] eqn:Hfld.
  - injection Hloop as <- <- <-. unfold unmarshalField, applyDefault in Hfld.
    destruct (String.eqb_spec (defaultValue (options fld)) "") as [Hd|Hd]; cbn [negb] in Hfld.
    + unfold applyInput in Hfld.
      destruct (data !! keyOf fld) as [values|] eqn:Hdata; [|discriminate].
      destruct values as [|v0 vs] eqn:Hvs; [discriminate|]. cbn [length Nat.eqb] in Hfld.
      destruct (processFieldAt false _ fld pOpts strct tick) as [[s2 [cause|]] t2];
        [|discriminate].
      injection Hfld as <- <- <-. exists fld, cause. split; [by left|].
      right. exists (v0 :: vs). by rewrite Hdata.
    + destruct (processFieldAt true _ fld pOpts strct tick) as [[s1 [cause|]] t1].
      * injection Hfld as <- <- <-. exists fld, cause. split; [by left|]. by left.
      * unfold applyInput in Hfld.
        destruct (data !! keyOf fld) as [values|] eqn:Hdata; [|discriminate].
        destruct values as [|v0 vs] eqn:Hvs; [discriminate|]. cbn [length Nat.eqb] in Hfld.
        destruct (processFieldAt false _ fld pOpts s1 t1) as [[s2 [cause|]] t2];
          [|discriminate].
        injection Hfld as <- <- <-. exists fld, cause. split; [by left|].
        right. exists (v0 :: vs). by rewrite Hdata.
  - destruct (IH _ _ _ _ _ Hloop) as (fld' & cause & Hin & Hcases).
    exists fld', cause. split; [by right|assumption].
Qed.

(** X6. The errors of [Unmarshal] are of five kinds only:
    [ErrInvalidStruct]; the error for no fields; the error of a tag,
    which is neither a [FieldError] nor a [ParseError]; a [FieldError]
    for a default value, which is not empty; and a [ParseError] for
    the key of a field found, which has values in the data, the value
    of its [FieldError] being these values joined. *)
Theorem Unmarshal_error_kinds data v setParseOpts tick e :
  snd (fst (Unmarshal data v setParseOpts tick)) = Some e ->
  e = ErrInvalidStruct
  \/ e = ErrNoFields
  \/ (tagError e /\ AsParseError e = None /\ AsFieldError e = None /\
      IsErrInvalidStruct e = false)
  \/ (exists fe, e = ErrField fe /\ fe_value fe <> "")
  \/ (exists pe values,
        e = ErrParse pe /\
        data !! pe_Key pe = Some values /\ values <> [] /\
        fe_value (pe_fe pe) = joinValues values (optionsOf setParseOpts) /\
        fe_fieldName (pe_fe pe) = pe_FieldName pe).
Proof.
  unfold Unmarshal. fold (optionsOf setParseOpts).
  destruct (extractFields v) as [v' [fields|xe]] eqn:Hx.
  - destruct (Nat.eqb (length fields) 0); [intros [= <-]; auto|].
    destruct (unmarshalLoop data (optionsOf setParseOpts) fields (pointee v') tick)
      as [[s err] tick'] eqn:Hloop.
    cbn [fst snd]. intros ->.
    destruct (unmarshalLoop_error _ _ _ _ _ _ _ _ Hloop)
      as (fld & cause & _ & [[Hd ->]|(values & Hdata & Hne & ->)]).
    + do 3 right. left. eexists. split; [reflexivity|exact Hd].
    + do 4 right. eexists _, values. split; [reflexivity|]. cbn. auto.
  - cbn [fst snd]. intros [= <-].
    destruct (extractFields_error _ _ _ Hx) as [->|Htag]; [by left|].
    do 2 right. left. split; [assumption|].
    clear Hx. induction Htag as [fieldName tagProp|e' _ IH]; cbn; auto.
Qed.



End DataAndErrors.


(** ** What [processField] leaves in a field *)

Section FieldContent.
Context `{Host}.

Lemma processField_unfold settingDefault value typ field fOpts pOpts tick :
  builtin typ = true ->
  processField settingDefault value typ field fOpts pOpts tick =
  let field' := pointedValue typ field in
  if (settingDefault && negb (IsZero field'))%bool
  then mkOutcome (asField typ field') None tick
  else
    match pointedType typ with
    | TBasic _ k =>
        let (f, e) := processBasic (pointedType typ) k value field' in
        mkOutcome (asField typ f) e tick
    | TSlice _ et =>
        match sliceLoop (fun val t => processField false val et (Zero et) fOpts pOpts t)
                (Strings.Split value (Delim pOpts)) tick with
        | (_, Some e, tick') => mkOutcome (asField typ field') (Some e) tick'
        | (sl, None, tick') => mkOutcome (asField typ (VSlice (Some sl))) None tick'
        end
    | TMap _ kt et =>
        if negb (Nat.eqb (String.length (Strings.TrimSpace value)) 0) then
          match mapLoop (fun s t => processField false s kt (Zero kt) fOpts pOpts t)
                  (fun s t => processField false s et (Zero et) fOpts pOpts t)
                  (Strings.Split value (Delim pOpts)) [] tick with
          | (_, Some e, tick') => mkOutcome (asField typ field') (Some e) tick'
          | (mp, None, tick') => mkOutcome (asField typ (VMap (Some mp))) None tick'
          end
        else mkOutcome (asField typ (VMap (Some []))) None tick
    | _ => mkOutcome (asField typ field') None tick
    end.
Proof.
  intros (Ht & Htext & Hbin)%builtin_inv.
  destruct typ as [n k|n e|n kt e|n e|n fs|];
    cbn [processField]; cbn [PkgPath Name] in Ht |- *;
    rewrite Ht, Htext, Hbin; reflexivity.
Qed.

Lemma processBasic_error typ k value field e :
  snd (processBasic typ k value field) = Some e ->
  fst (processBasic typ k value field) = field.
Proof.
  unfold processBasic.
  repeat match goal with
         | |- context [if ?b then _ else _] => destruct b
         | |- context [match ?x with _ => _ end] => destruct x
         end; cbn [fst snd]; intros; congruence.
Qed.

(** X8. A value that cannot be decoded leaves the field as it is: when
    [processField] returns an error for a [time.Time] or for a type
    without decoder, the field is unchanged, but that a nil pointer
    points to a new variable that holds the zero value. *)
Theorem processField_error_keeps settingDefault value typ field fOpts pOpts tick e :
  let o := processField settingDefault value typ field fOpts pOpts tick in
  o_err o = Some e ->
  (typ = TTime -> o_field o = field)
  /\ (builtin typ = true -> o_field o = asField typ (pointedValue typ field)).
Proof.
  intros o Herr. split.
  - intros ->. subst o. cbn [processField PkgPath Name] in Herr |- *.
    change (String.eqb "time" "time" && String.eqb (Name TTime) "Time")%bool with true
      in Herr |- *.
    cbv beta iota in Herr |- *.
    destruct (parseTime (Now tick) (layout fOpts) value); [discriminate|reflexivity].
  - intros Hb. subst o. rewrite processField_unfold in Herr |- * by assumption.
    cbv zeta in Herr |- *.
    destruct (settingDefault && negb (IsZero (pointedValue typ field)))%bool;
      [discriminate|].
    destruct (pointedType typ) as [n k|n et|n kt et|n et|n fs|]; try discriminate.
    + pose proof (processBasic_error (TBasic n k) k value (pointedValue typ field)) as Hk.
      destruct (processBasic (TBasic n k) k value (pointedValue typ field)) as [f e0].
      cbn [o_err o_field fst snd] in Herr, Hk |- *. subst e0. by rewrite (Hk e).
    + destruct (sliceLoop _ _ tick) as [[sl [e0|]] tick']; [reflexivity|discriminate].
    + destruct (negb (Nat.eqb (String.length (Strings.TrimSpace value)) 0));
        [|discriminate].
      destruct (mapLoop _ _ _ [] tick) as [[mp [e0|]] tick']; [reflexivity|discriminate].
Qed.

Lemma processBasic_replaces typ k value f1 f2 :
  supportedKind k = true ->
  snd (processBasic typ k value f1) = snd (processBasic typ k value f2) /\
  (snd (processBasic typ k value f1) = None ->
   fst (processBasic typ k value f1) = fst (processBasic typ k value f2)).
Proof.
  unfold supportedKind, processBasic. intros Hk.
  destruct (Reflect.Kind_eqb k Reflect.String); [split; reflexivity|].
  destruct (isIntKind k).
  { destruct (_ && _ && _)%bool.
    - destruct (time_ParseDuration value); cbn; split; congruence.
    - destruct (Strconv.ParseInt value 0 (Bits k)) as [v [e|]]; cbn; split; congruence. }
  destruct (isUintKind k).
  { destruct (Strconv.ParseUint value 0 (Bits k)) as [v [e|]]; cbn; split; congruence. }
  destruct (Reflect.Kind_eqb k Reflect.Bool).
  { destruct (Strconv.ParseBool value); cbn; split; congruence. }
  destruct (isFloatKind k); [|discriminate].
  destruct (strconv_ParseFloat value (Bits k)); cbn; split; congruence.
Qed.

(** The outcome of decoding a value from the data does not depend on
    what the field held, but for the content that a failure leaves. *)
Lemma processField_fresh value typ field1 field2 fOpts pOpts tick :
  typ = TTime \/ (builtin typ = true /\ decodable typ = true) ->
  let o1 := processField false value typ field1 fOpts pOpts tick in
  let o2 := processField false value typ field2 fOpts pOpts tick in
  o_err o1 = o_err o2 /\ o_tick o1 = o_tick o2 /\
  (o_err o1 = None -> o_field o1 = o_field o2).
Proof.
  intros [->|[Hb Hdec]] o1 o2; subst o1 o2.
  - cbn [processField PkgPath Name].
    change (String.eqb "time" "time" && String.eqb (Name TTime) "Time")%bool with true.
    cbv beta iota.
    destruct (parseTime (Now tick) (layout fOpts) value); cbn; split_and!;
      congruence.
  - rewrite !processField_unfold by assumption. cbv zeta. cbn [andb].
    unfold decodable in Hdec.
    destruct (pointedType typ) as [n k|n et|n kt et|n et|n fs|]; try discriminate.
    + destruct (processBasic_replaces (TBasic n k) k value
                  (pointedValue typ field1) (pointedValue typ field2) Hdec) as [He Hf].
      destruct (processBasic (TBasic n k) k value (pointedValue typ field1)) as [g1 e1].
      destruct (processBasic (TBasic n k) k value (pointedValue typ field2)) as [g2 e2].
      cbn [fst snd o_err o_tick o_field] in *. split_and!; [assumption|reflexivity|].
      intros He1. by rewrite (Hf He1).
    + destruct (sliceLoop _ _ tick) as [[sl [e0|]] tick']; cbn; split_and!;
        congruence.
    + destruct (negb (Nat.eqb (String.length (Strings.TrimSpace value)) 0));
        [|cbn; split_and!; congruence].
      destruct (mapLoop _ _ _ [] tick) as [[mp [e0|]] tick']; cbn; split_and!;
        congruence.
Qed.

(** X9. A value from the data replaces the content of the field: for a
    [time.Time], and for a type without decoder that [processField]
    has a case for, the error and the number of calls of [time.Now] do
    not depend on what the field held, and when there is no error the
    new content does not either.  A slice is not appended to and a map
    is not added to. *)
Theorem processField_replaces value typ field1 field2 fOpts pOpts tick :
  typ = TTime \/ (builtin typ = true /\ decodable typ = true) ->
  let o1 := processField false value typ field1 fOpts pOpts tick in
  let o2 := processField false value typ field2 fOpts pOpts tick in
  o_err o1 = o_err o2 /\ o_tick o1 = o_tick o2 /\
  (o_err o1 = None -> o_field o1 = o_field o2).
Proof. apply processField_fresh. Qed.

(** X10. A field of a type that [processField] has no case for (a
    complex number, an array, a channel, a function, an interface, a
    [uintptr], a struct without decoder, a pointer to a pointer) is
    passed over in silence: whatever the value, no error is returned
    and the field is unchanged, but that a nil pointer points to a new
    variable. *)
Theorem processField_unsupported settingDefault value typ field fOpts pOpts tick :
  builtin typ = true ->
  decodable typ = false ->
  processField settingDefault value typ field fOpts pOpts tick =
  mkOutcome (asField typ (pointedValue typ field)) None tick.
Proof.
  intros Hb Hdec. rewrite processField_unfold by assumption. cbv zeta.
  destruct (settingDefault && negb (IsZero (pointedValue typ field)))%bool;
    [reflexivity|].
  unfold decodable in Hdec.
  destruct (pointedType typ) as [n k|n et|n kt et|n et|n fs|];
    try discriminate; try reflexivity.
  unfold supportedKind in Hdec. unfold processBasic.
  destruct (Reflect.Kind_eqb k Reflect.String); [discriminate|].
  destruct (isIntKind k); [discriminate|].
  destruct (isUintKind k); [discriminate|].
  destruct (Reflect.Kind_eqb k Reflect.Bool); [discriminate|].
  destruct (isFloatKind k); [discriminate|reflexivity].
Qed.






End FieldContent.


(** ** The tag parser, segment after segment *)

Section TagSegments.

Lemma genSplit_enough c : forall k1 k2 s,
  (String.length s <= k1)%nat -> (String.length s <= k2)%nat ->
  Strings.genSplit k1 s (String c "") = Strings.genSplit k2 s (String c "").
Proof.
  induction k1 as [|k1 IH]; intros k2 s H1 H2.
  - destruct s; [|cbn in H1; lia]. by destruct k2.
  - destruct k2 as [|k2]; [destruct s; [reflexivity|cbn in H2; lia]|].
    cbn [Strings.genSplit]. pose proof (Cut_char_spec c s) as Hcut.
    destruct (Strings.Cut s (String c "")) as [[a b]|]; [|reflexivity].
    destruct Hcut as [-> _]. rewrite length_app_string in H1, H2.
    cbn [String.length] in H1, H2. f_equal. apply IH; lia.
Qed.

Lemma Split_cut c a b :
  hasByte c a = false ->
  Strings.Split (a +:+ String c b) (String c "") = a :: Strings.Split b (String c "").
Proof.
  intros Ha. unfold Strings.Split. rewrite length_app_string.
  cbn [String.length]. rewrite Nat.add_succ_r. cbn [Strings.genSplit].
  rewrite Cut_char_some by assumption. f_equal. apply genSplit_enough; lia.
Qed.

Lemma Split_none c s :
  hasByte c s = false -> Strings.Split s (String c "") = [s].
Proof.
  intros Hs. unfold Strings.Split. destruct (String.length s); [reflexivity|].
  cbn [Strings.genSplit]. by rewrite Cut_char_none.
Qed.

(** [Split] on a byte, of two strings with the byte between them. *)
Lemma Split_append c b : forall k a,
  (String.length a <= k)%nat ->
  Strings.Split (a +:+ String c b) (String c "") =
  Strings.Split a (String c "") ++ Strings.Split b (String c "").
Proof.
  induction k as [|k IH]; intros a Hlen.
  - destruct a; [|cbn in Hlen; lia]. rewrite (Split_cut c "" b) by reflexivity.
    reflexivity.
  - pose proof (Cut_char_spec c a) as Hcut.
    destruct (Strings.Cut a (String c "")) as [[a1 a2]|].
    + destruct Hcut as [-> Ha1]. rewrite append_assoc, append_cons.
      rewrite (Split_cut c a1 (a2 +:+ String c b)), (Split_cut c a1 a2) by assumption. cbn [app]. f_equal. apply IH.
      rewrite length_app_string in Hlen. cbn [String.length] in Hlen. lia.
    + rewrite (Split_cut c a b), (Split_none c a) by assumption. reflexivity.
Qed.

Lemma Split_no_byte c : forall k s,
  (String.length s <= k)%nat ->
  Forall (fun p => hasByte c p = false) (Strings.Split s (String c "")).
Proof.
  induction k as [|k IH]; intros s Hlen.
  - destruct s; [|cbn in Hlen; lia]. by repeat constructor.
  - pose proof (Cut_char_spec c s) as Hcut.
    destruct (Strings.Cut s (String c "")) as [[a b]|].
    + destruct Hcut as [-> Ha]. rewrite Split_cut by assumption. constructor; [assumption|].
      apply IH. rewrite length_app_string in Hlen. cbn [String.length] in Hlen. lia.
    + rewrite Split_none by assumption. by repeat constructor.
Qed.

Lemma parseTagLoop_app tagParts1 tagParts2 : forall fOpts i,
  parseTagLoop fOpts i (tagParts1 ++ tagParts2) =
  match parseTagLoop fOpts i tagParts1 with
  | (fOpts', Some e) => (fOpts', Some e)
  | (fOpts', None) => parseTagLoop fOpts' (i + length tagParts1) tagParts2
  end.
Proof.
  induction tagParts1 as [|p rest IH]; intros fOpts i.
  - cbn [app parseTagLoop length]. by rewrite Nat.add_0_r.
  - cbn [app parseTagLoop length].
    destruct (parseTagPart fOpts i p) as [fOpts' [e|]]; [reflexivity|].
    rewrite IH. by rewrite Nat.add_succ_r.
Qed.

Lemma parseTagPart_later fOpts i tagPart :
  parseTagPart fOpts (S i) tagPart = parseTagPart fOpts 1 tagPart.
Proof. reflexivity. Qed.

Lemma parseTag_append_loop tagStr rest :
  parseTag (tagStr +:+ String "," rest) =
  match parseTag tagStr with
  | (fOpts, Some e) => (fOpts, Some e)
  | (fOpts, None) =>
      parseTagLoop fOpts (S (countByte "," tagStr)) (Strings.Split rest ",")
  end.
Proof.
  rewrite !parseTag_loop, (Split_append "," rest (String.length tagStr)) by lia.
  rewrite parseTagLoop_app, length_Split. reflexivity.
Qed.

(** X12. A tag with one more segment after a comma: when the tag is
    in error the segment is not read; otherwise the segment is read as
    a part that is not the first.  A segment without colon changes
    nothing: the key is the first segment only.  A segment
    [name:value] whose value is not empty once trimmed sets the default
    value or the layout when the name is [default] or [layout], which
    replaces one set before and leaves the key, and is ignored for
    another name. *)
Theorem parseTag_append tagStr seg :
  hasByte "," seg = false ->
  parseTag (tagStr +:+ String "," seg) =
    match parseTag tagStr with
    | (fOpts, Some e) => (fOpts, Some e)
    | (fOpts, None) => parseTagPart fOpts 1 seg
    end
  /\ (hasByte ":" seg = false ->
      parseTag (tagStr +:+ String "," seg) = parseTag tagStr)
  /\ (forall fOpts name val,
        parseTag tagStr = (fOpts, None) ->
        seg = (name +:+ String ":" val) -> hasByte ":" name = false ->
        Strings.TrimSpace val <> "" ->
        parseTag (tagStr +:+ String "," seg) =
        (if String.eqb (Strings.TrimSpace name) "default"
         then {| key := key fOpts; defaultValue := Strings.TrimSpace val;
                 layout := layout fOpts |}
         else if String.eqb (Strings.TrimSpace name) "layout"
         then {| key := key fOpts; defaultValue := defaultValue fOpts;
                 layout := Strings.TrimSpace val |}
         else fOpts, None)).
Proof.
  intros Hseg.
  assert (Hgen : parseTag (tagStr +:+ String "," seg) =
                 match parseTag tagStr with
                 | (fOpts, Some e) => (fOpts, Some e)
                 | (fOpts, None) => parseTagPart fOpts 1 seg
                 end).
  { rewrite parseTag_append_loop, Split_none by assumption.
    destruct (parseTag tagStr) as [fOpts [e|]]; [reflexivity|].
    cbn [parseTagLoop]. rewrite parseTagPart_later.
    by destruct (parseTagPart fOpts 1 seg) as [f [e|]]. }
  split_and!; [exact Hgen| |].
  - intros Hcolon. rewrite Hgen.
    destruct (parseTag tagStr) as [fOpts [e|]]; [reflexivity|].
    unfold parseTagPart. by rewrite SplitN_2_none.
  - intros fOpts name val Htag -> Hname Hval. rewrite Hgen, Htag.
    unfold parseTagPart. rewrite SplitN_2_some by assumption. cbn [List.nth].
    apply String.eqb_neq in Hval. rewrite Hval.
    destruct (String.eqb (Strings.TrimSpace name) "default"); [reflexivity|].
    destruct (String.eqb (Strings.TrimSpace name) "layout"); reflexivity.
Qed.

(** X13. The first segment in error decides: when [parseTag] returns
    an error for a tag, it returns the same options and the same error
    whatever is written after the tag and a comma. *)
Theorem parseTag_error_sticky tagStr rest :
  snd (parseTag tagStr) <> None ->
  parseTag (tagStr +:+ String "," rest) = parseTag tagStr.
Proof.
  intros Herr. rewrite parseTag_append_loop.
  destruct (parseTag tagStr) as [fOpts [e|]]; [reflexivity|]. by destruct Herr.
Qed.

Lemma hasByte_rev c s : hasByte c (Strings.rev s) = hasByte c s.
Proof.
  induction s as [|x s IH]; [reflexivity|].
  change (String x s) with (String x "" +:+ s).
  rewrite rev_append, !hasByte_append, IH. cbn [Strings.rev hasByte].
  apply orb_comm.
Qed.

Lemma trimLeft_no_byte c runes s : forall skip,
  hasByte c s = false -> hasByte c (Strings.trimLeft runes skip s) = false.
Proof.
  induction s as [|x s IH]; intros skip Hs; [reflexivity|].
  pose proof Hs as Hs'. cbn [hasByte] in Hs'. apply orb_false_elim in Hs' as [_ Htl].
  cbn [Strings.trimLeft]. destruct skip as [|k]; [|by apply IH].
  destruct (Strings.leadingSpace runes (String x s)); [assumption|by apply IH].
Qed.

Lemma TrimSpace_no_byte c s :
  hasByte c s = false -> hasByte c (Strings.TrimSpace s) = false.
Proof.
  intros Hs. unfold Strings.TrimSpace. rewrite hasByte_rev.
  apply trimLeft_no_byte. rewrite hasByte_rev. by apply trimLeft_no_byte.
Qed.

Lemma SplitN_2_no_byte c s sep :
  hasByte c s = false ->
  Forall (fun p => hasByte c p = false) (Strings.SplitN s sep 2).
Proof.
  intros Hs. unfold Strings.SplitN. cbn [Z.eqb Z.ltb Z.compare].
  destruct (Nat.min _ _ - 1)%nat as [|n]; cbn [Strings.genSplit];
    [by repeat constructor|].
  destruct (Strings.Cut s sep) as [[a b]|] eqn:Hcut; [|by repeat constructor].
  apply Cut_append in Hcut. subst s. rewrite !hasByte_append in Hs.
  apply orb_false_elim in Hs as [Ha [_ Hb]%orb_false_elim].
  constructor; [assumption|].
  destruct n; cbn [Strings.genSplit]; [by repeat constructor|].
  destruct (Strings.Cut b sep) as [[b1 b2]|] eqn:Hcut2; [|by repeat constructor].
  apply Cut_append in Hcut2. subst b. rewrite !hasByte_append in Hb.
  apply orb_false_elim in Hb as [Hb1 [_ Hb2]%orb_false_elim].
  constructor; [assumption|].
  assert (Hrest : forall m t, hasByte c t = false ->
            Forall (fun p => hasByte c p = false) (Strings.genSplit m t sep)).
  { clear. induction m as [|m IH]; intros t Ht; cbn [Strings.genSplit];
      [by repeat constructor|].
    destruct (Strings.Cut t sep) as [[t1 t2]|] eqn:Hcut; [|by repeat constructor].
    apply Cut_append in Hcut. subst t. rewrite !hasByte_append in Ht.
    apply orb_false_elim in Ht as [Ht1 [_ Ht2]%orb_false_elim].
    constructor; auto. }
  by apply Hrest.
Qed.

Lemma parseTagPart_commaFree fOpts i tagPart :
  commaFree fOpts = true -> hasByte "," tagPart = false ->
  commaFree (fst (parseTagPart fOpts i tagPart)) = true.
Proof.
  intros Hf Hp. unfold parseTagPart.
  pose proof (SplitN_2_no_byte "," tagPart ":" Hp) as Hvals.
  destruct (Strings.SplitN tagPart ":" 2) as [|a [|b [|x l]]]; cbn [fst]; try assumption.
  - apply Forall_cons in Hvals as [Ha _]. cbn [List.nth].
    destruct (Nat.eqb i 0); [|assumption]. cbn [fst].
    unfold commaFree in Hf |- *. cbn [key defaultValue layout].
    rewrite TrimSpace_no_byte by assumption.
    apply andb_prop in Hf as [[_ ->]%andb_prop ->]. reflexivity.
  - apply Forall_cons in Hvals as [_ [Hb _]%Forall_cons].
    apply (TrimSpace_no_byte "," b) in Hb.
    destruct (String.eqb (Strings.TrimSpace b) ""); [assumption|].
    unfold commaFree in Hf. apply andb_prop in Hf as [[Hk Hd]%andb_prop Hl].
    cbn [List.nth].
    destruct (String.eqb (Strings.TrimSpace a) "default");
      [|destruct (String.eqb (Strings.TrimSpace a) "layout")];
      cbn [fst]; unfold commaFree; cbn [key defaultValue layout];
      rewrite ?Hk, ?Hd, ?Hl, ?Hb; reflexivity.
Qed.

Lemma parseTagLoop_commaFree tagParts : forall fOpts i,
  commaFree fOpts = true ->
  Forall (fun p => hasByte "," p = false) tagParts ->
  commaFree (fst (parseTagLoop fOpts i tagParts)) = true.
Proof.
  induction tagParts as [|p rest IH]; intros fOpts i Hf Hall; [assumption|].
  apply Forall_cons in Hall as [Hp Hrest]. cbn [parseTagLoop].
  pose proof (parseTagPart_commaFree fOpts i p Hf Hp) as Hpart.
  destruct (parseTagPart fOpts i p) as [fOpts' [e|]]; [assumption|]. by apply IH.
Qed.

(** X14. No option that [parseTag] returns has a comma in it: the
    key, the default value and the layout are parts of the pieces
    between the commas of the tag.  A default value cannot hold a
    comma. *)
Theorem parseTag_no_comma tagStr :
  commaFree (fst (parseTag tagStr)) = true.
Proof.
  rewrite parseTag_loop. apply parseTagLoop_commaFree; [reflexivity|].
  by apply (Split_no_byte "," (String.length tagStr)).
Qed.

End TagSegments.


(** ** [Unmarshal], field by field *)

Section FieldByField.
Context `{Host}.

Lemma setAt_setAt path a b : forall v,
  setAt path b (setAt path a v) = setAt path b v.
Proof.
  induction path as [|[i|] rest IH]; intros v; cbn [setAt]; [reflexivity| |].
  - destruct v as [| | | | | | | | |fs|]; try reflexivity.
    destruct (fs !! i) as [f|] eqn:Hf; cbn [setAt]; [|by rewrite Hf].
    rewrite list_lookup_insert_eq by (eapply lookup_lt_Some; eauto).
    by rewrite IH, list_insert_insert_eq.
  - destruct v as [| | | | | | | |[p|]| |]; try reflexivity.
    cbn [setAt]. by rewrite IH.
Qed.

Lemma setAt_getAt path : forall v cur,
  getAt path v = Some cur -> setAt path cur v = v.
Proof.
  induction path as [|[i|] rest IH]; intros v cur; cbn [getAt setAt].
  - by intros [= ->].
  - destruct v as [| | | | | | | | |fs|]; try discriminate.
    destruct (fs !! i) as [f|] eqn:Hf; [|discriminate].
    intros Hget. rewrite (IH _ _ Hget). by rewrite list_insert_id.
  - destruct v as [| | | | | | | |[p|]| |]; try discriminate.
    intros Hget. by rewrite (IH _ _ Hget).
Qed.

(** The body of the loop of [Unmarshal] for a field is what it is for
    the field alone, on the variable of the field. *)
Lemma unmarshalField_alone data pOpts fld strct tick cur :
  getAt (fpath fld) strct = Some cur ->
  unmarshalField data pOpts fld strct tick =
  match unmarshalField data pOpts (alone fld) cur tick with
  | (c, e, t) => (setAt (fpath fld) c strct, e, t)
  end.
Proof.
  intros Hget. unfold unmarshalField, applyDefault, applyInput, processFieldAt.
  change (keyOf (alone fld)) with (keyOf fld).
  cbn [alone fpath ftype options name getAt setAt].
  assert (Hin : forall s c t,
            getAt (fpath fld) s = Some c ->
            setAt (fpath fld) c strct = s ->
            match data !! keyOf fld with
            | Some values =>
                if Nat.eqb (length values) 0 then (s, None, t)
                else
                  match
                    match getAt (fpath fld) s with
                    | Some cur0 =>
                        (setAt (fpath fld)
                           (o_field (processField false (joinValues values pOpts) (ftype fld)
                                       cur0 (options fld) pOpts t)) s,
                         o_err (processField false (joinValues values pOpts) (ftype fld)
                                  cur0 (options fld) pOpts t),
                         o_tick (processField false (joinValues values pOpts) (ftype fld)
                                   cur0 (options fld) pOpts t))
                    | None => (s, None, t)
                    end
                  with
                  | (s0, Some err, t0) =>
                      (s0, Some (ErrParse (mkParseError (name fld) (keyOf fld)
                             (mkFieldError (name fld) (Type_String (ftype fld))
                                (joinValues values pOpts) err))), t0)
                  | (s0, None, t0) => (s0, None, t0)
                  end
            | None => (s, None, t)
            end =
            match
              match data !! keyOf fld with
              | Some values =>
                  if Nat.eqb (length values) 0 then (c, None, t)
                  else
                    match
                      (o_field (processField false (joinValues values pOpts) (ftype fld)
                                  c (options fld) pOpts t),
                       o_err (processField false (joinValues values pOpts) (ftype fld)
                                c (options fld) pOpts t),
                       o_tick (processField false (joinValues values pOpts) (ftype fld)
                                 c (options fld) pOpts t))
                    with
                    | (s0, Some err, t0) =>
                        (s0, Some (ErrParse (mkParseError (name fld) (keyOf fld)
                               (mkFieldError (name fld) (Type_String (ftype fld))
                                  (joinValues values pOpts) err))), t0)
                    | (s0, None, t0) => (s0, None, t0)
                    end
              | None => (c, None, t)
              end
            with
            | (c0, e, t0) => (setAt (fpath fld) c0 strct, e, t0)
            end).
  { intros s c t Hs Hset.
    destruct (data !! keyOf fld) as [values|]; [|by rewrite Hset].
    destruct (Nat.eqb (length values) 0); [by rewrite Hset|].
    rewrite Hs.
    destruct (o_err (processField false _ (ftype fld) c (options fld) pOpts t));
      by rewrite <- Hset, setAt_setAt. }
  destruct (negb (String.eqb (defaultValue (options fld)) "")).
  - rewrite Hget.
    destruct (o_err (processField true _ (ftype fld) cur (options fld) pOpts tick))
      eqn:Herr; [reflexivity|].
    apply Hin; [by eapply getAt_setAt|reflexivity].
  - apply Hin; [assumption|by apply setAt_getAt].
Qed.

Lemma apart_app found1 found2 :
  apart found1 -> apart found2 ->
  (forall a b, In a found1 -> In b found2 -> diverge (fpath a) (fpath b)) ->
  apart (found1 ++ found2).
Proof.
  unfold apart. induction 1 as [|a l Ha _ IH]; intros H2 Hcross; [assumption|].
  cbn [app]. constructor.
  - apply Forall_app. split; [assumption|].
    apply Forall_forall. intros b Hb%list_elem_of_In. apply Hcross; [by left|assumption].
  - apply IH; [assumption|]. intros x y Hx Hy. apply Hcross; [by right|assumption].
Qed.

Lemma fieldsLoop_apart fs :
  Forall (fun sf : StructField =>
            forall f path name opts f' found,
              hasType (sfType sf) f = true ->
              drillField (sfType sf) f path name opts = (f', inl found) ->
              apart found) fs ->
  forall path i fvals fvals' found,
    fieldsTyped fs fvals = true ->
    fieldsLoop drillField path i fs fvals = (fvals', inl found) ->
    apart found.
Proof.
  induction 1 as [|sf fs Hsf Hfs IH]; intros path i fvals fvals' found Hty Hloop.
  - destruct fvals; cbn in Hloop; injection Hloop as <- <-; constructor.
  - destruct fvals as [|f fvals]; [discriminate|].
    cbn [fieldsTyped] in Hty. apply andb_prop in Hty as [Hf Hfvals].
    cbn [fieldsLoop] in Hloop.
    destruct (negb (sfExported sf) || String.eqb (sfTag sf) "-")%bool.
    + destruct (fieldsLoop drillField path (S i) fs fvals) as [vs r] eqn:Hrest.
      injection Hloop as <- ->. eauto.
    + destruct (parseTag (sfTag sf)) as [fieldOpts [e|]]; [discriminate|].
      destruct (drillField (sfType sf) f (path ++ [SField i]) (sfName sf) fieldOpts)
        as [f1 [found1|e]] eqn:Hdrill; [|discriminate].
      destruct (fieldsLoop drillField path (S i) fs fvals) as [vs [more|e]] eqn:Hrest;
        [|discriminate].
      injection Hloop as <- <-.
      apply apart_app; [eauto|eauto|].
      intros a b Ha Hb.
      destruct (drillField_reaches _ _ _ _ _ _ _ Hf Hdrill) as [Hreach1 _].
      destruct (Hreach1 a Ha) as (rel & cur & -> & _).
      assert (Hall : Forall (fun sf : StructField =>
                forall f path name opts f' found,
                  hasType (sfType sf) f = true ->
                  drillField (sfType sf) f path name opts = (f', inl found) ->
                  reaches path f' found /\ independent found) fs).
      { apply Forall_forall. intros sf' _. apply drillField_reaches. }
      destruct (fieldsLoop_reaches fs Hall _ _ _ _ _ Hfvals Hrest) as [Hreach2 _].
      destruct (Hreach2 b Hb) as (k & rel' & fk & cur' & -> & _).
      rewrite <- app_assoc. apply diverge_app. cbn [app]. constructor. lia.
Qed.

Lemma drillField_apart t :
  forall f path name opts f' found,
    hasType t f = true ->
    drillField t f path name opts = (f', inl found) ->
    apart found.
Proof.
  assert (Hleaf : forall fld, apart [fld]) by (intros; repeat constructor).
  induction t as [n k|n e _|n k e _ _|n e IH|n fs IH|] using type_nested_ind;
    intros f path name opts f' found Hty Hdrill;
    try (cbn [drillField] in Hdrill; injection Hdrill as <- <-; apply Hleaf).
  - cbn [drillField] in Hdrill.
    destruct f as [| | | | | | | |[p|]| |]; try discriminate.
    + cbn [hasType] in Hty.
      destruct (drillField e p (path ++ [SDeref]) name opts) as [p' r] eqn:Hd.
      injection Hdrill as <- ->. eauto.
    + destruct (Reflect.Kind_eqb (TypeKind e) Reflect.Struct); cbn [negb] in Hdrill.
      * destruct (drillField e (Zero e) (path ++ [SDeref]) name opts) as [p' r] eqn:Hd.
        injection Hdrill as <- ->. eapply IH; [apply hasType_Zero|exact Hd].
      * injection Hdrill as <- <-. apply Hleaf.
  - cbn [drillField] in Hdrill.
    destruct (textUnmarshaler (TStruct n fs)); [injection Hdrill as <- <-; apply Hleaf|].
    destruct (binaryUnmarshaler (TStruct n fs)); [injection Hdrill as <- <-; apply Hleaf|].
    destruct f as [| | | | | | | | |fvals|]; try discriminate.
    rewrite hasType_struct in Hty.
    destruct (fieldsLoop drillField path 0 fs fvals) as [fvals' [inner|e]] eqn:Hloop;
      [|discriminate].
    injection Hdrill as <- <-. eapply fieldsLoop_apart; eauto.
Qed.

(** What the flattener returns for a target that is a value of its
    type, when it finds fields: the target points to a struct, each
    field found is a variable of this struct, and these variables are
    apart. *)
Lemma extractFields_shape t v v' fld fields :
  hasType t v = true ->
  extractFields (Iface t v) = (v', inl (fld :: fields)) ->
  exists fvals',
    v' = Iface t (VPtr (Some (VStruct fvals'))) /\
    reaches [] (VStruct fvals') (fld :: fields) /\ apart (fld :: fields).
Proof.
  intros Hty Hx. unfold extractFields in Hx.
  destruct (negb (Reflect.Kind_eqb (TypeKind t) Reflect.Pointer)); [discriminate|].
  destruct t as [| | |tn te| |]; try discriminate.
  destruct v as [| | | | | | | |[strct|]| |]; try discriminate.
  destruct (negb (Reflect.Kind_eqb (TypeKind te) Reflect.Struct)); [discriminate|].
  destruct te as [| | | |sn fs|]; try discriminate.
  destruct strct as [| | | | | | | | |fvals|]; try discriminate.
  destruct (fieldsLoop drillField [] 0 fs fvals) as [fvals' r] eqn:Hloop.
  injection Hx as <- ->. exists fvals'. split; [reflexivity|].
  cbn [hasType] in Hty. change (hasType (TStruct sn fs) (VStruct fvals) = true) in Hty.
  rewrite hasType_struct in Hty.
  assert (Hall : Forall (fun sf : StructField =>
            forall f path name opts f' found,
              hasType (sfType sf) f = true ->
              drillField (sfType sf) f path name opts = (f', inl found) ->
              reaches path f' found /\ independent found) fs).
  { apply Forall_forall. intros sf _. apply drillField_reaches. }
  destruct (fieldsLoop_reaches fs Hall _ _ _ _ _ Hty Hloop) as [Hreach _].
  split.
  - intros fld' Hin'.
    destruct (Hreach fld' Hin') as (k & rel & fk & cur & Hp & Hk & Hg & Hl).
    exists (SField k :: rel), cur. split_and!; try assumption.
    cbn [getAt]. by rewrite Hk.
  - eapply fieldsLoop_apart; [|exact Hty|exact Hloop].
    apply Forall_forall. intros sf _. apply drillField_apart.
Qed.

(** The loop of [Unmarshal] over fields that are apart, when no field
    fails: each field holds what the body of the loop leaves in it
    when it is run on this field alone. *)
Lemma unmarshalLoop_success data pOpts fields : forall strct tick s' t',
  apart fields ->
  (forall fld, In fld fields -> getAt (fpath fld) strct <> None) ->
  unmarshalLoop data pOpts fields strct tick = (s', None, t') ->
  forall fld cur, In fld fields -> getAt (fpath fld) strct = Some cur ->
    exists t1 c t2,
      unmarshalField data pOpts (alone fld) cur t1 = (c, None, t2) /\
      getAt (fpath fld) s' = Some c.
Proof.
  induction fields as [|f rest IH]; intros strct tick s' t' Hap Hsome Hloop fld cur Hin Hget;
    [destruct Hin|].
  inversion Hap as [|? ? Hf Hrest]; subst.
  cbn [unmarshalLoop] in Hloop.
  destruct (getAt (fpath f) strct) as [curf|] eqn:Hgf;
    [|by destruct (Hsome f (or_introl eq_refl))].
  pose proof (unmarshalField_alone data pOpts f strct tick curf Hgf) as Hal.
  destruct (unmarshalField data pOpts (alone f) curf tick) as [[c e] t] eqn:Halone.
  rewrite Hal in Hloop. destruct e as [e|]; [discriminate|].
  assert (Hkeep : forall g, In g rest ->
            getAt (fpath g) (setAt (fpath f) c strct) = getAt (fpath g) strct).
  { intros g Hg. apply getAt_setAt_diverge.
    rewrite Forall_forall in Hf. by apply Hf, list_elem_of_In. }
  destruct Hin as [<-|Hin].
  - exists tick, c, t. rewrite Hgf in Hget. injection Hget as <-.
    split; [assumption|].
    pose proof (unmarshalLoop_frame data pOpts rest (fpath f)
                  (setAt (fpath f) c strct) t) as Hframe.
    rewrite Hloop in Hframe. cbn [fst] in Hframe. rewrite Hframe.
    + by eapply getAt_setAt.
    + apply Forall_forall. intros g Hg%list_elem_of_In. right.
      apply diverge_sym. rewrite Forall_forall in Hf. by apply Hf, list_elem_of_In.
  - eapply (IH (setAt (fpath f) c strct) t s' t'); try eassumption.
    + intros g Hg. rewrite Hkeep by assumption. by apply Hsome; right.
    + by rewrite Hkeep.
Qed.

(** The loop when a field fails: the fields before it hold what was
    decoded into them, the field holds what its body of the loop leaves,
    and the fields after it are as they were. *)
Lemma unmarshalLoop_failure data pOpts fields : forall strct tick s' e t',
  apart fields ->
  (forall fld, In fld fields -> getAt (fpath fld) strct <> None) ->
  unmarshalLoop data pOpts fields strct tick = (s', Some e, t') ->
  exists before fld after cur t1 c,
    fields = before ++ fld :: after /\
    getAt (fpath fld) strct = Some cur /\
    unmarshalField data pOpts (alone fld) cur t1 = (c, Some e, t') /\
    getAt (fpath fld) s' = Some c /\
    (forall g curg, In g before -> getAt (fpath g) strct = Some curg ->
       exists t2 cg t3,
         unmarshalField data pOpts (alone g) curg t2 = (cg, None, t3) /\
         getAt (fpath g) s' = Some cg) /\
    (forall g, In g after -> getAt (fpath g) s' = getAt (fpath g) strct).
Proof.
  induction fields as [|f rest IH]; intros strct tick s' e t' Hap Hsome Hloop;
    [discriminate|].
  inversion Hap as [|? ? Hf Hrest]; subst.
  cbn [unmarshalLoop] in Hloop.
  destruct (getAt (fpath f) strct) as [curf|] eqn:Hgf;
    [|by destruct (Hsome f (or_introl eq_refl))].
  pose proof (unmarshalField_alone data pOpts f strct tick curf Hgf) as Hal.
  destruct (unmarshalField data pOpts (alone f) curf tick) as [[c e0] t] eqn:Halone.
  rewrite Hal in Hloop.
  assert (Hkeep : forall g, In g rest ->
            getAt (fpath g) (setAt (fpath f) c strct) = getAt (fpath g) strct).
  { intros g Hg. apply getAt_setAt_diverge.
    rewrite Forall_forall in Hf. by apply Hf, list_elem_of_In. }
  destruct e0 as [e0|].
  - injection Hloop as <- <- <-.
    exists [], f, rest, curf, tick, c. split_and!; try done.
    by eapply getAt_setAt.
  - destruct (IH (setAt (fpath f) c strct) t s' e t' Hrest) as
      (before & fld & after & cur & t1 & c1 & -> & Hcur & Hun & Hfinal & Hbefore & Hafter);
      [|assumption|].
    { intros g Hg. rewrite Hkeep by assumption. by apply Hsome; right. }
    exists (f :: before), fld, after, cur, t1, c1.
    assert (Hfld : In fld (before ++ fld :: after)) by (apply in_or_app; right; by left).
    split_and!; try done.
    + by rewrite <- (Hkeep fld Hfld).
    + intros g curg [<-|Hg] Hgg.
      * exists tick, c, t. rewrite Hgf in Hgg. injection Hgg as <-.
        split; [assumption|].
        pose proof (unmarshalLoop_frame data pOpts (before ++ fld :: after) (fpath f)
                      (setAt (fpath f) c strct) t) as Hframe.
        rewrite Hloop in Hframe. cbn [fst] in Hframe. rewrite Hframe.
        -- by eapply getAt_setAt.
        -- apply Forall_forall. intros g Hg%list_elem_of_In. right.
           apply diverge_sym. rewrite Forall_forall in Hf. by apply Hf, list_elem_of_In.
      * apply Hbefore; [assumption|].
        rewrite Hkeep; [assumption|]. apply in_or_app. by left.
    + intros g Hg. rewrite Hafter by assumption.
      apply Hkeep. apply in_or_app. right. by right.
Qed.

(** X15. [Unmarshal] decodes each field on its own.  For a target
    that is a value of its type and whose pointers share no variable
    (a [VPtr] holds the variable it points to), when [Unmarshal]
    returns no error,
    each field found holds what the body of the loop (the default
    value, then the values of the key) leaves in it when it is run on
    this field alone, from what the field held after the flattening:
    what is decoded into a field depends on no other field. *)
Theorem Unmarshal_field_by_field data t v setParseOpts tick v' fields fld cur :
  hasType t v = true ->
  extractFields (Iface t v) = (v', inl fields) ->
  snd (fst (Unmarshal data (Iface t v) setParseOpts tick)) = None ->
  In fld fields ->
  getAt (fpath fld) (pointee v') = Some cur ->
  exists t1 c t2,
    unmarshalField data (optionsOf setParseOpts) (alone fld) cur t1 = (c, None, t2) /\
    getAt (fpath fld)
      (pointee (fst (fst (Unmarshal data (Iface t v) setParseOpts tick)))) = Some c.
Proof.
  intros Hty Hx Herr Hin Hget.
  destruct fields as [|f0 fields0] eqn:Hfields; [destruct Hin|].
  destruct (extractFields_shape _ _ _ _ _ Hty Hx) as (fvals' & -> & Hreach & Hap).
  unfold Unmarshal in Herr |- *. rewrite Hx in Herr |- *.
  cbn [length Nat.eqb] in Herr |- *. fold (optionsOf setParseOpts) in Herr |- *.
  cbn [pointee] in Herr, Hget |- *.
  destruct (unmarshalLoop data (optionsOf setParseOpts) (f0 :: fields0)
              (VStruct fvals') tick) as [[s err] tick'] eqn:Hloop.
  cbn [fst snd withPointee pointee] in Herr |- *. subst err.
  eapply unmarshalLoop_success; try eassumption.
  intros g Hg. destruct (Hreach g Hg) as (rel & curg & Hp & Hgg & _).
  cbn [app] in Hp. rewrite Hp, Hgg. discriminate.
Qed.

(** X16. [Unmarshal] undoes nothing when it fails in the loop over
    the fields.  For a target that is a value of its type and whose
    pointers share no variable, the error
    is the one of the first field whose body of the loop fails; the
    fields found before it hold what was decoded into them, and the
    fields found after it are as the flattening left them. *)
Theorem Unmarshal_fails_midway data t v setParseOpts tick v' fields e :
  hasType t v = true ->
  extractFields (Iface t v) = (v', inl fields) ->
  fields <> [] ->
  snd (fst (Unmarshal data (Iface t v) setParseOpts tick)) = Some e ->
  let final := pointee (fst (fst (Unmarshal data (Iface t v) setParseOpts tick))) in
  exists before fld after cur t1 c,
    fields = before ++ fld :: after /\
    getAt (fpath fld) (pointee v') = Some cur /\
    unmarshalField data (optionsOf setParseOpts) (alone fld) cur t1 =
      (c, Some e, snd (Unmarshal data (Iface t v) setParseOpts tick)) /\
    getAt (fpath fld) final = Some c /\
    (forall g curg, In g before -> getAt (fpath g) (pointee v') = Some curg ->
       exists t2 cg t3,
         unmarshalField data (optionsOf setParseOpts) (alone g) curg t2 = (cg, None, t3) /\
         getAt (fpath g) final = Some cg) /\
    (forall g, In g after -> getAt (fpath g) final = getAt (fpath g) (pointee v')).
Proof.
  intros Hty Hx Hne Herr.
  destruct fields as [|f0 fields0] eqn:Hfields; [congruence|].
  destruct (extractFields_shape _ _ _ _ _ Hty Hx) as (fvals' & -> & Hreach & Hap).
  unfold Unmarshal in Herr |- *. rewrite Hx in Herr |- *.
  cbn [length Nat.eqb] in Herr |- *. fold (optionsOf setParseOpts) in Herr |- *.
  cbn [pointee] in Herr |- *.
  destruct (unmarshalLoop data (optionsOf setParseOpts) (f0 :: fields0)
              (VStruct fvals') tick) as [[s err] tick'] eqn:Hloop.
  cbn [fst snd withPointee pointee] in Herr |- *. subst err. cbv zeta.
  eapply unmarshalLoop_failure; try eassumption.
  intros g Hg. destruct (Hreach g Hg) as (rel & curg & Hp & Hgg & _).
  cbn [app] in Hp. rewrite Hp, Hgg. discriminate.
Qed.

(** X21. The values of the data win over the default value.  For a
    field of [time.Time], or of a type without decoder that
    [processField] has a case for, that has a default value and values
    in the data: when the default value and the values are decoded
    without error, the field holds what the values decoded into the
    field as it was give; nothing of the default value is left. *)
Theorem unmarshalField_input_over_default data pOpts fld strct tick values cur :
  ftype fld = TTime \/ (builtin (ftype fld) = true /\ decodable (ftype fld) = true) ->
  getAt (fpath fld) strct = Some cur ->
  defaultValue (options fld) <> "" ->
  data !! keyOf fld = Some values -> values <> [] ->
  let od := processField true (defaultValue (options fld)) (ftype fld) cur (options fld)
              pOpts tick in
  let oi := processField false (joinValues values pOpts) (ftype fld) cur (options fld)
              pOpts (o_tick od) in
  o_err od = None -> o_err oi = None ->
  unmarshalField data pOpts fld strct tick =
  (setAt (fpath fld) (o_field oi) strct, None, o_tick oi).
Proof.
  intros Htyp Hget Hdef Hdata Hne od oi Hod Hoi.
  unfold unmarshalField, applyDefault, applyInput, processFieldAt.
  apply String.eqb_neq in Hdef. rewrite Hdef. cbn [negb]. rewrite Hget.
  fold od. rewrite Hod, Hdata.
  destruct values as [|v0 vs]; [congruence|]. cbn [length Nat.eqb].
  rewrite (getAt_setAt _ _ _ _ Hget).
  destruct (processField_fresh (joinValues (v0 :: vs) pOpts) (ftype fld) (o_field od) cur
              (options fld) pOpts (o_tick od) Htyp) as (He & Ht & Hf).
  fold oi in He, Ht, Hf. rewrite He, Ht, Hoi.
  rewrite Hf by congruence. by rewrite setAt_setAt.
Qed.


End FieldByField.


(** ** The flattener: the fields it passes over, and a second run *)

Section Flattener.
Context `{Host}.





Lemma fieldsLoop_again fs :
  Forall (fun sf : StructField =>
            forall f path name opts f' r,
              drillField (sfType sf) f path name opts = (f', r) ->
              drillField (sfType sf) f' path name opts = (f', r)) fs ->
  forall path i fvals fvals' r,
    fieldsLoop drillField path i fs fvals = (fvals', r) ->
    fieldsLoop drillField path i fs fvals' = (fvals', r).
Proof.
  induction 1 as [|sf fs Hsf _ IH]; intros path i fvals fvals' r Hloop.
  - destruct fvals; cbn in Hloop; injection Hloop as <- <-; reflexivity.
  - destruct fvals as [|f fvals]; [by injection Hloop as <- <-|].
    cbn [fieldsLoop] in Hloop |- *.
    destruct (negb (sfExported sf) || String.eqb (sfTag sf) "-")%bool eqn:Hs.
    + destruct (fieldsLoop drillField path (S i) fs fvals) as [vs r0] eqn:Hrest.
      injection Hloop as <- <-. cbn [fieldsLoop]. rewrite ?Hs.
      by rewrite (IH _ _ _ _ _ Hrest).
    + destruct (parseTag (sfTag sf)) as [fieldOpts [pe|]] eqn:Htag.
      { injection Hloop as <- <-. cbn [fieldsLoop]. by rewrite ?Hs, ?Htag. }
      destruct (drillField (sfType sf) f (path ++ [SField i]) (sfName sf) fieldOpts)
        as [f1 [found1|de]] eqn:Hd.
      * destruct (fieldsLoop drillField path (S i) fs fvals) as [vs [more|re]] eqn:Hrest;
          injection Hloop as <- <-; cbn [fieldsLoop];
          by rewrite ?Hs, ?Htag, (Hsf _ _ _ _ _ _ Hd), (IH _ _ _ _ _ Hrest).
      * injection Hloop as <- <-. cbn [fieldsLoop].
        by rewrite ?Hs, ?Htag, (Hsf _ _ _ _ _ _ Hd).
Qed.

Lemma drillField_again t :
  forall f path name opts f' r,
    drillField t f path name opts = (f', r) ->
    drillField t f' path name opts = (f', r).
Proof.
  induction t as [n k|n e _|n k e _ _|n e IH|n fs IH|] using type_nested_ind;
    intros f path name opts f' r Hdrill;
    try (cbn [drillField] in Hdrill |- *; by injection Hdrill as <- <-).
  - cbn [drillField] in Hdrill.
    assert (Hinner : forall p p' r0,
              drillField e p (path ++ [SDeref]) name opts = (p', r0) ->
              drillField (TPtr n e) (VPtr (Some p')) path name opts = (VPtr (Some p'), r0)).
    { intros p p' r0 Hd. cbn [drillField]. by rewrite (IH _ _ _ _ _ _ Hd). }
    destruct f as [| | | | | | | |[p|]| |];
      try (destruct (negb (Reflect.Kind_eqb (TypeKind e) Reflect.Struct)) eqn:Hk;
           [injection Hdrill as <- <-; cbn [drillField]; by rewrite Hk|];
           destruct (drillField e (Zero e) (path ++ [SDeref]) name opts) as [p' r0] eqn:Hd;
           injection Hdrill as <- <-; eapply Hinner; eauto).
    destruct (drillField e p (path ++ [SDeref]) name opts) as [p' r0] eqn:Hd.
    injection Hdrill as <- <-. eapply Hinner; eauto.
  - cbn [drillField] in Hdrill |- *.
    destruct (textUnmarshaler (TStruct n fs)); [by injection Hdrill as <- <-|].
    destruct (binaryUnmarshaler (TStruct n fs)); [by injection Hdrill as <- <-|].
    destruct f as [| | | | | | | | |fvals|]; try by injection Hdrill as <- <-.
    destruct (fieldsLoop drillField path 0 fs fvals) as [fvals' r0] eqn:Hloop.
    apply (fieldsLoop_again fs IH) in Hloop.
    destruct r0 as [inner|e]; injection Hdrill as <- <-; by rewrite Hloop.
Qed.

(** X18. The flattener run again on the target it returns changes
    nothing and finds the same fields, or the same error: the structs
    that it made for nil pointers are followed as any other. *)
Theorem extractFields_again v v' r :
  extractFields v = (v', r) -> extractFields v' = (v', r).
Proof.
  unfold extractFields. destruct v as [|t val]; [by intros [= <- <-]|].
  destruct (negb (Reflect.Kind_eqb (TypeKind t) Reflect.Pointer)) eqn:Hk;
    [intros [= <- <-]; by rewrite Hk|].
  destruct t as [| | |tn te| |]; try (intros [= <- <-]; by rewrite Hk).
  destruct val as [| | | | | | | |[strct|]| |]; try (intros [= <- <-]; by rewrite Hk).
  destruct (negb (Reflect.Kind_eqb (TypeKind te) Reflect.Struct)) eqn:Hs;
    [intros [= <- <-]; by rewrite Hk, Hs|].
  destruct te as [| | | |sn fs|]; try (intros [= <- <-]; by rewrite Hk, Hs).
  destruct strct as [| | | | | | | | |fvals|]; try (intros [= <- <-]; by rewrite Hk, Hs).
  destruct (fieldsLoop drillField [] 0 fs fvals) as [fvals' r0] eqn:Hloop.
  intros [= <- <-]. rewrite Hk, Hs.
  assert (Hall : Forall (fun sf : StructField =>
            forall f path name opts f' r,
              drillField (sfType sf) f path name opts = (f', r) ->
              drillField (sfType sf) f' path name opts = (f', r)) fs).
  { apply Forall_forall. intros sf _. apply drillField_again. }
  by rewrite (fieldsLoop_again fs Hall _ _ _ _ _ Hloop).
Qed.

End Flattener.


(** ** White space in a "now" based expression *)

Section NowSpaces.
Context `{Host}.

Lemma parseTime_now_body now layout body :
  body <> "" ->
  parseTime now layout ("now" +:+ body) =
  match parseParts {| years := 0; months := 0; days := 0 |}
          (Strings.Split
             (Strings.TrimSpace (Strings.ReplaceSigns (Strings.TrimSpace body))) " ") with
  | inr e => inr e
  | inl r => inl (AddDate now (years r) (months r) (days r))
  end.
Proof.
  intros Hne. unfold parseTime.
  change ("now" +:+ body) with (String "n" (String "o" (String "w" body))).
  assert (String.eqb (String "n" (String "o" (String "w" body))) "now" = false) as ->.
  { apply String.eqb_neq. intros [= ->]. by destruct Hne. }
  unfold Strings.HasPrefix. cbn [String.prefix Strings.drop].
  destruct (ascii_dec "n" "n"); [|congruence].
  destruct (ascii_dec "o" "o"); [|congruence].
  destruct (ascii_dec "w" "w"); [|congruence].
  by rewrite prefix_nil.
Qed.

(** X19. White space of ASCII around what follows ["now"] is not
    seen: the expression is read as without it.  But ["now"] followed
    by white space only is not ["now"]: it is an error. *)
Theorem parseTime_now_padding now layout l body r :
  blank l = true -> blank r = true ->
  (body <> "" ->
   parseTime now layout ("now" +:+ (l +:+ (body +:+ r))) =
   parseTime now layout ("now" +:+ body))
  /\ ((l +:+ r) <> "" ->
      parseTime now layout ("now" +:+ (l +:+ r)) = inr ErrNowFormat).
Proof.
  intros Hl Hr. split.
  - intros Hne. rewrite !parseTime_now_body.
    + by rewrite TrimSpace_pad.
    + assumption.
    + destruct l; [destruct body; [congruence|discriminate]|discriminate].
  - intros Hne. rewrite parseTime_now_body by assumption.
    replace (l +:+ r) with (l +:+ ("" +:+ r)) by (by rewrite append_nil_l).
    rewrite TrimSpace_pad by assumption. reflexivity.
Qed.

Lemma parseParts_app parts1 parts2 : forall acc,
  parseParts acc (parts1 ++ parts2) =
  match parseParts acc parts1 with
  | inl acc' => parseParts acc' parts2
  | inr e => inr e
  end.
Proof.
  induction parts1 as [|p parts1 IH]; intros acc; [reflexivity|].
  cbn [app parseParts]. destruct (parsePart acc p); [apply IH|reflexivity].
Qed.

(** X20. A space between two tokens is an error, although a sign
    needs no space before it: the replacer writes a space before each
    sign, the two spaces give an empty part, and an empty part is not
    of the format. *)
Theorem parseTime_now_space_between now layout toks1 toks2 :
  toks1 <> [] -> toks2 <> [] ->
  forallb validToken toks1 = true ->
  forallb fitsInt toks1 = true ->
  forallb validToken toks2 = true ->
  parseTime now layout ("now" +:+ (renderTokens toks1 +:+ (" " +:+ renderTokens toks2))) =
  inr ErrNowFormat.
Proof.
  intros Hne1 Hne2 Hv1%forallb_Forall Hf1%forallb_Forall Hv2%forallb_Forall.
  destruct (renderTokens_ends toks2 Hne2 Hv2) as (pre2 & u2 & Hbody2 & Hu2).
  destruct (Join_tokens_ends toks2 Hne2 Hv2) as (jpre2 & ju2 & Hjoin2 & Hju2).
  assert (Hstart : exists sign post jpost,
            renderTokens toks1 = String sign post /\
            Strings.Join (List.map renderToken toks1) " " = String sign jpost /\
            startsRune Strings.spaceRunes sign = false).
  { destruct toks1 as [|t0 [|t1 rest]]; [congruence| |];
      exists (if tkNeg t0 then "-" else "+")%char; do 2 eexists;
      (split; [reflexivity|split; [reflexivity|by destruct (tkNeg t0)]]). }
  destruct Hstart as (sign & post & jpost & Hb1 & Hj1 & Hsign).
  set (J1 := Strings.Join (List.map renderToken toks1) " ") in *.
  set (J2 := Strings.Join (List.map renderToken toks2) " ") in *.
  rewrite parseTime_now_body by (rewrite Hb1; discriminate).
  assert (Htrim1 : Strings.TrimSpace (renderTokens toks1 +:+ (" " +:+ renderTokens toks2)) =
                   (renderTokens toks1 +:+ (" " +:+ renderTokens toks2))).
  { rewrite Hb1, append_cons.
    apply (TrimSpace_id sign _ u2 (String sign post +:+ (" " +:+ pre2))); try assumption.
    rewrite Hbody2, <- append_cons, !append_assoc. reflexivity. }
  rewrite Htrim1, ReplaceSigns_append, (ReplaceSigns_tokens toks1) by assumption.
  change (" " +:+ renderTokens toks2) with (String " " (renderTokens toks2)).
  cbn [Strings.ReplaceSigns Ascii.eqb Bool.eqb orb andb].
  rewrite (ReplaceSigns_tokens toks2) by assumption. fold J1 J2.
  rewrite append_cons.
  assert (Htrim2 : Strings.TrimSpace (String " " (J1 +:+ String " " (String " " J2))) =
                   (J1 +:+ String " " (String " " J2))).
  { rewrite Hj1, append_cons.
    apply (TrimSpace_space_id sign _ ju2
             (String sign jpost +:+ String " " (String " " jpre2))); try assumption.
    rewrite Hjoin2, <- append_cons, append_assoc, !append_cons. reflexivity. }
  rewrite Htrim2, (Split_append " " _ (String.length J1)) by lia.
  assert (Hsplit : forall toks, toks <> [] ->
            Forall (fun t => validToken t = true) toks ->
            Strings.Split (Strings.Join (List.map renderToken toks) " ") " " =
            List.map renderToken toks).
  { intros toks Hne Hv. apply Split_Join.
    - destruct toks; [congruence|discriminate].
    - apply Forall_forall. intros s (t & <- & Ht)%list_elem_of_In%in_map_iff.
      apply renderToken_no_space. rewrite Forall_forall in Hv.
      by apply Hv, list_elem_of_In. }
  unfold J1 at 1. rewrite Hsplit by assumption.
  change (String " " J2) with ("" +:+ String " " J2).
  rewrite Split_cut by reflexivity.
  rewrite parseParts_app, parseParts_tokens by assumption. reflexivity.
Qed.

End NowSpaces.


(** * The properties on the example host *)

Import ExampleHost Examples.

(** The two tiers of errors on the two cases of the tests of the
    package: a default value that is not an integer, and an input that
    is not an integer. *)
Lemma Unmarshal_two_tier_errors_witness :
  (exists err,
     snd (fst (Unmarshal ∅ (target [badDefault] [VInt 0]) [] 0)) = Some err /\
     err = ErrField (mkFieldError "Value" "int" "notAnInt" (notAnInt "ParseInt")) /\
     AsParseError err = None /\
     AsFieldError err = Some (mkFieldError "Value" "int" "notAnInt" (notAnInt "ParseInt")))
  /\
  (exists err pe,
     snd (fst (Unmarshal badInput (target [plainInt] [VInt 0]) [] 0)) = Some err /\
     AsParseError err = Some pe /\
     pe_Key pe = "Value" /\
     pe_FieldName pe = "Value" /\
     AsFieldError err = Some (pe_fe pe) /\
     pe_fe pe = mkFieldError "Value" "int" "notAnInt" (notAnInt "ParseInt")).
Proof.
  split.
  - exact (proj1 (@Unmarshal_two_tier_errors types host ∅ (target [badDefault] [VInt 0]) [] 0
                    (target [badDefault] [VInt 0]) [] badDefaultField []
                    (VStruct [VInt 0]) 0 (VInt 0) eq_refl eq_refl eq_refl)
             (notAnInt "ParseInt") ltac:(discriminate) eq_refl).
  - exact (proj2 (@Unmarshal_two_tier_errors types host badInput (target [plainInt] [VInt 0]) [] 0
                    (target [plainInt] [VInt 0]) [] plainIntField []
                    (VStruct [VInt 0]) 0 (VInt 0) eq_refl eq_refl eq_refl)
             ["notAnInt"] (VInt 0) 0%nat (notAnInt "ParseInt")
             (or_introl (conj eq_refl (conj eq_refl eq_refl)))
             eq_refl ltac:(discriminate) eq_refl).
Defined.


(** A string is not a struct pointer, and a struct whose only field is
    skipped has no field. *)
Lemma Unmarshal_invalid_target_witness :
  isStructPointer (Iface tString (VString "")) = false /\
  Unmarshal badInput (Iface tString (VString "")) [] 0 =
    (Iface tString (VString ""), Some ErrInvalidStruct, 0%nat) /\
  Unmarshal badInput (target [exported "Skip" "-" tString] [VString ""]) [] 0 =
    (target [exported "Skip" "-" tString] [VString ""], Some ErrNoFields, 0%nat).
Proof.
  split; [reflexivity|]. split.
  - exact (proj1 (@Unmarshal_invalid_target types host badInput (Iface tString (VString "")) [] 0)
             eq_refl).
  - exact (proj1 (proj2 (proj2 (@Unmarshal_invalid_target types host badInput
                                   (target [exported "Skip" "-" tString] [VString ""]) [] 0)))
             unnamed unnamed [exported "Skip" "-" tString] [VString ""] eq_refl
             ltac:(constructor; [right; reflexivity|constructor])).
Defined.

(** The option [default] with a blank value. *)
Lemma parseTag_missing_value_witness :
  hasByte ":" "default" = false /\
  Strings.TrimSpace " " = "" /\
  (exists tagProp,
     snd (parseTag "myName,default: ") = Some (ErrTagMissingValue tagProp)) /\
  snd (parseTag "default: ,layout:RFC850") = Some (ErrTagMissingValue "default").
Proof.
  split; [reflexivity|]. split; [reflexivity|]. split.
  - exact (proj1 (parseTag_missing_value ["myName"] "default" " " []
                    ltac:(repeat constructor) eq_refl eq_refl)).
  - exact (proj1 (proj2 (parseTag_missing_value [] "default" " " ["layout:RFC850"]
                           ltac:(repeat constructor) eq_refl eq_refl)) eq_refl).
Defined.

(** A tag with white space around its names and values. *)
Lemma parseTag_trims_witness :
  forallb okSegment
    [mkPaddedSegment "myKey" None " " " " "" "";
     mkPaddedSegment "default" (Some "42") " " "" " " ""] = true /\
  parseTag " myKey , default: 42" = parseTag "myKey,default:42".
Proof.
  split; [reflexivity|].
  exact (proj1 (proj2 (proj2 parseTag_trims))
           [mkPaddedSegment "myKey" None " " " " "" "";
            mkPaddedSegment "default" (Some "42") " " "" " " ""]
           ltac:(discriminate) eq_refl).
Defined.



(** A default value for an [int] that is already 5. *)
Lemma processField_default_keeps_witness :
  builtin tInt = true /\
  IsZero (VInt 5) = false /\
  processField true "42" tInt (VInt 5) noOptions (optionsOf []) 0 =
    mkOutcome (VInt 5) None 0.
Proof.
  split; [reflexivity|]. split; [reflexivity|].
  exact (@processField_default_keeps types host "42" tInt (VInt 5) noOptions (optionsOf []) 0 (VInt 5)
           eq_refl eq_refl eq_refl).
Defined.

(** The default value of the tests of the package, [now-1y+2m-10d]. *)
Lemma parseTime_now_tokens_witness :
  forallb validToken someTokens = true /\
  forallb fitsInt someTokens = true /\
  parseTime (now 0) "" "now-1y+2m-10d" = inl (addDate (now 0) (-1) 2 (-10)).
Proof.
  split; [reflexivity|]. split; [reflexivity|].
  exact (proj1 (@parseTime_now_tokens types host (now 0) "" someTokens eq_refl eq_refl)).
Defined.


(** C2 as it is stated fails: a default value is decoded into a
    [time.Time] that is not zero, into a field with a decoder that is
    not zero, and into the variable of a pointer that is not nil. *)
Lemma default_overwrites_nonzero :
  (IsZero (VTime epoch) = false /\
   processField true "now" TTime (VTime epoch) noOptions (optionsOf []) 0 =
     mkOutcome (VTime (now 0)) None 1 /\
   VTime (now 0) <> VTime epoch)
  /\ (IsZero (VString "set") = false /\
      processField true "text" tTestTextUnmarshaler (VString "set") noOptions
        (optionsOf []) 0 = mkOutcome (VString "text_text") None 0)
  /\ (IsZero (VPtr (Some (VString ""))) = false /\
      processField true "orange" (TPtr unnamed tString) (VPtr (Some (VString "")))
        noOptions (optionsOf []) 0 = mkOutcome (VPtr (Some (VString "orange"))) None 0).
Proof.
  repeat split; discriminate.
Qed.

(** C3 as it is stated fails: the token [+99999999999999999999y]
    follows the grammar, and [parseTime] returns an error for it. *)
Lemma parseTime_huge_number :
  validToken hugeToken = true /\
  ("now" +:+ renderTokens [hugeToken]) = "now+99999999999999999999y" /\
  parseTime (now 0) "" "now+99999999999999999999y" =
    inr (ErrNotInteger "99999999999999999999").
Proof. repeat split. Qed.


(** ** The further properties on the example host *)

Import FurtherExamples.

(** The string [a;b;c] decoded into a slice of strings. *)
Lemma processField_strings_join_witness :
  builtin tStrings = true /\
  exists elems,
    processField false "a;b;c" tStrings (VSlice None) noOptions (optionsOf []) 0 =
      mkOutcome (VSlice (Some (List.map VString elems))) None 0 /\
    elems <> [] /\ Strings.Join elems (Delim (optionsOf [])) = "a;b;c".
Proof.
  split; [reflexivity|].
  exact (@processField_strings_join types host false "a;b;c" unnamed
           {| pkgPath := ""; tname := "string" |} (VSlice None) noOptions (optionsOf []) 0
           eq_refl eq_refl eq_refl).
Defined.

(** Two values of the key of a slice of strings. *)
Lemma applyInput_strings_values_witness :
  twoItems !! keyOf itemsField = Some ["item1"; "item2"] /\
  applyInput twoItems (optionsOf []) itemsField (VStruct [VSlice None]) 0 =
    (VStruct [VSlice (Some [VString "item1"; VString "item2"])], None, 0%nat).
Proof.
  split; [reflexivity|].
  exact (@applyInput_strings_values types host twoItems (optionsOf []) itemsField
           (VStruct [VSlice None]) 0 ["item1"; "item2"] (VSlice None) ";" unnamed
           {| pkgPath := ""; tname := "string" |}
           eq_refl eq_refl eq_refl eq_refl eq_refl ltac:(discriminate)
           ltac:(repeat constructor) eq_refl).
Defined.

(** A key that no field has, and a key with no value. *)
Lemma Unmarshal_relevant_keys_witness :
  twoItemsAndMore !! "other" = Some ["x"] /\
  twoItemsAndMore !! "Slice" = Some [] /\
  Unmarshal twoItems slicesTarget [] 0 = Unmarshal twoItemsAndMore slicesTarget [] 0.
Proof.
  split; [reflexivity|]. split; [reflexivity|].
  exact (@Unmarshal_relevant_keys types host twoItems twoItemsAndMore slicesTarget [] 0
           ltac:(vm_compute; repeat constructor)).
Defined.

(** No data and no default value. *)
Lemma Unmarshal_nothing_to_decode_witness :
  extractFields (target [plainInt] [VInt 7]) =
    (target [plainInt] [VInt 7], inl [plainIntField]) /\
  Unmarshal ∅ (target [plainInt] [VInt 7]) [] 0 =
    (target [plainInt] [VInt 7], None, 0%nat).
Proof.
  split; [reflexivity|].
  exact (@Unmarshal_nothing_to_decode types host ∅ (target [plainInt] [VInt 7]) [] 0
           (target [plainInt] [VInt 7]) [plainIntField] eq_refl ltac:(discriminate)
           ltac:(repeat constructor)).
Defined.

(** An input that is not an integer gives a [ParseError]. *)
Lemma Unmarshal_error_kinds_witness :
  let e := ErrParse (mkParseError "Value" "Value"
                       (mkFieldError "Value" "int" "notAnInt" (notAnInt "ParseInt"))) in
  snd (fst (Unmarshal badInput (target [plainInt] [VInt 0]) [] 0)) = Some e /\
  (e = ErrInvalidStruct
   \/ e = ErrNoFields
   \/ (tagError e /\ AsParseError e = None /\ AsFieldError e = None /\
       IsErrInvalidStruct e = false)
   \/ (exists fe, e = ErrField fe /\ fe_value fe <> "")
   \/ (exists pe values,
         e = ErrParse pe /\
         badInput !! pe_Key pe = Some values /\ values <> [] /\
         fe_value (pe_fe pe) = joinValues values (optionsOf []) /\
         fe_fieldName (pe_fe pe) = pe_FieldName pe)).
Proof.
  split; [reflexivity|].
  exact (@Unmarshal_error_kinds types host badInput (target [plainInt] [VInt 0]) [] 0
           _ eq_refl).
Defined.


(** An input that is not an integer leaves the field. *)
Lemma processField_error_keeps_witness :
  o_err (processField false "notAnInt" tInt (VInt 5) noOptions (optionsOf []) 0) =
    Some (notAnInt "ParseInt") /\
  o_field (processField false "notAnInt" tInt (VInt 5) noOptions (optionsOf []) 0) = VInt 5.
Proof.
  split; [reflexivity|].
  exact (proj2 (@processField_error_keeps types host false "notAnInt" tInt (VInt 5) noOptions
                  (optionsOf []) 0 (notAnInt "ParseInt") eq_refl) eq_refl).
Defined.

(** A slice that holds an element is not appended to. *)
Lemma processField_replaces_witness :
  let o1 := processField false "a;b" tStrings (VSlice (Some [VString "old"])) noOptions
              (optionsOf []) 0 in
  let o2 := processField false "a;b" tStrings (VSlice None) noOptions (optionsOf []) 0 in
  o_field o2 = VSlice (Some [VString "a"; VString "b"]) /\
  o_err o1 = o_err o2 /\ o_tick o1 = o_tick o2 /\
  (o_err o1 = None -> o_field o1 = o_field o2).
Proof.
  split; [reflexivity|].
  exact (@processField_replaces types host "a;b" tStrings (VSlice (Some [VString "old"]))
           (VSlice None) noOptions (optionsOf []) 0 (or_intror (conj eq_refl eq_refl))).
Defined.

(** A complex number is passed over. *)
Lemma processField_unsupported_witness :
  processField false "1+2i" (TBasic unnamed Reflect.Complex128) (VOther true) noOptions
    (optionsOf []) 0 = mkOutcome (VOther true) None 0.
Proof.
  exact (@processField_unsupported types host false "1+2i"
           (TBasic unnamed Reflect.Complex128) (VOther true) noOptions (optionsOf []) 0
           eq_refl eq_refl).
Defined.


(** A second default value replaces the first and leaves the key. *)
Lemma parseTag_append_witness :
  parseTag "myKey,default:1" =
    ({| key := "myKey"; defaultValue := "1"; layout := "" |}, None) /\
  parseTag "myKey,default:1,default: 2" =
    ({| key := "myKey"; defaultValue := "2"; layout := "" |}, None).
Proof.
  split; [reflexivity|].
  exact (proj2 (proj2 (parseTag_append "myKey,default:1" "default: 2" eq_refl))
           {| key := "myKey"; defaultValue := "1"; layout := "" |} "default" " 2"
           eq_refl eq_refl eq_refl ltac:(discriminate)).
Defined.

(** What follows a segment in error is not read. *)
Lemma parseTag_error_sticky_witness :
  snd (parseTag "a,default:") = Some (ErrTagMissingValue "default") /\
  parseTag "a,default:,layout:RFC850" = parseTag "a,default:".
Proof.
  split; [reflexivity|].
  exact (parseTag_error_sticky "a,default:" "layout:RFC850" ltac:(discriminate)).
Defined.

(** The field [Int] of a struct with a pointer, decoded from [6]. *)
Lemma Unmarshal_field_by_field_witness :
  let v := VPtr (Some (VStruct [VPtr None; VInt 0])) in
  let t := TPtr unnamed (TStruct unnamed withPointer) in
  extractFields (Iface t v) = (Iface t v, inl [ptrField; intField]) /\
  exists t1 c t2,
    unmarshalField sixInt (optionsOf []) (alone intField) (VInt 0) t1 = (c, None, t2) /\
    getAt (fpath intField) (pointee (fst (fst (Unmarshal sixInt (Iface t v) [] 0)))) =
      Some c.
Proof.
  split; [reflexivity|].
  exact (@Unmarshal_field_by_field types host sixInt
           (TPtr unnamed (TStruct unnamed withPointer))
           (VPtr (Some (VStruct [VPtr None; VInt 0]))) [] 0
           (Iface (TPtr unnamed (TStruct unnamed withPointer))
              (VPtr (Some (VStruct [VPtr None; VInt 0]))))
           [ptrField; intField] intField (VInt 0)
           eq_refl eq_refl eq_refl (or_intror (or_introl eq_refl)) eq_refl).
Defined.

(** The second of three fields fails. *)
Lemma Unmarshal_fails_midway_witness :
  let v := VPtr (Some (VStruct [VInt 0; VInt 0; VInt 0])) in
  let t := TPtr unnamed (TStruct unnamed threeInts) in
  let e := ErrParse (mkParseError "B" "B" (mkFieldError "B" "int" "x" notAnIntX)) in
  Unmarshal badB (Iface t v) [] 0 =
    (Iface t (VPtr (Some (VStruct [VInt 1; VInt 0; VInt 0]))), Some e, 0%nat) /\
  exists before fld after cur t1 c,
    [fieldA; fieldB; fieldC] = before ++ fld :: after /\
    getAt (fpath fld) (pointee (Iface t v)) = Some cur /\
    unmarshalField badB (optionsOf []) (alone fld) cur t1 =
      (c, Some e, snd (Unmarshal badB (Iface t v) [] 0)) /\
    getAt (fpath fld) (pointee (fst (fst (Unmarshal badB (Iface t v) [] 0)))) = Some c /\
    (forall g curg, In g before -> getAt (fpath g) (pointee (Iface t v)) = Some curg ->
       exists t2 cg t3,
         unmarshalField badB (optionsOf []) (alone g) curg t2 = (cg, None, t3) /\
         getAt (fpath g) (pointee (fst (fst (Unmarshal badB (Iface t v) [] 0)))) =
           Some cg) /\
    (forall g, In g after ->
       getAt (fpath g) (pointee (fst (fst (Unmarshal badB (Iface t v) [] 0)))) =
       getAt (fpath g) (pointee (Iface t v))).
Proof.
  split; [reflexivity|].
  exact (@Unmarshal_fails_midway types host badB
           (TPtr unnamed (TStruct unnamed threeInts))
           (VPtr (Some (VStruct [VInt 0; VInt 0; VInt 0]))) [] 0
           (Iface (TPtr unnamed (TStruct unnamed threeInts))
              (VPtr (Some (VStruct [VInt 0; VInt 0; VInt 0]))))
           [fieldA; fieldB; fieldC]
           (ErrParse (mkParseError "B" "B" (mkFieldError "B" "int" "x" notAnIntX)))
           eq_refl eq_refl ltac:(discriminate) eq_refl).
Defined.


(** A nil pointer to a struct is set by the first run and followed by
    the second. *)
Lemma extractFields_again_witness :
  fst (extractFields (target withInner [VPtr None])) =
    target withInner [VPtr (Some (VStruct [VInt 0]))] /\
  extractFields (target withInner [VPtr (Some (VStruct [VInt 0]))]) =
    (target withInner [VPtr (Some (VStruct [VInt 0]))],
     inl [mkField "Value" [SField 0%nat; SDeref; SField 0%nat] tInt noOptions]).
Proof.
  split; [reflexivity|].
  exact (@extractFields_again types host (target withInner [VPtr None])
           (target withInner [VPtr (Some (VStruct [VInt 0]))])
           (inl [mkField "Value" [SField 0%nat; SDeref; SField 0%nat] tInt noOptions])
           eq_refl).
Defined.

(** White space around a token, and after ["now"] alone. *)
Lemma parseTime_now_padding_witness :
  parseTime (now 0) "" "now +1y  " = parseTime (now 0) "" "now+1y" /\
  parseTime (now 0) "" "now " = inr ErrNowFormat.
Proof.
  split.
  - exact (proj1 (@parseTime_now_padding types host (now 0) "" " " "+1y" "  "
                    eq_refl eq_refl) ltac:(discriminate)).
  - exact (proj2 (@parseTime_now_padding types host (now 0) "" " " "" ""
                    eq_refl eq_refl) ltac:(discriminate)).
Defined.

(** A space between two tokens. *)
Lemma parseTime_now_space_between_witness :
  parseTime (now 0) "" "now+1y+2m" = inl (addDate (now 0) 1 2 0) /\
  parseTime (now 0) "" "now+1y +2m" = inr ErrNowFormat.
Proof.
  split; [reflexivity|].
  exact (@parseTime_now_space_between types host (now 0) "" [plusOneYear] [plusTwoMonths]
           ltac:(discriminate) ltac:(discriminate) eq_refl eq_refl eq_refl).
Defined.


(** The field [Int] has the default value [42] and the data the
    value [6]. *)
Lemma unmarshalField_input_over_default_witness :
  sixInt !! keyOf intField = Some ["6"] /\
  unmarshalField ∅ (optionsOf []) intField (VStruct [VPtr None; VInt 0]) 0 =
    (VStruct [VPtr None; VInt 42], None, 0%nat) /\
  unmarshalField sixInt (optionsOf []) intField (VStruct [VPtr None; VInt 0]) 0 =
    (VStruct [VPtr None; VInt 6], None, 0%nat).
Proof.
  split; [reflexivity|]. split; [reflexivity|].
  exact (@unmarshalField_input_over_default types host sixInt (optionsOf []) intField
           (VStruct [VPtr None; VInt 0]) 0 ["6"] (VInt 0)
           (or_intror (conj eq_refl eq_refl)) eq_refl ltac:(discriminate) eq_refl
           ltac:(discriminate) eq_refl eq_refl).
Defined.


(** * Examples from the documentation and the tests of the package *)

Example Split_abc : Strings.Split "a;b;c" ";" = ["a"; "b"; "c"].
Proof. reflexivity. Qed.

Example Split_empty : Strings.Split "" ";" = [""].
Proof. reflexivity. Qed.

Example Split_multi : Strings.Split "a<<!>>b<<!>>c" "<<!>>" = ["a"; "b"; "c"].
Proof. reflexivity. Qed.

Example SplitN_two : Strings.SplitN "a:b:c" ":" 2 = ["a"; "b:c"].
Proof. reflexivity. Qed.

Example TrimSpace_ex : Strings.TrimSpace "  default : x  " = "default : x".
Proof. reflexivity. Qed.

Example ParseInt_hex : Strconv.ParseInt "-0x1F" 0 64 = (-31, None).
Proof. reflexivity. Qed.

Example ParseInt_int8 : snd (Strconv.ParseInt "128" 0 8) <> None.
Proof. discriminate. Qed.

Example ParseInt_min : Strconv.ParseInt "-128" 0 8 = (-128, None).
Proof. reflexivity. Qed.

Example ParseInt_underscore : Strconv.ParseInt "1_000" 0 64 = (1000, None).
Proof. reflexivity. Qed.

Example ParseInt_word : snd (Strconv.ParseInt "notAnInt" 0 64) <> None.
Proof. discriminate. Qed.

Example Atoi_big : snd (Strconv.Atoi "99999999999999999999") <> None.
Proof. vm_compute. discriminate. Qed.

Example Atoi_max : Strconv.Atoi "9223372036854775807" = (9223372036854775807, None).
Proof. vm_compute. reflexivity. Qed.

Example parseTag_doc :
  parseTag "myName,default:42" =
  ({| key := "myName"; defaultValue := "42"; layout := "" |}, None).
Proof. reflexivity. Qed.

Example parseTag_dash_comma : parseTag "-," = ({| key := "-"; defaultValue := ""; layout := "" |}, None).
Proof. reflexivity. Qed.

Example parseTag_layout_eq :
  parseTag "since,default:now-3m,layout=2006-01-02" =
  ({| key := "since"; defaultValue := "now-3m"; layout := "" |}, None).
Proof. reflexivity. Qed.

Example parseTime_invalid_inputs :
  List.map (fun value => match parseTime (now 0) "" value with
                         | inl _ => None
                         | inr e => Some e
                         end)
    ["now-1aad"; "now<1y+1m+1d"; "now+1y+1m+1z"; "now+"] =
  [Some (ErrNotInteger "1aa"); Some (ErrInvalidSign "<");
   Some (ErrInvalidIdentifier "z"); Some ErrNowFormat].
Proof. reflexivity. Qed.

Example addDate_end_of_january :
  civilFromDays (day (addDate (now 0) 0 1 0)) = (2023, 3, 3).
Proof. reflexivity. Qed.

Example Unmarshal_defaults :
  Unmarshal ∅ (target withPointer [VPtr None; VInt 0]) [] 0 =
  (target withPointer [VPtr None; VInt 42], None, 0%nat).
Proof. reflexivity. Qed.

Example extractFields_nested :
  snd (extractFields
         (target [exported "Anon" "" (TStruct unnamed [exported "Slice" "items" tStrings]);
                  exported "Skip" "-" tString;
                  exported "P" "" (TPtr unnamed (TStruct unnamed [plainInt]))]
            [VStruct [VSlice None]; VString ""; VPtr None])) =
  inl [mkField "Slice" [SField 0; SField 0] tStrings
         {| key := "items"; defaultValue := ""; layout := "" |};
       mkField "Value" [SField 2; SDeref; SField 0] tInt noOptions].
Proof. reflexivity. Qed.

Example Unmarshal_custom_delimiter :
  List.map (fun d =>
              o_field (processField true "item1<<!>>item2<<!>>item3" tStrings (VSlice None)
                         noOptions (optionsOf [WithDelimiter d]) 0))
    [""; "<<!>>"] =
  [VSlice (Some [VString "item1<<!>>item2<<!>>item3"]);
   VSlice (Some [VString "item1"; VString "item2"; VString "item3"])].
Proof. reflexivity. Qed.
